(** * Sun Path Atlas: the solar engine, embedded and verified

    A shallow embedding of the solar modules of the repository
    (src/modules/solar and src/modules/geo), of the date helpers of
    App.tsx and of the geometry of the charts (src/components), and the
    properties its specification states about them.

    Conventions of the embedding.
    - A JavaScript [number] that carries an angle, a time in minutes or a
      Julian date is a real number ([R]): the arithmetic is the exact
      arithmetic the formulas are written in, without binary64 rounding,
      infinities or signed zeros.  [Math.sin], [Math.cos], [Math.tan],
      [Math.asin] and [Math.acos] are the functions of the same name on
      reals.
    - Where binary64 decides a property, the code is embedded again with
      it: [Binary64] is [normalizeDegrees] of utils.ts on the binary64
      numbers of the kernel, with their rounding; [Overflow] is
      [solarPosition] with the overflow of its product 4 * longitude and
      the NaN that follows from it.
    - Division by zero follows [Rinv 0 = 0].  It occurs in the hour-angle
      equation at the latitudes 90 and -90, where the exact cosine of the
      latitude is 0 and the cosine of the program is about 6e-17: there
      the quotient of the model is 0 and the quotient of the program is
      of the order of 1e16, so that the program reports a polar day or a
      polar night where the model reports a normal day.  The theorems
      stated for every latitude are conditional on the quotient or hold
      in every status; the others exclude the two poles.
    - A [number] that is an integer by construction (a time value in
      milliseconds, a parsed date component, the minutes of a parsed
      timezone offset) is a [Z].  [parseInt] keeps the integer it reads
      exact, where JavaScript rounds it to binary64 above 2^53.
    - [NaN] and [null] are written out where the code can produce them: an
      unparseable component, a date outside the range of [Date].
    - A string is a [string] of 8-bit characters, read as ASCII text:
      [trim], [toUpperCase] and the white space skipped by [parseInt] act
      on the ASCII range and leave a character beyond it as it is, where
      JavaScript strips U+00A0 and the other Unicode white space.
    - The samples of the photography windows are exact rationals ([Q]), so
      that [findWindows] runs inside Rocq.

    Part I is the program, one module per source file, preceded by the
    pieces of the JavaScript library it calls.  Part II states and proves
    the properties; Part III adds properties of the formatters, of the
    date helpers and of the charts, and further laws of the solar engine. *)

From Stdlib Require Import ZArith List Bool Lia Sorted.
From Stdlib Require Import QArith Lqa.
From Stdlib Require Import Reals Zfloor Lra.
From Stdlib Require Import Ascii String DecimalString.
From Stdlib Require DecimalPos.
From Stdlib Require Floats.
Import ListNotations.

(* ################################################################# *)
(** * Part I: the program *)

(** ** Numbers: the remainder operator of JavaScript on reals *)

Module JsNumber.
Local Open Scope R_scope.

(** Truncation towards zero. *)
Definition trunc (x : R) : Z :=
  if Rlt_dec x 0 then Zceil x else Zfloor x.

(** [a % n]: the remainder has the sign of the dividend. *)
Definition rem (a n : R) : R := a - n * IZR (trunc (a / n)).

End JsNumber.

(** ** utils.ts: degrees, radians, clamp and angle normalization *)

Module Utils.
Local Open Scope R_scope.

Definition DEG2RAD : R := PI / 180.
Definition RAD2DEG : R := 180 / PI.

Definition deg2rad (deg : R) : R := deg * DEG2RAD.
Definition rad2deg (rad : R) : R := rad * RAD2DEG.

Definition clamp (value min max : R) : R := Rmin max (Rmax min value).

Definition normalizeDegrees (angle : R) : R :=
  let normalized := JsNumber.rem angle 360 in
  if Rlt_dec normalized 0 then normalized + 360 else normalized.

End Utils.

(** ** utils.ts in binary64 *)

Module Binary64.
Import Floats.
Local Open Scope float_scope.

(** [a % n] on binary64 numbers: NaN when [a] is not finite or [n] is a
    zero, [a] when [n] is an infinity or [a] is a zero, and otherwise the
    exact remainder of the truncating division, with the sign of [a].
    The remainder is computed on the integer mantissas brought to the
    smaller of the two exponents; it is a binary64 number, so that
    [binary_normalize] does not round. *)
Definition rem (a n : float) : float :=
  match Prim2SF a, Prim2SF n with
  | S754_nan, _ => nan
  | _, S754_nan => nan
  | S754_infinity _, _ => nan
  | _, S754_infinity _ => a
  | _, S754_zero _ => nan
  | S754_zero _, _ => a
  | S754_finite sa ma ea, S754_finite _ mn en =>
      let e := Z.min ea en in
      let r := Z.rem (Z.pos ma * 2 ^ (ea - e)) (Z.pos mn * 2 ^ (en - e)) in
      if (r =? 0)%Z then (if sa then -0 else 0)
      else SF2Prim (SpecFloat.binary_normalize
                      prec emax (if sa then - r else r)%Z e false)
  end.

(** [normalizeDegrees] of lines 16-19, on binary64 numbers: [<] is false
    on NaN and [+] rounds to nearest, ties to even. *)
Definition normalizeDegrees (angle : float) : float :=
  let normalized := rem angle 360 in
  if normalized <? 0 then normalized + 360 else normalized.

End Binary64.

(** ** Strings: the operations of [String.prototype] and [parseInt] the
    modules call *)

Module JsString.
Local Open Scope string_scope.

(** The result of [parseInt]: [NaN], an infinity (a digit string too long
    for binary64) or an integer. *)
Inductive number : Type :=
| NaN
| Infinity
| NegInfinity
| Int (z : Z).

Definition isFinite (n : number) : bool :=
  match n with Int _ => true | _ => false end.

Definition isNaN (n : number) : bool :=
  match n with NaN => true | _ => false end.

Definition code (c : ascii) : N := N_of_ascii c.

(** TAB, LF, VT, FF, CR and SPACE. *)
Definition isWhite (c : ascii) : bool :=
  ((9 <=? code c) && (code c <=? 13) || (code c =? 32))%N.

Definition isDigit (c : ascii) : bool :=
  ((48 <=? code c) && (code c <=? 57))%N.

Definition digitValue (c : ascii) : Z := Z.of_N (code c) - 48.

Definition isLower (c : ascii) : bool :=
  ((97 <=? code c) && (code c <=? 122))%N.

Definition upper (c : ascii) : ascii :=
  if isLower c then ascii_of_N (code c - 32) else c.

Fixpoint toUpperCase (s : string) : string :=
  match s with
  | EmptyString => EmptyString
  | String c t => String (upper c) (toUpperCase t)
  end.

Fixpoint trimStart (s : string) : string :=
  match s with
  | EmptyString => EmptyString
  | String c t => if isWhite c then trimStart t else s
  end.

Fixpoint trimEnd (s : string) : string :=
  match s with
  | EmptyString => EmptyString
  | String c t =>
      match trimEnd t with
      | EmptyString => if isWhite c then EmptyString else String c EmptyString
      | t' => String c t'
      end
  end.

Definition trim (s : string) : string := trimEnd (trimStart s).

(** [s.split(sep)] for a one-character separator: never the empty list. *)
Fixpoint split (sep : ascii) (s : string) : list string :=
  match s with
  | EmptyString => [EmptyString]
  | String c t =>
      if Ascii.eqb c sep then EmptyString :: split sep t
      else match split sep t with
           | h :: r => String c h :: r
           | [] => [String c EmptyString]
           end
  end.

(** [s.replace(/^prefix/, '')]. *)
Fixpoint stripPrefix (prefix s : string) : option string :=
  match prefix, s with
  | EmptyString, _ => Some s
  | String p pt, String c t => if Ascii.eqb p c then stripPrefix pt t else None
  | String _ _, EmptyString => None
  end.

Definition removePrefix (prefix s : string) : string :=
  match stripPrefix prefix s with Some t => t | None => s end.

(** The longest prefix of decimal digits, read as an integer; [None] when
    the prefix is empty. *)
Fixpoint digitsValue (acc : Z) (seen : bool) (s : string) : option Z :=
  match s with
  | String c t =>
      if isDigit c then digitsValue (10 * acc + digitValue c) true t
      else if seen then Some acc else None
  | EmptyString => if seen then Some acc else None
  end.

(** The least integer that binary64 rounds to an infinity. *)
Definition overflow : Z := 2 ^ 1024 - 2 ^ 970.

(** [Number.parseInt(s, 10)]: leading white space, an optional sign, then
    the longest run of digits.  The integer read is kept exact. *)
Definition parseInt (s : string) : number :=
  let s1 := trimStart s in
  let '(negative, s2) :=
    match s1 with
    | String "-" t => (true, t)
    | String "+" t => (false, t)
    | _ => (false, s1)
    end in
  match digitsValue 0 false s2 with
  | None => NaN
  | Some v =>
      if (overflow <=? v)%Z then (if negative then NegInfinity else Infinity)
      else Int (if negative then - v else v)
  end.

(** [parseInt] of an array element that may be missing: [undefined] is
    converted to the string "undefined", which has no digits. *)
Definition parseIntElement (e : option string) : number :=
  match e with
  | Some s => parseInt s
  | None => NaN
  end.

End JsString.

(** ** Date: time values and [Date.UTC] (ECMAScript, Date objects) *)

Module JsDate.
Local Open Scope Z_scope.

(** A [Date] object: invalid (its time value is [NaN]) or a time value in
    milliseconds since the epoch. *)
Inductive Date : Type :=
| InvalidDate
| DateOf (t : Z).

Definition msPerDay : Z := 86400000.
Definition maxTime : Z := 8640000000000000.

Definition DayFromYear (y : Z) : Z :=
  365 * (y - 1970) + (y - 1969) / 4 - (y - 1901) / 100 + (y - 1601) / 400.

Definition InLeapYear (y : Z) : bool :=
  ((y mod 4 =? 0) && negb (y mod 100 =? 0)) || (y mod 400 =? 0).

(** Day within the year of the first day of month [mn] (0 = January). *)
Definition monthStart (leap : bool) (mn : Z) : Z :=
  nth (Z.to_nat mn) [0; 31; 59; 90; 120; 151; 181; 212; 243; 273; 304; 334] 0
  + (if leap && (2 <=? mn) then 1 else 0).

Definition MakeDay (year month date : Z) : Z :=
  let ym := year + month / 12 in
  let mn := month mod 12 in
  DayFromYear ym + monthStart (InLeapYear ym) mn + date - 1.

Definition MakeTime (hour min sec ms : Z) : Z :=
  hour * 3600000 + min * 60000 + sec * 1000 + ms.

Definition MakeDate (day time : Z) : Z := day * msPerDay + time.

Definition MakeFullYear (year : Z) : Z :=
  if (0 <=? year) && (year <=? 99) then 1900 + year else year.

(** [None] is [NaN]. *)
Definition TimeClip (t : Z) : option Z :=
  if Z.abs t <=? maxTime then Some t else None.

Definition UTC (year month date hours minutes seconds : Z) : option Z :=
  TimeClip (MakeDate (MakeDay (MakeFullYear year) month date)
                     (MakeTime hours minutes seconds 0)).

(** [new Date(value)] for a time value that is a number or [NaN]. *)
Definition ofTime (v : option Z) : Date :=
  match v with
  | Some t => match TimeClip t with Some t' => DateOf t' | None => InvalidDate end
  | None => InvalidDate
  end.

(** [new Date(value)] for a real number: out of range is invalid, a
    fraction is truncated. *)
Definition ofNumber (v : R) : Date :=
  if Rle_dec (Rabs v) (IZR maxTime) then DateOf (JsNumber.trunc v)
  else InvalidDate.

Definition getUTCHours (t : Z) : Z := (t / 3600000) mod 24.
Definition getUTCMinutes (t : Z) : Z := (t / 60000) mod 60.
Definition getUTCSeconds (t : Z) : Z := (t / 1000) mod 60.
Definition getUTCMilliseconds (t : Z) : Z := t mod 1000.

End JsDate.

(** ** Math: the functions of [Math] the formulas call, on reals *)

Module JsMath.
Local Open Scope R_scope.

(** [Math.atan2(y, x)], the angle of the point (x, y) in (-PI, PI]. *)
Definition atan2 (y x : R) : R :=
  if Rlt_dec 0 x then atan (y / x)
  else if Rlt_dec x 0 then
    (if Rle_dec 0 y then atan (y / x) + PI else atan (y / x) - PI)
  else if Rlt_dec 0 y then PI / 2
  else if Rlt_dec y 0 then - (PI / 2)
  else 0.

End JsMath.

(** ** julian.ts *)

Module Julian.
Local Open Scope R_scope.

Record JulianDate : Type := { jd : R; jc : R }.

(** [date] is the time value of a valid Date. *)
Definition toJulianDate (date : Z) : JulianDate :=
  let unixDays := IZR date / 86400000 in
  let jd := unixDays + 2440587.5 in
  let jc := (jd - 2451545.0) / 36525 in
  {| jd := jd; jc := jc |}.

End Julian.

(** ** solarPosition.ts *)

Module SolarPosition.
Import Utils.
Local Open Scope R_scope.

Record SolarPosition : Type := {
  altitude : R;
  azimuth : R;
  declination : R;
  equationOfTime : R
}.

Record SolarDeclinationResult : Type := {
  declinationOf : R;
  equationOfTimeOf : R
}.

Definition solarDeclinationAndEoT (jc : R) : SolarDeclinationResult :=
  let geomMeanLong :=
    normalizeDegrees (280.46646 + jc * (36000.76983 + jc * 0.0003032)) in
  let geomMeanAnomaly := 357.52911 + jc * (35999.05029 - 0.0001537 * jc) in
  let eccentEarthOrbit := 0.016708634 - jc * (0.000042037 + 0.0000001267 * jc) in
  let sunEqCenter :=
    sin (deg2rad geomMeanAnomaly) * (1.914602 - jc * (0.004817 + 0.000014 * jc)) +
    sin (deg2rad (2 * geomMeanAnomaly)) * (0.019993 - 0.000101 * jc) +
    sin (deg2rad (3 * geomMeanAnomaly)) * 0.000289 in
  let sunTrueLong := geomMeanLong + sunEqCenter in
  let sunAppLong :=
    sunTrueLong - 0.00569 - 0.00478 * sin (deg2rad (125.04 - 1934.136 * jc)) in
  let meanObliq :=
    23 + (26 + (21.448 - jc * (46.815 + jc * (0.00059 - jc * 0.001813))) / 60) / 60 in
  let obliqCorr := meanObliq + 0.00256 * cos (deg2rad (125.04 - 1934.136 * jc)) in
  let declination :=
    rad2deg (asin (sin (deg2rad obliqCorr) * sin (deg2rad sunAppLong))) in
  let y := tan (deg2rad obliqCorr / 2) in
  let y2 := y * y in
  let equationOfTime :=
    4 *
    rad2deg
      (y2 * sin (2 * deg2rad geomMeanLong) -
       2 * eccentEarthOrbit * sin (deg2rad geomMeanAnomaly) +
       4 * eccentEarthOrbit * y2 * sin (deg2rad geomMeanAnomaly) *
         cos (2 * deg2rad geomMeanLong) -
       0.5 * y2 * y2 * sin (4 * deg2rad geomMeanLong) -
       1.25 * eccentEarthOrbit * eccentEarthOrbit *
         sin (2 * deg2rad geomMeanAnomaly)) in
  {| declinationOf := declination; equationOfTimeOf := equationOfTime |}.

(** The cosine of the zenith angle, before the clamp (lines 86-88). *)
Definition cosZenithOf (latitudeRad declinationRad hourAngleRad : R) : R :=
  sin latitudeRad * sin declinationRad +
  cos latitudeRad * cos declinationRad * cos hourAngleRad.

(** [dateUtc] is the time value of a valid Date. *)
Definition solarPosition (latitude longitude : R) (dateUtc : Z) : SolarPosition :=
  let jc := Julian.jc (Julian.toJulianDate dateUtc) in
  let sd := solarDeclinationAndEoT jc in
  let declination := declinationOf sd in
  let equationOfTime := equationOfTimeOf sd in
  let utcMinutes :=
    IZR (JsDate.getUTCHours dateUtc) * 60 +
    IZR (JsDate.getUTCMinutes dateUtc) +
    IZR (JsDate.getUTCSeconds dateUtc) / 60 +
    IZR (JsDate.getUTCMilliseconds dateUtc) / 60000 in
  let trueSolarTime0 :=
    JsNumber.rem (utcMinutes + equationOfTime + 4 * longitude) 1440 in
  let trueSolarTime :=
    if Rlt_dec trueSolarTime0 0 then trueSolarTime0 + 1440 else trueSolarTime0 in
  let hourAngle0 := trueSolarTime / 4 - 180 in
  let hourAngle :=
    if Rlt_dec hourAngle0 (-180) then hourAngle0 + 360 else hourAngle0 in
  let latitudeRad := deg2rad latitude in
  let declinationRad := deg2rad declination in
  let hourAngleRad := deg2rad hourAngle in
  let cosZenith := cosZenithOf latitudeRad declinationRad hourAngleRad in
  let zenith := rad2deg (acos (clamp cosZenith (-1) 1)) in
  let altitude := 90 - zenith in
  let azimuth :=
    normalizeDegrees
      (rad2deg
         (JsMath.atan2
            (sin hourAngleRad)
            (cos hourAngleRad * sin latitudeRad -
             tan declinationRad * cos latitudeRad)) + 180) in
  {| altitude := altitude; azimuth := azimuth;
     declination := declination; equationOfTime := equationOfTime |}.

End SolarPosition.

(** ** solarPosition.ts with the overflow of its one unbounded product *)

Module Overflow.
Import Utils.
Local Open Scope R_scope.

(** A number that may be NaN. *)
Inductive number : Type :=
  | NaN
  | Num (value : R).

Record SolarPosition : Type := {
  altitude : number;
  azimuth : number;
  declination : number;
  equationOfTime : number
}.

(** [a * b] as binary64 gives it: the exact product, or an infinity
    ([None]) when the product reaches the magnitude that binary64 rounds
    to an infinity. *)
Definition times (a b : R) : option R :=
  if Rlt_dec (Rabs (a * b)) (IZR JsString.overflow) then Some (a * b) else None.

(** [solarPosition] of lines 66-103, with the product [4 * longitude]
    computed by [times].  It is the one operation of the function that
    leaves the finite numbers on finite arguments: the other products and
    sums are of bounded terms.  When it is an infinity, so is the sum of
    line 75, whose remainder by 1440 is NaN; [NaN < 0] is false on lines
    76 and 79, and NaN goes through every operation down to the altitude
    and the azimuth: the sums, [deg2rad], [Math.sin], [Math.cos],
    [Math.min] and [Math.max] of [clamp], [Math.acos], [Math.atan2],
    [rad2deg] and the remainder and the comparison of [normalizeDegrees]
    all return NaN (or false) on NaN.  The declination and the equation of
    time do not depend on the longitude. *)
Definition solarPosition (latitude longitude : R) (dateUtc : Z) : SolarPosition :=
  let jc := Julian.jc (Julian.toJulianDate dateUtc) in
  let sd := SolarPosition.solarDeclinationAndEoT jc in
  let declination := SolarPosition.declinationOf sd in
  let equationOfTime := SolarPosition.equationOfTimeOf sd in
  let utcMinutes :=
    IZR (JsDate.getUTCHours dateUtc) * 60 +
    IZR (JsDate.getUTCMinutes dateUtc) +
    IZR (JsDate.getUTCSeconds dateUtc) / 60 +
    IZR (JsDate.getUTCMilliseconds dateUtc) / 60000 in
  match times 4 longitude with
  | None =>
      {| altitude := NaN; azimuth := NaN;
         declination := Num declination; equationOfTime := Num equationOfTime |}
  | Some product =>
      let trueSolarTime0 :=
        JsNumber.rem (utcMinutes + equationOfTime + product) 1440 in
      let trueSolarTime :=
        if Rlt_dec trueSolarTime0 0 then trueSolarTime0 + 1440 else trueSolarTime0 in
      let hourAngle0 := trueSolarTime / 4 - 180 in
      let hourAngle :=
        if Rlt_dec hourAngle0 (-180) then hourAngle0 + 360 else hourAngle0 in
      let latitudeRad := deg2rad latitude in
      let declinationRad := deg2rad declination in
      let hourAngleRad := deg2rad hourAngle in
      let cosZenith :=
        SolarPosition.cosZenithOf latitudeRad declinationRad hourAngleRad in
      let zenith := rad2deg (acos (clamp cosZenith (-1) 1)) in
      let altitude := 90 - zenith in
      let azimuth :=
        normalizeDegrees
          (rad2deg
             (JsMath.atan2
                (sin hourAngleRad)
                (cos hourAngleRad * sin latitudeRad -
                 tan declinationRad * cos latitudeRad)) + 180) in
      {| altitude := Num altitude; azimuth := Num azimuth;
         declination := Num declination; equationOfTime := Num equationOfTime |}
  end.

End Overflow.

(** ** sunriseSunset.ts *)

Module SunriseSunset.
Import Utils SolarPosition.
Local Open Scope R_scope.

(** A field of type [number | null]. *)
Inductive value : Type :=
| Null
| NotANumber
| Num (r : R).

Inductive Status : Type := normal | polar_day | polar_night.

Record SunEventTimes : Type := {
  sunriseMinutes : value;
  sunsetMinutes : value;
  solarNoonMinutes : value;
  daylightMinutes : value;
  status : Status
}.

(** [sunAltitude] is optional. *)
Record SunEventOptions : Type := { sunAltitude : option R }.

Definition noOptions : SunEventOptions := {| sunAltitude := None |}.

(** Lines 30-45: the constant [dateUtc], or [None] when a component of the
    date is not a finite integer and the function returns at line 36. *)
Definition dateUtc (dateString : string) : option JsDate.Date :=
  let parts := JsString.split "-" dateString in
  let year := JsString.parseIntElement (nth_error parts 0) in
  let month := JsString.parseIntElement (nth_error parts 1) in
  let day := JsString.parseIntElement (nth_error parts 2) in
  match year, month, day with
  | JsString.Int year, JsString.Int month, JsString.Int day =>
      Some (JsDate.ofTime (JsDate.UTC year (month - 1) day 0 0 0))
  | _, _, _ => None
  end.

(** The hour-angle equation of lines 54-57. *)
Definition cosHourAngle (latRad declRad zenith : R) : R :=
  cos (deg2rad zenith) / (cos latRad * cos declRad) - tan latRad * tan declRad.

(** [options.sunAltitude ?? -0.833] *)
Definition targetAltitude (options : SunEventOptions) : R :=
  match sunAltitude options with Some a => a | None => -0.833 end.

(** Lines 49-89: the events of the day, from the declination and the
    equation of time of lines 46-47. *)
Definition solveEvents (latitude longitude tzOffsetMinutes : R)
    (options : SunEventOptions) (sd : SolarDeclinationResult) : SunEventTimes :=
  let declination := declinationOf sd in
  let equationOfTime := equationOfTimeOf sd in
  let solarNoonUtcMinutes := 720 - 4 * longitude - equationOfTime in
  let solarNoonMinutes := solarNoonUtcMinutes + tzOffsetMinutes in
  let latRad := deg2rad latitude in
  let declRad := deg2rad declination in
  let zenith := 90 - targetAltitude options in
  let cosH := cosHourAngle latRad declRad zenith in
  if Rlt_dec 1 cosH then
    {| sunriseMinutes := Null; sunsetMinutes := Null;
       solarNoonMinutes := Num solarNoonMinutes;
       daylightMinutes := Num 0;
       status := polar_night |}
  else if Rlt_dec cosH (-1) then
    {| sunriseMinutes := Null; sunsetMinutes := Null;
       solarNoonMinutes := Num solarNoonMinutes;
       daylightMinutes := Num 1440;
       status := polar_day |}
  else
    let hourAngle := rad2deg (acos (clamp cosH (-1) 1)) in
    let sunriseUtcMinutes := solarNoonUtcMinutes - 4 * hourAngle in
    let sunsetUtcMinutes := solarNoonUtcMinutes + 4 * hourAngle in
    {| sunriseMinutes := Num (sunriseUtcMinutes + tzOffsetMinutes);
       sunsetMinutes := Num (sunsetUtcMinutes + tzOffsetMinutes);
       solarNoonMinutes := Num solarNoonMinutes;
       daylightMinutes := Num (8 * hourAngle);
       status := normal |}.

Definition sunriseSunset (latitude longitude : R) (dateString : string)
    (tzOffsetMinutes : R) (options : SunEventOptions) : SunEventTimes :=
  match dateUtc dateString with
  | None =>
      {| sunriseMinutes := Null; sunsetMinutes := Null;
         solarNoonMinutes := Null; daylightMinutes := Null;
         status := normal |}
  | Some JsDate.InvalidDate =>
      (* getTime() is NaN: every number computed from it is NaN and both
         comparisons on cosH are false *)
      {| sunriseMinutes := NotANumber; sunsetMinutes := NotANumber;
         solarNoonMinutes := NotANumber; daylightMinutes := NotANumber;
         status := normal |}
  | Some (JsDate.DateOf t) =>
      let jc := Julian.jc (Julian.toJulianDate t) in
      solveEvents latitude longitude tzOffsetMinutes options
                  (solarDeclinationAndEoT jc)
  end.

End SunriseSunset.

(** ** twilight.ts *)

Module Twilight.
Import Utils SolarPosition.
Import SunriseSunset (value, Null, NotANumber, Num).
Local Open Scope R_scope.

Record TwilightBand : Type := { start : value; end_ : value }.

Record TwilightTimes : Type := {
  civil : TwilightBand;
  nautical : TwilightBand;
  astronomical : TwilightBand
}.

Definition twilightBand (latitude longitude : R) (dateString : string)
    (tzOffsetMinutes sunAltitude : R) : TwilightBand :=
  let parts := JsString.split "-" dateString in
  let year := JsString.parseIntElement (nth_error parts 0) in
  let month := JsString.parseIntElement (nth_error parts 1) in
  let day := JsString.parseIntElement (nth_error parts 2) in
  match year, month, day with
  | JsString.Int year, JsString.Int month, JsString.Int day =>
      match JsDate.ofTime (JsDate.UTC year (month - 1) day 0 0 0) with
      | JsDate.InvalidDate =>
          (* NaN throughout, and both comparisons on cosH are false *)
          {| start := NotANumber; end_ := NotANumber |}
      | JsDate.DateOf t =>
          let jc := Julian.jc (Julian.toJulianDate t) in
          let sd := solarDeclinationAndEoT jc in
          let declination := declinationOf sd in
          let equationOfTime := equationOfTimeOf sd in
          let solarNoonUtcMinutes := 720 - 4 * longitude - equationOfTime in
          let latRad := deg2rad latitude in
          let declRad := deg2rad declination in
          let zenith := 90 - sunAltitude in
          let cosH :=
            cos (deg2rad zenith) / (cos latRad * cos declRad) -
            tan latRad * tan declRad in
          if Rlt_dec 1 cosH then {| start := Null; end_ := Null |}
          else if Rlt_dec cosH (-1) then {| start := Null; end_ := Null |}
          else
            let hourAngle := rad2deg (acos (clamp cosH (-1) 1)) in
            let startUtcMinutes := solarNoonUtcMinutes - 4 * hourAngle in
            let endUtcMinutes := solarNoonUtcMinutes + 4 * hourAngle in
            {| start := Num (startUtcMinutes + tzOffsetMinutes);
               end_ := Num (endUtcMinutes + tzOffsetMinutes) |}
      end
  | _, _, _ => {| start := Null; end_ := Null |}
  end.

Definition twilightTimes (latitude longitude : R) (dateString : string)
    (tzOffsetMinutes : R) : TwilightTimes :=
  {| civil := twilightBand latitude longitude dateString tzOffsetMinutes (-6);
     nautical := twilightBand latitude longitude dateString tzOffsetMinutes (-12);
     astronomical :=
       twilightBand latitude longitude dateString tzOffsetMinutes (-18) |}.

End Twilight.

(** ** geo/time.ts *)

Module GeoTime.
Local Open Scope R_scope.

(** [None] is the [null] result. *)
Definition getUtcDateFromLocal (dateString : string)
    (minutesLocal offsetMinutes : R) : option JsDate.Date :=
  let parts := JsString.split "-" dateString in
  let year := JsString.parseIntElement (nth_error parts 0) in
  let month := JsString.parseIntElement (nth_error parts 1) in
  let day := JsString.parseIntElement (nth_error parts 2) in
  match year, month, day with
  | JsString.Int year, JsString.Int month, JsString.Int day =>
      match JsDate.UTC year (month - 1) day 0 0 0 with
      | None => None
      | Some baseUtc =>
          let utcMinutes := minutesLocal - offsetMinutes in
          let utcMs := IZR baseUtc + utcMinutes * 60 * 1000 in
          Some (JsDate.ofNumber utcMs)
      end
  | _, _, _ => None
  end.

End GeoTime.

(** ** geo/timezone.ts *)

Module Timezone.
Import JsString.
Local Open Scope string_scope.
Local Open Scope Z_scope.

Record TimezoneParseResult : Type := { minutes : Z; isValid : bool }.

(** The groups of a match of [TZ_PATTERN]: sign, hours, minutes. *)
Definition Groups : Type := (option ascii * string * option string)%type.

(** [\d{2}$] *)
Definition twoDigitsEnd (s : string) : option string :=
  match s with
  | String a (String b EmptyString) =>
      if isDigit a && isDigit b then Some s else None
  | _ => None
  end.

(** [(?::?(\d{2}))?$]: the group with its colon, the group without it,
    then no group. *)
Definition matchMinutes (rest : string) : option (option string) :=
  let withColon :=
    match rest with
    | String ":" r => twoDigitsEnd r
    | _ => None
    end in
  match withColon with
  | Some m => Some (Some m)
  | None =>
      match twoDigitsEnd rest with
      | Some m => Some (Some m)
      | None =>
          match rest with
          | EmptyString => Some None
          | _ => None
          end
      end
  end.

(** [(\d{1,2})] followed by the minutes: two digits are tried first. *)
Definition matchHours (s : string) : option (string * option string) :=
  match s with
  | String a t =>
      if isDigit a then
        let two :=
          match t with
          | String b r =>
              if isDigit b then
                option_map (fun m => (String a (String b EmptyString), m))
                           (matchMinutes r)
              else None
          | EmptyString => None
          end in
        match two with
        | Some g => Some g
        | None => option_map (fun m => (String a EmptyString, m)) (matchMinutes t)
        end
      else None
  | EmptyString => None
  end.

(** [/^([+-])?(\d{1,2})(?::?(\d{2}))?$/] *)
Definition TZ_PATTERN (s : string) : option Groups :=
  let signed :=
    match s with
    | String c t =>
        if Ascii.eqb c "+" || Ascii.eqb c "-" then
          option_map (fun '(h, m) => (Some c, h, m)) (matchHours t)
        else None
    | EmptyString => None
    end in
  match signed with
  | Some g => Some g
  | None => option_map (fun '(h, m) => (None, h, m)) (matchHours s)
  end.

Definition invalid : TimezoneParseResult := {| minutes := 0; isValid := false |}.

(** Lines 94-110: the result, from the match of [TZ_PATTERN]. *)
Definition fromMatch (m : option Groups) : TimezoneParseResult :=
  match m with
  | None => invalid
  | Some (sign, hoursStr, minutesStr) =>
      let sign :=
        match sign with
        | Some c => if Ascii.eqb c "-" then -1 else 1
        | None => 1
        end in
      let hours := parseInt hoursStr in
      let minutes :=
        parseInt (match minutesStr with Some m => m | None => "0" end) in
      match hours, minutes with
      | Int hours, Int minutes =>
          if (14 <? hours) || (60 <=? minutes) then invalid
          else {| minutes := sign * (hours * 60 + minutes); isValid := true |}
      | _, _ =>
          (* the isNaN guard of line 102; a group of one or two digits
             always parses to an integer *)
          invalid
      end
  end.

Definition parseTimezoneOffset (input : string) : TimezoneParseResult :=
  let raw := toUpperCase (trim input) in
  if String.eqb raw "" then invalid
  else if String.eqb raw "Z" || String.eqb raw "UTC" || String.eqb raw "GMT"
  then {| minutes := 0; isValid := true |}
  else
    let cleaned := removePrefix "GMT" (removePrefix "UTC" raw) in
    fromMatch (TZ_PATTERN cleaned).

End Timezone.

(** ** photography.ts *)

Module Photography.
Local Open Scope Q_scope.

Record Sample : Type := { minute : Q; altitude : Q }.

Record SolarWindow : Type := { start : Q; end_ : Q }.

Record PhotoWindows : Type := {
  golden : list SolarWindow;
  blue : list SolarWindow
}.

Definition GOLDEN_DEFAULT : Q * Q := (0, 6).
Definition BLUE_DEFAULT : Q * Q := (-6 # 1, 0).

Definition inRange (minAlt maxAlt : Q) (point : Sample) : bool :=
  Qle_bool minAlt (altitude point) && Qle_bool (altitude point) maxAlt.

(** [lastMinute ?? start] *)
Definition orElse (lastMinute : option Q) (start : Q) : Q :=
  match lastMinute with Some m => m | None => start end.

(** The [for] loop of lines 33-43 and the statements after it, with the
    three variables of the function as arguments. *)
Fixpoint scan (minAlt maxAlt : Q) (series : list Sample)
    (windows : list SolarWindow) (start lastMinute : option Q)
    : list SolarWindow :=
  match series with
  | point :: rest =>
      if inRange minAlt maxAlt point then
        scan minAlt maxAlt rest windows
             (match start with None => Some (minute point) | Some _ => start end)
             (Some (minute point))
      else
        match start with
        | Some s =>
            scan minAlt maxAlt rest
                 (windows ++ [{| start := s; end_ := orElse lastMinute s |}])
                 None None
        | None => scan minAlt maxAlt rest windows start lastMinute
        end
  | [] =>
      match start with
      | Some s => windows ++ [{| start := s; end_ := orElse lastMinute s |}]
      | None => windows
      end
  end.

Definition findWindows (series : list Sample) (minAlt maxAlt : Q)
    : list SolarWindow :=
  scan minAlt maxAlt series [] None None.

(** The ranges are optional arguments with defaults. *)
Definition computePhotoWindows (altitudeByMinute : list Sample)
    (goldenRange blueRange : option (Q * Q)) : PhotoWindows :=
  let goldenRange :=
    match goldenRange with Some r => r | None => GOLDEN_DEFAULT end in
  let blueRange :=
    match blueRange with Some r => r | None => BLUE_DEFAULT end in
  let golden := findWindows altitudeByMinute (fst goldenRange) (snd goldenRange) in
  let blue := findWindows altitudeByMinute (fst blueRange) (snd blueRange) in
  {| golden := golden; blue := blue |}.

End Photography.

(** ** Vocabulary of the statements *)

Module Spec.
Import JsString.
Local Open Scope string_scope.

Definition digitChars : list ascii :=
  ["0"; "1"; "2"; "3"; "4"; "5"; "6"; "7"; "8"; "9"]%char.

(** Group 2 of [TZ_PATTERN]: one or two decimal digits. *)
Definition hoursGroup (h : string) : Prop :=
  (exists a, isDigit a = true /\ h = String a "") \/
  (exists a b, isDigit a = true /\ isDigit b = true /\ h = String a (String b "")).

(** Group 3 of [TZ_PATTERN]: exactly two decimal digits, when the group
    took part in the match. *)
Definition minutesGroup (m : option string) : Prop :=
  m = None \/
  (exists c d, isDigit c = true /\ isDigit d = true /\
               m = Some (String c (String d ""))).

(** The characters of a numeric offset: digits, signs and the colon. *)
Definition offsetChar (c : ascii) : bool :=
  isDigit c || Ascii.eqb c "+" || Ascii.eqb c "-" || Ascii.eqb c ":".

Fixpoint allChars (f : ascii -> bool) (s : string) : bool :=
  match s with
  | EmptyString => true
  | String c t => f c && allChars f t
  end.

(** The optional sign of an offset, as text. *)
Definition signText (sg : option ascii) : string :=
  match sg with Some c => String c "" | None => "" end.

(** Strict order on rationals, as a boolean. *)
Definition Qltb (x y : Q) : bool := negb (Qle_bool y x).

(** Each element is less than the next. *)
Fixpoint increasing (l : list Q) : bool :=
  match l with
  | a :: (b :: _) as t => Qltb a b && increasing t
  | _ => true
  end.

(** Each element is greater than the next. *)
Fixpoint falling (l : list Q) : bool :=
  match l with
  | a :: (b :: _) as t => Qltb b a && falling t
  | _ => true
  end.

(** The values rise strictly up to a single maximum and fall strictly
    after it. *)
Fixpoint risesThenFalls (l : list Q) : bool :=
  match l with
  | a :: (b :: _) as t => (Qltb a b && risesThenFalls t) || falling l
  | _ => true
  end.

(** [within minAlt maxAlt a]: the test of line 34 on an altitude. *)
Definition within (minAlt maxAlt a : Q) : bool :=
  Qle_bool minAlt a && Qle_bool a maxAlt.

(** The number of samples in range whose predecessor is not ([prev] for
    the first one): the places where a window opens. *)
Fixpoint opens (minAlt maxAlt : Q) (prev : bool) (alts : list Q) : nat :=
  match alts with
  | [] => O
  | a :: t =>
      ((if within minAlt maxAlt a && negb prev then 1 else 0)
       + opens minAlt maxAlt (within minAlt maxAlt a) t)%nat
  end.

(** [start !== null] *)
Definition isOpen (start : option Q) : bool :=
  match start with Some _ => true | None => false end.

(** [q] is the minute of a sample of the series that is in range. *)
Definition inRangeMinute (series : list Photography.Sample)
    (minAlt maxAlt : Q) (q : Q) : Prop :=
  exists p, In p series /\ Photography.inRange minAlt maxAlt p = true /\
            Photography.minute p = q.

(** The window spans consecutive samples of the series, all in range, from
    the minute of the first to the minute of the last. *)
Definition isRun (series : list Photography.Sample) (minAlt maxAlt : Q)
    (w : Photography.SolarWindow) : Prop :=
  exists pre first more post,
    series = (pre ++ (first :: more) ++ post)%list /\
    Forall (fun p => Photography.inRange minAlt maxAlt p = true) (first :: more) /\
    Photography.start w = Photography.minute first /\
    Photography.end_ w = Photography.minute (last more first).

(** A lower bound that may be absent. *)
Definition above (b : option Q) (q : Q) : Prop :=
  match b with Some x => (x < q)%Q | None => True end.

(** Windows in increasing order after the bound [b]: each one starts
    after the previous one ended and does not end before it starts; its
    two ends satisfy [P]. *)
Fixpoint chain (P : Q -> Prop) (b : option Q) (ws : list Photography.SolarWindow)
    : Prop :=
  match ws with
  | [] => True
  | w :: t =>
      above b (Photography.start w) /\
      (Photography.start w <= Photography.end_ w)%Q /\
      P (Photography.start w) /\ P (Photography.end_ w) /\
      chain P (Some (Photography.end_ w)) t
  end.

(** A day sampled seven times: the sun rises from 10 degrees below the
    horizon to 20 degrees above it and sets again. *)
Definition sampleDay : list Photography.Sample :=
  [ {| Photography.minute := 0; Photography.altitude := -10 # 1 |};
    {| Photography.minute := 240; Photography.altitude := -3 # 1 |};
    {| Photography.minute := 480; Photography.altitude := 3 |};
    {| Photography.minute := 720; Photography.altitude := 20 |};
    {| Photography.minute := 960; Photography.altitude := 3 |};
    {| Photography.minute := 1200; Photography.altitude := -3 # 1 |};
    {| Photography.minute := 1440; Photography.altitude := -10 # 1 |} ]%Q.

(** A sample against a range of altitudes: below it, inside it (the
    test of line 34), above it. *)
Definition belowRange (minAlt : Q) (p : Photography.Sample) : Prop :=
  (Photography.altitude p < minAlt)%Q.

Definition insideRange (minAlt maxAlt : Q) (p : Photography.Sample) : Prop :=
  Photography.inRange minAlt maxAlt p = true.

Definition aboveRange (maxAlt : Q) (p : Photography.Sample) : Prop :=
  (maxAlt < Photography.altitude p)%Q.

(** The window of a run of samples: from the minute of the first to the
    minute of the last; no window for the empty run. *)
Definition spanOf (run : list Photography.Sample) : list Photography.SolarWindow :=
  match run with
  | [] => []
  | first :: more =>
      [ {| Photography.start := Photography.minute first;
           Photography.end_ := Photography.minute (last more first) |} ]
  end.

(** The samples of a day against a range, in the order of the series:
    samples below the range, a run inside it, samples above it, a second
    run inside it, samples below it; the windows are those of the two
    runs.  Without a sample above the range there is no second run; with
    one, the altitudes rise up to the end of the first run and fall from
    the start of the second run on. *)
Definition morningAndEvening (series : list Photography.Sample)
    (minAlt maxAlt : Q) (windows : list Photography.SolarWindow) : Prop :=
  exists before morning over evening after : list Photography.Sample,
    series = (before ++ morning ++ over ++ evening ++ after)%list /\
    Forall (belowRange minAlt) before /\
    Forall (insideRange minAlt maxAlt) morning /\
    Forall (aboveRange maxAlt) over /\
    Forall (insideRange minAlt maxAlt) evening /\
    Forall (belowRange minAlt) after /\
    (over = [] -> evening = []) /\
    (over <> [] ->
     increasing (map Photography.altitude (before ++ morning)) = true /\
     falling (map Photography.altitude (evening ++ after)) = true) /\
    windows = (spanOf morning ++ spanOf evening)%list.

End Spec.

(** ** Numbers as text: [Math.round], [toString] and [padStart] *)

Module JsFormat.
Local Open Scope string_scope.

(** [Number.MAX_SAFE_INTEGER]: up to it the integers are exact numbers. *)
Definition MAX_SAFE_INTEGER : Z := 2 ^ 53 - 1.

(** [Math.round(x)]: the nearest integer, a half going up. *)
Definition round (x : R) : Z := Zfloor (x + / 2)%R.

(** [n.toString()] for an integer below 10^21, where JavaScript switches
    to the exponent notation: the safe integers are all below. *)
Definition toString (n : Z) : string := NilZero.string_of_int (Z.to_int n).

Fixpoint repeatChar (n : nat) (c : ascii) : string :=
  match n with
  | O => EmptyString
  | S k => String c (repeatChar k c)
  end.

(** [s.padStart(targetLength, c)] for a one-character pad. *)
Definition padStart (targetLength : nat) (c : ascii) (s : string) : string :=
  repeatChar (targetLength - String.length s) c ++ s.

End JsFormat.

(** ** geo/time.ts: the formatters *)

Module TimeFormat.
Import JsFormat.
Local Open Scope string_scope.
Local Open Scope Z_scope.

Definition formatMinutes (totalMinutes : R) : string :=
  let minutes := round totalMinutes in
  let hours := minutes / 60 in
  let mins := Z.rem minutes 60 in
  padStart 2 "0" (toString hours) ++ ":" ++ padStart 2 "0" (toString mins).

(** [while (minutes < 0) { minutes += 1440; dayOffset -= 1 }], at most
    [fuel] turns. *)
Fixpoint whileNegative (fuel : nat) (minutes dayOffset : Z) : Z * Z :=
  match fuel with
  | O => (minutes, dayOffset)
  | S fuel' =>
      if minutes <? 0 then whileNegative fuel' (minutes + 1440) (dayOffset - 1)
      else (minutes, dayOffset)
  end.

(** [while (minutes >= 1440) { minutes -= 1440; dayOffset += 1 }], at most
    [fuel] turns. *)
Fixpoint whileBeyond (fuel : nat) (minutes dayOffset : Z) : Z * Z :=
  match fuel with
  | O => (minutes, dayOffset)
  | S fuel' =>
      if 1440 <=? minutes then whileBeyond fuel' (minutes - 1440) (dayOffset + 1)
      else (minutes, dayOffset)
  end.

(** The two loops of lines 31-38; neither runs more than
    |minutes| / 1440 + 1 times. *)
Definition wrapDay (minutes : Z) : Z * Z :=
  let fuel := Z.to_nat (Z.abs minutes / 1440 + 1) in
  let '(minutes1, dayOffset1) := whileNegative fuel minutes 0 in
  whileBeyond fuel minutes1 dayOffset1.

Definition formatTimeWithOffset (totalMinutes : R) : string :=
  let '(minutes, dayOffset) := wrapDay (round totalMinutes) in
  let hours := minutes / 60 in
  let mins := Z.rem minutes 60 in
  let base :=
    padStart 2 "0" (toString hours) ++ ":" ++ padStart 2 "0" (toString mins) in
  if dayOffset =? 0 then base
  else
    let sign := if 0 <? dayOffset then "+" else "" in
    base ++ " (" ++ sign ++ toString dayOffset ++ ")".

Definition formatDuration (totalMinutes : R) : string :=
  let minutes := Z.max 0 (round totalMinutes) in
  let hours := minutes / 60 in
  let mins := Z.rem minutes 60 in
  toString hours ++ "h " ++ toString mins ++ "m".

End TimeFormat.

(** ** geo/timezone.ts: the formatter *)

Module TimezoneFormat.
Import JsFormat.
Local Open Scope string_scope.
Local Open Scope Z_scope.

(** [totalMinutes] is an integer number of minutes. *)
Definition formatTimezoneOffset (totalMinutes : Z) : string :=
  let sign := if 0 <=? totalMinutes then "+" else "-" in
  let abs := Z.abs totalMinutes in
  let hours := abs / 60 in
  let minutes := Z.rem abs 60 in
  "UTC" ++ sign ++ padStart 2 "0" (toString hours) ++ ":"
        ++ padStart 2 "0" (toString minutes).

End TimezoneFormat.

(** ** App.tsx: the date helpers *)

Module App.
Import JsFormat.
Local Open Scope string_scope.
Local Open Scope Z_scope.

Record DateParts : Type := { year : Z; month : Z; day : Z }.

(** [None] is [null]. *)
Definition parseDateParts (dateString : string) : option DateParts :=
  let parts := JsString.split "-" dateString in
  let year := JsString.parseIntElement (nth_error parts 0) in
  let month := JsString.parseIntElement (nth_error parts 1) in
  let day := JsString.parseIntElement (nth_error parts 2) in
  match year, month, day with
  | JsString.Int year, JsString.Int month, JsString.Int day =>
      if (month <? 1) || (12 <? month) || (day <? 1) || (31 <? day) then None
      else Some {| year := year; month := month; day := day |}
  | _, _, _ => None
  end.

Definition toDateString (year month day : Z) : string :=
  toString year ++ "-" ++ padStart 2 "0" (toString month) ++ "-"
                ++ padStart 2 "0" (toString day).

End App.

(** ** components/ControlsPanel.tsx: the label of the time slider *)

Module Controls.
Import JsFormat.
Local Open Scope string_scope.
Local Open Scope Z_scope.

Definition minutesToLabel (minutes : R) : string :=
  let total := round minutes in
  let hours := total / 60 in
  let mins := Z.rem total 60 in
  padStart 2 "0" (toString hours) ++ ":" ++ padStart 2 "0" (toString mins).

End Controls.

(** ** components: the projections of the charts *)

Module Charts.
Import Utils.
Local Open Scope R_scope.

Definition SIZE : R := 440.
Definition RADIUS : R := 180.
Definition CENTER : R := SIZE / 2.

(** SunPathChart.tsx and YearOverviewChart.tsx, [polarToCartesian]. *)
Definition polarToCartesian (azimuth altitude : R) : R * R :=
  let clampedAlt := clamp altitude (-90) 90 in
  let r := ((90 - clampedAlt) / 90) * RADIUS in
  let rad := deg2rad azimuth in
  let x := CENTER + r * sin rad in
  let y := CENTER - r * cos rad in
  (x, y).

Definition SKY_RADIUS : R := 18.

(** ControlsPanel.tsx, [toVector]: the components of the [THREE.Vector3];
    [THREE.MathUtils.degToRad] multiplies by PI / 180. *)
Definition toVector (azimuth altitude radius : R) : R * R * R :=
  let altitudeRad := deg2rad altitude in
  let azimuthRad := deg2rad azimuth in
  let horizontal := radius * cos altitudeRad in
  let x := horizontal * sin azimuthRad in
  let y := radius * sin altitudeRad in
  let z := - horizontal * cos azimuthRad in
  (x, y, z).

End Charts.

(** ** The sun path: the sample curve and the segments of the sky view *)

Module SunPath.
Import Utils.
Local Open Scope R_scope.

Record SunPoint : Type := { azimuth : R; altitude : R }.

(** App.tsx, [buildDemoPath]: the points pushed for i = 0, ..., 180. *)
Definition buildDemoPath : list SunPoint :=
  map (fun i : nat =>
         let t := INR i / 180 in
         let azimuth := 60 + 240 * t in
         let altitude := 65 * sin (PI * t) - 6 in
         {| azimuth := azimuth; altitude := altitude |})
      (seq 0 181).

(** ControlsPanel.tsx, [buildSegmentGeometry]: the points handed to
    [setFromPoints], two for each pair of neighbours that both satisfy the
    predicate. *)
Fixpoint buildSegmentGeometry (path : list SunPoint) (predicate : R -> bool)
    (radius : R) : list (R * R * R) :=
  match path with
  | prev :: (next :: _) as rest =>
      (if negb (predicate (altitude prev)) || negb (predicate (altitude next))
       then []
       else [Charts.toVector (azimuth prev) (altitude prev) radius;
             Charts.toVector (azimuth next) (altitude next) radius])
      ++ buildSegmentGeometry rest predicate radius
  | _ => []
  end.

End SunPath.

(** ** Vocabulary of the further statements *)

Module Spec2.
Import SunriseSunset.
Local Open Scope R_scope.

(** A number moved by [d]; [null] and [NaN] stay. *)
Definition shiftValue (d : R) (v : value) : value :=
  match v with
  | Num r => Num (r + d)
  | other => other
  end.

(** The events with every time of day moved by [d] minutes. *)
Definition shiftEvents (d : R) (e : SunEventTimes) : SunEventTimes :=
  {| sunriseMinutes := shiftValue d (sunriseMinutes e);
     sunsetMinutes := shiftValue d (sunsetMinutes e);
     solarNoonMinutes := shiftValue d (solarNoonMinutes e);
     daylightMinutes := daylightMinutes e;
     status := status e |}.

(** The options that ask for the target altitude [a]. *)
Definition atAltitude (a : R) : SunEventOptions := {| sunAltitude := Some a |}.

End Spec2.

(** ** Vocabulary of the further statements on windows *)

Module Spec3.
Import Photography.
Local Open Scope Q_scope.

(** The minute [m] lies inside one of the windows. *)
Definition covered (ws : list SolarWindow) (m : Q) : Prop :=
  Exists (fun w => start w <= m /\ m <= end_ w) ws.

End Spec3.

(** ** Vocabulary of the further statements on text *)

Module Spec4.
Import JsFormat.
Local Open Scope string_scope.
Local Open Scope Z_scope.

(** The character of the digit [k]. *)
Definition digitChar (k : Z) : ascii := ascii_of_N (48 + Z.to_N k).

(** The two decimal digits of a number between 0 and 99. *)
Definition twoDigits (n : Z) : string :=
  String (digitChar (n / 10)) (String (digitChar (n mod 10)) "").

(** A time of day as hh:mm. *)
Definition clock (h m : Z) : string := twoDigits h ++ ":" ++ twoDigits m.

(** The day offset as formatTimeWithOffset writes it after the time. *)
Definition daySuffix (k : Z) : string :=
  if k =? 0 then ""
  else " (" ++ (if 0 <? k then "+" else "") ++ toString k ++ ")".

(** The integers from [lo], [len] of them. *)
Definition zrange (lo : Z) (len : nat) : list Z :=
  map (fun i => lo + Z.of_nat i) (seq 0 len).


(** Any character but the separator of a date. *)
Definition notDash (c : ascii) : bool := negb (Ascii.eqb c "-").

(** Equality of two results of [parseTimezoneOffset], as a test. *)
Definition resultEqb (a b : Timezone.TimezoneParseResult) : bool :=
  (Timezone.minutes a =? Timezone.minutes b)%Z &&
  Bool.eqb (Timezone.isValid a) (Timezone.isValid b).

End Spec4.

(* ################################################################# *)
(** * Part II: properties *)

(** ** The remainder operator *)

Section Remainder.
Local Open Scope R_scope.
Import JsNumber.

Variables a n : R.
Hypothesis n_pos : 0 < n.

Lemma quotient_times : a = n * (a / n).
Proof. field. lra. Qed.

Lemma quotient_shift : (a + n) / n = a / n + IZR 1.
Proof. field. lra. Qed.

Lemma quotient_nonneg : 0 <= a -> 0 <= a / n.
Proof.
  intros Ha. apply Rmult_le_pos; [exact Ha |].
  left. apply Rinv_0_lt_compat. exact n_pos.
Qed.

Lemma quotient_neg : a < 0 -> a / n < 0.
Proof.
  intros Ha. unfold Rdiv. rewrite <- (Rmult_0_l (/ n)).
  apply Rmult_lt_compat_r; [apply Rinv_0_lt_compat; exact n_pos | exact Ha].
Qed.

Lemma rem_nonneg_bounds : 0 <= a -> 0 <= rem a n < n.
Proof.
  intros Ha. unfold rem, trunc.
  pose proof (quotient_nonneg Ha) as Hq.
  destruct (Rlt_dec (a / n) 0) as [Hneg | _]; [lra |].
  pose proof (Zfloor_bound (a / n)) as [Hlo Hhi].
  pose proof quotient_times as Ha'.
  split.
  - apply Rmult_le_compat_l with (r := n) in Hlo; lra.
  - apply Rmult_lt_compat_l with (r := n) in Hhi; lra.
Qed.

Lemma rem_neg_bounds : a < 0 -> - n < rem a n <= 0.
Proof.
  intros Ha. unfold rem, trunc.
  pose proof (quotient_neg Ha) as Hq.
  destruct (Rlt_dec (a / n) 0) as [_ | Hpos]; [| lra].
  pose proof (Zceil_bound (a / n)) as [Hlo Hhi].
  pose proof quotient_times as Ha'.
  split.
  - apply Rmult_lt_compat_l with (r := n) in Hlo; lra.
  - apply Rmult_le_compat_l with (r := n) in Hhi; lra.
Qed.

Lemma rem_small : 0 <= a < n -> rem a n = a.
Proof.
  intros [Ha Han]. unfold rem, trunc.
  pose proof (quotient_nonneg Ha) as Hq.
  assert (Hq1 : a / n < 1).
  { apply Rmult_lt_reg_r with (r := n); [exact n_pos |].
    unfold Rdiv. rewrite Rmult_assoc, Rinv_l; lra. }
  destruct (Rlt_dec (a / n) 0) as [Hneg | _]; [lra |].
  rewrite (Zfloor_eq 0 (a / n)) by (simpl; lra). simpl. lra.
Qed.

Lemma rem_small_neg : - n < a < 0 -> rem a n = a.
Proof.
  intros [Han Ha]. unfold rem, trunc.
  pose proof (quotient_neg Ha) as Hq.
  assert (Hq1 : -1 < a / n).
  { apply Rmult_lt_reg_r with (r := n); [exact n_pos |].
    unfold Rdiv. rewrite Rmult_assoc, Rinv_l; lra. }
  destruct (Rlt_dec (a / n) 0) as [_ | Hpos]; [| lra].
  rewrite (Zceil_eq 0 (a / n)) by (simpl; lra). simpl. lra.
Qed.

Lemma rem_opposite : rem (- n) n = 0.
Proof.
  unfold rem, trunc.
  replace (- n / n) with (-1) by (field; lra).
  destruct (Rlt_dec (-1) 0) as [_ | Hpos]; [| lra].
  rewrite (Zceil_eq (-1) (-1)) by (simpl; lra). simpl. lra.
Qed.

(** Adding the modulus changes nothing when the sign is kept. *)
Lemma rem_shift_nonneg : 0 <= a -> rem (a + n) n = rem a n.
Proof.
  intros Ha. unfold rem, trunc.
  pose proof (quotient_nonneg Ha) as Hq.
  rewrite quotient_shift.
  destruct (Rlt_dec (a / n + IZR 1) 0) as [Hneg | _]; [simpl in Hneg; lra |].
  destruct (Rlt_dec (a / n) 0) as [Hneg | _]; [lra |].
  rewrite Zfloor_addz, plus_IZR. simpl. lra.
Qed.

Lemma rem_shift_neg : a + n < 0 -> rem (a + n) n = rem a n.
Proof.
  intros Ha. unfold rem, trunc.
  assert (Ha0 : a < 0) by lra.
  pose proof (quotient_neg Ha0) as Hq.
  assert (Hq1 : a / n + IZR 1 < 0).
  { rewrite <- quotient_shift. unfold Rdiv. rewrite <- (Rmult_0_l (/ n)).
    apply Rmult_lt_compat_r; [apply Rinv_0_lt_compat; exact n_pos | exact Ha]. }
  rewrite quotient_shift.
  destruct (Rlt_dec (a / n + IZR 1) 0) as [_ | Hpos]; [| lra].
  destruct (Rlt_dec (a / n) 0) as [_ | Hpos]; [| lra].
  rewrite Zceil_addz, plus_IZR. simpl. lra.
Qed.

End Remainder.

(** ** utils.ts *)

Section AngleMath.
Local Open Scope R_scope.
Import Utils.

Lemma normalizeDegrees_range (a : R) : 0 <= normalizeDegrees a < 360.
Proof.
  unfold normalizeDegrees.
  assert (H360 : 0 < 360) by lra.
  destruct (Rlt_dec a 0) as [Ha | Ha].
  - pose proof (rem_neg_bounds a 360 H360 Ha) as [Hlo Hhi].
    destruct (Rlt_dec (JsNumber.rem a 360) 0); lra.
  - assert (Ha' : 0 <= a) by lra.
    pose proof (rem_nonneg_bounds a 360 H360 Ha') as [Hlo Hhi].
    destruct (Rlt_dec (JsNumber.rem a 360) 0); lra.
Qed.

Lemma normalizeDegrees_period (a : R) :
  normalizeDegrees a = normalizeDegrees (a + 360).
Proof.
  unfold normalizeDegrees.
  assert (H360 : 0 < 360) by lra.
  destruct (Rle_dec 0 a) as [Ha | Ha].
  - rewrite (rem_shift_nonneg a 360 H360 Ha). reflexivity.
  - destruct (Rlt_dec (a + 360) 0) as [Hb | Hb].
    + rewrite (rem_shift_neg a 360 H360 Hb). reflexivity.
    + rewrite (rem_small (a + 360) 360 H360) by lra.
      destruct (Rlt_dec (a + 360) 0) as [Hc | _]; [lra |].
      destruct (Req_dec a (Ropp 360)) as [-> | Hne].
      * rewrite (rem_opposite 360 H360).
        destruct (Rlt_dec 0 0) as [Hc | _]; lra.
      * rewrite (rem_small_neg a 360 H360) by lra.
        destruct (Rlt_dec a 0) as [_ | Hc]; lra.
Qed.

Lemma normalizeDegrees_minus_10 : normalizeDegrees (-10) = 350.
Proof.
  unfold normalizeDegrees.
  assert (H360 : 0 < 360) by lra.
  rewrite (rem_small_neg (-10) 360 H360) by lra.
  destruct (Rlt_dec (-10) 0) as [_ | Hc]; lra.
Qed.

Lemma clamp_bounds (v lo hi : R) : lo <= hi -> lo <= clamp v lo hi <= hi.
Proof.
  intros Hle. unfold clamp, Rmin, Rmax.
  destruct (Rle_dec lo v); destruct (Rle_dec hi _); lra.
Qed.

Lemma clamp_inside (v lo hi : R) : lo <= v <= hi -> clamp v lo hi = v.
Proof.
  intros [Hlo Hhi]. unfold clamp, Rmin, Rmax.
  destruct (Rle_dec lo v); destruct (Rle_dec hi _); lra.
Qed.

(** In exact arithmetic, for every real angle [a], [normalizeDegrees a]
    lies in [0, 360), [normalizeDegrees a] and [normalizeDegrees (a + 360)]
    are equal, and [normalizeDegrees (-10)] is 350.  The binary64 function
    leaves the interval: see [AngleBinary64] below. *)
Lemma normalizeDegrees_spec :
  (forall a : R,
     0 <= normalizeDegrees a < 360 /\
     normalizeDegrees a = normalizeDegrees (a + 360)) /\
  normalizeDegrees (-10) = 350.
Proof.
  split.
  - intros a. split.
    + apply normalizeDegrees_range.
    + apply normalizeDegrees_period.
  - apply normalizeDegrees_minus_10.
Qed.

End AngleMath.

(** ** utils.ts in binary64 *)

Section AngleBinary64.
Import Floats.
Local Open Scope float_scope.

(** C8. In binary64 [normalizeDegrees] leaves [0, 360): for the number
    written -1e-15 the remainder is the number itself, it is negative,
    and adding 360 rounds to 360 exactly.  The same happens at the
    smallest negative number and at -2.84e-14, not at -2.85e-14; and -10
    gives 350 as the claim says. *)
Theorem normalizeDegrees_binary64_reaches_360 :
  Binary64.rem (-0x1.203af9ee75616p-50) 360 = -0x1.203af9ee75616p-50 /\
  Binary64.normalizeDegrees (-0x1.203af9ee75616p-50) = 360 /\
  (Binary64.normalizeDegrees (-0x1.203af9ee75616p-50) <? 360) = false /\
  Binary64.normalizeDegrees (-0x1p-1074) = 360 /\
  Binary64.normalizeDegrees (-0x1.ff9be207438cdp-46) = 360 /\
  (Binary64.normalizeDegrees (-0x1.00b48698608abp-45) <? 360) = true /\
  Binary64.normalizeDegrees (-10) = 350.
Proof.
  repeat split; vm_compute; reflexivity.
Qed.

End AngleBinary64.

(** ** solarPosition.ts *)

Section SolarPositionBounds.
Local Open Scope R_scope.
Import Utils SolarPosition.

Lemma rad2deg_PI : rad2deg PI = 180.
Proof. unfold rad2deg, RAD2DEG. field. apply PI_neq0. Qed.

Lemma rad2deg_monotone (x y : R) : x <= y -> rad2deg x <= rad2deg y.
Proof.
  intros Hxy. unfold rad2deg, RAD2DEG.
  apply Rmult_le_compat_r; [| exact Hxy].
  left. apply Rdiv_lt_0_compat; [lra | apply PI_RGT_0].
Qed.

Lemma rad2deg_acos_bounds (x : R) : 0 <= rad2deg (acos x) <= 180.
Proof.
  destruct (acos_bound x) as [Hlo Hhi].
  split.
  - replace 0 with (rad2deg 0) by (unfold rad2deg; ring).
    apply rad2deg_monotone. exact Hlo.
  - rewrite <- rad2deg_PI. apply rad2deg_monotone. exact Hhi.
Qed.

(** The altitude is 90 minus the arc cosine, in degrees, of the clamped
    cosine of the zenith angle. *)
Lemma altitude_clamped (latitude longitude : R) (dateUtc : Z) :
  exists cosZenith : R,
    altitude (solarPosition latitude longitude dateUtc) =
    90 - rad2deg (acos (clamp cosZenith (-1) 1)).
Proof.
  unfold solarPosition. cbv zeta. simpl altitude.
  eexists. reflexivity.
Qed.












End SolarPositionBounds.

(** ** Dates *)

Section Dates.
Local Open Scope R_scope.
Import JsDate.

Lemma trunc_IZR (z : Z) : JsNumber.trunc (IZR z) = z.
Proof.
  unfold JsNumber.trunc.
  destruct (Rlt_dec (IZR z) 0) as [_ | _].
  - unfold Zceil. rewrite ZfloorNZ. lia.
  - apply ZfloorZ.
Qed.

Lemma TimeClip_range (t t' : Z) :
  TimeClip t = Some t' -> t' = t /\ (Z.abs t <= maxTime)%Z.
Proof.
  unfold TimeClip. destruct (Z.leb_spec (Z.abs t) maxTime) as [Hle | Hgt].
  - intros [= <-]. split; [reflexivity | exact Hle].
  - discriminate.
Qed.

Lemma TimeClip_in_range (t : Z) :
  (Z.abs t <= maxTime)%Z -> TimeClip t = Some t.
Proof.
  intros Hle. unfold TimeClip.
  destruct (Z.leb_spec (Z.abs t) maxTime); [reflexivity | lia].
Qed.

Lemma ofNumber_IZR (t : Z) :
  (Z.abs t <= maxTime)%Z -> ofNumber (IZR t) = DateOf t.
Proof.
  intros Hle. unfold ofNumber.
  destruct (Rle_dec (Rabs (IZR t)) (IZR maxTime)) as [_ | Hout].
  - rewrite trunc_IZR. reflexivity.
  - exfalso. apply Hout. rewrite <- abs_IZR. apply IZR_le. exact Hle.
Qed.

(** A time value that [Date.UTC] returns makes a valid Date. *)
Lemma ofTime_UTC (y m d : Z) :
  ofTime (UTC y m d 0 0 0) =
  match UTC y m d 0 0 0 with Some t => DateOf t | None => InvalidDate end.
Proof.
  destruct (UTC y m d 0 0 0) as [t |] eqn:Hutc; [| reflexivity].
  unfold UTC in Hutc. apply TimeClip_range in Hutc as [-> Hle].
  unfold ofTime. rewrite (TimeClip_in_range _ Hle). reflexivity.
Qed.

Lemma UTC_range (y m d t : Z) :
  UTC y m d 0 0 0 = Some t -> (Z.abs t <= maxTime)%Z.
Proof.
  unfold UTC. intros Hutc. apply TimeClip_range in Hutc as [-> Hle]. exact Hle.
Qed.

(** The Julian century tells instants apart. *)
Lemma jc_injective (t1 t2 : Z) :
  Julian.jc (Julian.toJulianDate t1) = Julian.jc (Julian.toJulianDate t2) ->
  t1 = t2.
Proof.
  unfold Julian.toJulianDate. simpl. intros H.
  apply eq_IZR. lra.
Qed.

End Dates.

(** ** sunriseSunset.ts, twilight.ts and time.ts *)

Section SunEvents.
Local Open Scope R_scope.
Import JsDate Utils SolarPosition SunriseSunset.

Variables latitude longitude : R.
Variable dateString : string.
Variable tzOffsetMinutes : R.

(** The three components of the date, as every function of the engine
    reads them. *)
Lemma dateUtc_components :
  dateUtc dateString =
  match
    JsString.parseIntElement (nth_error (JsString.split "-" dateString) 0),
    JsString.parseIntElement (nth_error (JsString.split "-" dateString) 1),
    JsString.parseIntElement (nth_error (JsString.split "-" dateString) 2)
  with
  | JsString.Int y, JsString.Int m, JsString.Int d =>
      Some (match UTC y (m - 1) d 0 0 0 with
            | Some t => DateOf t
            | None => InvalidDate
            end)
  | _, _, _ => None
  end.
Proof.
  unfold dateUtc. cbv zeta.
  destruct (JsString.parseIntElement (nth_error _ 0)); try reflexivity.
  destruct (JsString.parseIntElement (nth_error _ 1)); try reflexivity.
  destruct (JsString.parseIntElement (nth_error _ 2)); try reflexivity.
  rewrite ofTime_UTC. reflexivity.
Qed.

(** [getUtcDateFromLocal] starts from the same [Date.UTC] value. *)
Lemma getUtcDateFromLocal_dateUtc (minutesLocal offsetMinutes : R) :
  GeoTime.getUtcDateFromLocal dateString minutesLocal offsetMinutes =
  match dateUtc dateString with
  | Some (DateOf baseUtc) =>
      Some (ofNumber (IZR baseUtc + (minutesLocal - offsetMinutes) * 60 * 1000))
  | _ => None
  end.
Proof.
  rewrite dateUtc_components. unfold GeoTime.getUtcDateFromLocal. cbv zeta.
  destruct (JsString.parseIntElement (nth_error _ 0)); try reflexivity.
  destruct (JsString.parseIntElement (nth_error _ 1)); try reflexivity.
  destruct (JsString.parseIntElement (nth_error _ 2)); try reflexivity.
  destruct (UTC _ _ _ 0 0 0); reflexivity.
Qed.

Lemma dateUtc_range (t : Z) :
  dateUtc dateString = Some (DateOf t) -> (Z.abs t <= maxTime)%Z.
Proof.
  rewrite dateUtc_components.
  destruct (JsString.parseIntElement (nth_error _ 0)); try discriminate.
  destruct (JsString.parseIntElement (nth_error _ 1)); try discriminate.
  destruct (JsString.parseIntElement (nth_error _ 2)); try discriminate.
  destruct (UTC _ _ _ 0 0 0) as [t' |] eqn:Hutc; [| discriminate].
  intros [= <-]. exact (UTC_range _ _ _ _ Hutc).
Qed.

(** UTC midnight of the civil date, as [getUtcDateFromLocal] computes it
    for local minute 0 and offset 0, is the [dateUtc] of [sunriseSunset]. *)
Lemma dateUtc_utc_midnight (t : Z) :
  dateUtc dateString = Some (DateOf t) ->
  GeoTime.getUtcDateFromLocal dateString 0 0 = Some (DateOf t).
Proof.
  intros Hd. rewrite getUtcDateFromLocal_dateUtc, Hd.
  replace (IZR t + (0 - 0) * 60 * 1000) with (IZR t) by ring.
  rewrite (ofNumber_IZR t (dateUtc_range t Hd)). reflexivity.
Qed.

(** C1, as amended. For a date that parses to the instant [t], [t] is UTC
    midnight of the civil date, and the declination and the equation of
    time from which [sunriseSunset] solves the events are
    [solarDeclinationAndEoT] at the Julian century of [t], whatever the
    timezone offset is: the offset only shifts the resulting minutes. *)
Theorem sunriseSunset_angles_at_utc_midnight (options : SunEventOptions) (t : Z) :
  dateUtc dateString = Some (DateOf t) ->
  GeoTime.getUtcDateFromLocal dateString 0 0 = Some (DateOf t) /\
  sunriseSunset latitude longitude dateString tzOffsetMinutes options =
  solveEvents latitude longitude tzOffsetMinutes options
    (solarDeclinationAndEoT (Julian.jc (Julian.toJulianDate t))).
Proof.
  intros Hd. split; [exact (dateUtc_utc_midnight t Hd) |].
  unfold sunriseSunset. rewrite Hd. reflexivity.
Qed.

(** C6. When one of the three components of the date is not a finite
    integer, [sunriseSunset] returns the result whose four numbers are
    null and whose status is normal. *)
Theorem sunriseSunset_unparseable (options : SunEventOptions) :
  JsString.isFinite
    (JsString.parseIntElement (nth_error (JsString.split "-" dateString) 0)) = false \/
  JsString.isFinite
    (JsString.parseIntElement (nth_error (JsString.split "-" dateString) 1)) = false \/
  JsString.isFinite
    (JsString.parseIntElement (nth_error (JsString.split "-" dateString) 2)) = false ->
  sunriseSunset latitude longitude dateString tzOffsetMinutes options =
  {| sunriseMinutes := Null; sunsetMinutes := Null;
     solarNoonMinutes := Null; daylightMinutes := Null;
     status := normal |}.
Proof.
  intros Hbad. unfold sunriseSunset. rewrite dateUtc_components.
  destruct (JsString.parseIntElement (nth_error _ 0)) as [| | | y];
    try reflexivity.
  destruct (JsString.parseIntElement (nth_error _ 1)) as [| | | m];
    try reflexivity.
  destruct (JsString.parseIntElement (nth_error _ 2)) as [| | | d];
    try reflexivity.
  simpl in Hbad. destruct Hbad as [H | [H | H]]; discriminate.
Qed.

(** C2. For a date that parses to a valid instant [t], the solar noon
    returned is 720 - 4 longitude - equation of time + timezone offset in
    every case; when the hour-angle cosine exceeds 1 the status is
    polar-night with null sunrise and sunset and 0 minutes of daylight;
    when it is below -1 the status is polar-day with null sunrise and
    sunset and 1440 minutes of daylight. *)
Theorem sunriseSunset_noon_and_polar (options : SunEventOptions) (t : Z) :
  dateUtc dateString = Some (DateOf t) ->
  forall sd cosH r,
    sd = solarDeclinationAndEoT (Julian.jc (Julian.toJulianDate t)) ->
    cosH = cosHourAngle (deg2rad latitude) (deg2rad (declinationOf sd))
                        (90 - targetAltitude options) ->
    r = sunriseSunset latitude longitude dateString tzOffsetMinutes options ->
    solarNoonMinutes r =
      Num (720 - 4 * longitude - equationOfTimeOf sd + tzOffsetMinutes) /\
    (cosH > 1 ->
       status r = polar_night /\ sunriseMinutes r = Null /\
       sunsetMinutes r = Null /\ daylightMinutes r = Num 0) /\
    (cosH < -1 ->
       status r = polar_day /\ sunriseMinutes r = Null /\
       sunsetMinutes r = Null /\ daylightMinutes r = Num 1440).
Proof.
  intros Hd sd cosH r -> -> ->.
  unfold sunriseSunset. rewrite Hd. cbv zeta.
  unfold solveEvents. cbv zeta.
  set (sd := solarDeclinationAndEoT _).
  set (cosH := cosHourAngle _ _ _).
  destruct (Rlt_dec 1 cosH) as [Hnight | Hnight].
  - simpl. repeat split; intros; try reflexivity; lra.
  - destruct (Rlt_dec cosH (-1)) as [Hday | Hday].
    + simpl. repeat split; intros; try reflexivity; lra.
    + simpl. repeat split; intros; try reflexivity; lra.
Qed.

End SunEvents.

Section TwilightReuse.
Local Open Scope R_scope.
Import JsDate Utils SolarPosition SunriseSunset.

Variables latitude longitude : R.
Variable dateString : string.
Variable tzOffsetMinutes : R.

(** A band is the sunrise and sunset of the solver at the band's altitude. *)
Lemma twilightBand_sunriseSunset (sunAltitude : R) :
  Twilight.twilightBand latitude longitude dateString tzOffsetMinutes sunAltitude =
  let r := sunriseSunset latitude longitude dateString tzOffsetMinutes
                         {| SunriseSunset.sunAltitude := Some sunAltitude |} in
  {| Twilight.start := sunriseMinutes r; Twilight.end_ := sunsetMinutes r |}.
Proof.
  cbv zeta. unfold sunriseSunset. rewrite dateUtc_components.
  unfold Twilight.twilightBand. cbv zeta.
  destruct (JsString.parseIntElement (nth_error _ 0)) as [| | | y];
    try reflexivity.
  destruct (JsString.parseIntElement (nth_error _ 1)) as [| | | m];
    try reflexivity.
  destruct (JsString.parseIntElement (nth_error _ 2)) as [| | | d];
    try reflexivity.
  rewrite ofTime_UTC.
  destruct (UTC y (m - 1) d 0 0 0) as [t |]; [| reflexivity].
  unfold solveEvents, cosHourAngle, targetAltitude. cbv zeta.
  simpl SunriseSunset.sunAltitude.
  destruct (Rlt_dec 1 _) as [Hnight | Hnight]; [reflexivity |].
  destruct (Rlt_dec _ (-1)) as [Hday | Hday]; reflexivity.
Qed.

(** C7. The civil, nautical and astronomical bands of [twilightTimes] are
    the (sunrise, sunset) pairs of [sunriseSunset] called with altitude
    -6, -12 and -18, null fields included. *)
Theorem twilightTimes_agrees_with_sunriseSunset :
  let tw := Twilight.twilightTimes latitude longitude dateString tzOffsetMinutes in
  let events a :=
    sunriseSunset latitude longitude dateString tzOffsetMinutes
                  {| SunriseSunset.sunAltitude := Some a |} in
  (Twilight.start (Twilight.civil tw) = sunriseMinutes (events (-6)) /\
   Twilight.end_ (Twilight.civil tw) = sunsetMinutes (events (-6))) /\
  (Twilight.start (Twilight.nautical tw) = sunriseMinutes (events (-12)) /\
   Twilight.end_ (Twilight.nautical tw) = sunsetMinutes (events (-12))) /\
  (Twilight.start (Twilight.astronomical tw) = sunriseMinutes (events (-18)) /\
   Twilight.end_ (Twilight.astronomical tw) = sunsetMinutes (events (-18))).
Proof.
  cbv zeta. unfold Twilight.twilightTimes.
  simpl Twilight.civil. simpl Twilight.nautical. simpl Twilight.astronomical.
  rewrite !twilightBand_sunriseSunset. cbv zeta.
  repeat split; reflexivity.
Qed.

End TwilightReuse.

(** ** timezone.ts *)

Lemma digit_cases (c : ascii) :
  JsString.isDigit c = true -> In c Spec.digitChars.
Proof.
  destruct c as [[] [] [] [] [] [] [] []]; intros H;
    try discriminate H; simpl; tauto.
Qed.

(** Enumerates a character known to be a digit. *)
Ltac each_digit H :=
  apply digit_cases in H; simpl in H;
  repeat (destruct H as [H | H]; [subst |]); [.. | contradiction].

Section TimezoneParser.
Import JsString Timezone Spec.
Local Open Scope string_scope.
Local Open Scope Z_scope.

Lemma parseInt_one_digit (a : ascii) :
  isDigit a = true ->
  exists h, parseInt (String a "") = Int h /\ 0 <= h <= 9.
Proof.
  intros Ha. each_digit Ha; eexists; (split; [cbv; reflexivity | lia]).
Qed.

Lemma parseInt_two_digits (a b : ascii) :
  isDigit a = true -> isDigit b = true ->
  exists h, parseInt (String a (String b "")) = Int h /\ 0 <= h <= 99.
Proof.
  intros Ha Hb. each_digit Ha; each_digit Hb;
    eexists; (split; [cbv; reflexivity | lia]).
Qed.

Lemma twoDigitsEnd_shape (s m : string) :
  twoDigitsEnd s = Some m ->
  exists c d, isDigit c = true /\ isDigit d = true /\
              s = String c (String d "") /\ m = s.
Proof.
  unfold twoDigitsEnd.
  destruct s as [| c [| d [| e s]]]; try discriminate.
  destruct (isDigit c) eqn:Hc; [| discriminate].
  destruct (isDigit d) eqn:Hd; [| discriminate].
  simpl. intros [= <-]. exists c, d. auto.
Qed.

Lemma matchMinutes_shape (rest : string) (m : option string) :
  matchMinutes rest = Some m ->
  (m = None /\ rest = "") \/
  (exists c d, isDigit c = true /\ isDigit d = true /\
               m = Some (String c (String d "")) /\
               (rest = String c (String d "") \/
                rest = String ":" (String c (String d "")))).
Proof.
  unfold matchMinutes.
  destruct (match rest with String ":"%char r => twoDigitsEnd r | _ => None end)
    as [mm |] eqn:Hcolon.
  - intros [= <-]. right.
    destruct rest as [| x r]; [discriminate |].
    destruct (Ascii.eqb_spec x ":"%char) as [-> | Hx].
    + apply twoDigitsEnd_shape in Hcolon as (c & d & Hc & Hd & -> & ->).
      exists c, d. auto.
    + exfalso.
      destruct x as [[] [] [] [] [] [] [] []]; try discriminate Hcolon.
      apply Hx. reflexivity.
  - destruct (twoDigitsEnd rest) as [mm |] eqn:Htwo.
    + intros [= <-]. right.
      apply twoDigitsEnd_shape in Htwo as (c & d & Hc & Hd & -> & ->).
      exists c, d. auto.
    + destruct rest; [| discriminate]. intros [= <-]. left. auto.
Qed.

Lemma matchHours_shape (s h : string) (m : option string) :
  matchHours s = Some (h, m) ->
  exists rest, matchMinutes rest = Some m /\
    ((exists a, isDigit a = true /\ h = String a "" /\ s = String a rest) \/
     (exists a b, isDigit a = true /\ isDigit b = true /\
                  h = String a (String b "") /\ s = String a (String b rest))).
Proof.
  unfold matchHours.
  destruct s as [| a t]; [discriminate |].
  destruct (isDigit a) eqn:Ha; [| discriminate].
  destruct (match t with
            | String b r =>
                if isDigit b
                then option_map (fun m => (String a (String b ""), m)) (matchMinutes r)
                else None
            | EmptyString => None
            end) as [g |] eqn:Htwo.
  - intros [= ->].
    destruct t as [| b r]; [discriminate |].
    destruct (isDigit b) eqn:Hb; [| discriminate].
    destruct (matchMinutes r) as [mm |] eqn:Hmin; [| discriminate].
    simpl in Htwo. injection Htwo as <- <-.
    exists r. split; [exact Hmin |]. right. exists a, b. auto.
  - destruct (matchMinutes t) as [mm |] eqn:Hmin; [| discriminate].
    simpl. intros [= <- <-].
    exists t. split; [exact Hmin |]. left. exists a. auto.
Qed.

Lemma TZ_PATTERN_shape (s h : string) (sg : option ascii) (m : option string) :
  TZ_PATTERN s = Some (sg, h, m) ->
  exists t, matchHours t = Some (h, m) /\
    ((sg = None /\ s = t) \/
     (exists c, (c = "+"%char \/ c = "-"%char) /\ sg = Some c /\ s = String c t)).
Proof.
  unfold TZ_PATTERN.
  destruct (match s with
            | String c t =>
                if (Ascii.eqb c "+" || Ascii.eqb c "-")%bool
                then option_map (fun '(h, m) => (Some c, h, m)) (matchHours t)
                else None
            | EmptyString => None
            end) as [g |] eqn:Hsigned.
  - intros [= ->].
    destruct s as [| c t]; [discriminate |].
    destruct (Ascii.eqb c "+" || Ascii.eqb c "-")%bool eqn:Hc; [| discriminate].
    destruct (matchHours t) as [[h' m'] |] eqn:Hh; [| discriminate].
    simpl in Hsigned. injection Hsigned as <- <- <-.
    exists t. split; [exact Hh |]. right. exists c. split; [| auto].
    apply orb_true_iff in Hc as [Hc | Hc]; apply Ascii.eqb_eq in Hc; auto.
  - destruct (matchHours s) as [[h' m'] |] eqn:Hh; [| discriminate].
    simpl. intros [= <- <- <-].
    exists s. split; [exact Hh |]. left. auto.
Qed.

Lemma TZ_PATTERN_groups (s h : string) (sg : option ascii) (m : option string) :
  TZ_PATTERN s = Some (sg, h, m) -> hoursGroup h /\ minutesGroup m.
Proof.
  intros Hm.
  apply TZ_PATTERN_shape in Hm as (t & Hh & _).
  apply matchHours_shape in Hh as (rest & Hmin & Hhours).
  split.
  - destruct Hhours as [(a & Ha & -> & _) | (a & b & Ha & Hb & -> & _)].
    + left. exists a. auto.
    + right. exists a, b. auto.
  - apply matchMinutes_shape in Hmin as [[-> _] | (c & d & Hc & Hd & -> & _)].
    + left. reflexivity.
    + right. exists c, d. auto.
Qed.

(** The groups of a match always parse to integers: hours in 0..99 and
    minutes in 0..99. *)
Lemma groups_parse (h : string) (m : option string) :
  hoursGroup h -> minutesGroup m ->
  exists hv mv,
    parseInt h = Int hv /\ 0 <= hv <= 99 /\
    parseInt (match m with Some x => x | None => "0" end) = Int mv /\
    0 <= mv <= 99.
Proof.
  intros Hh Hm.
  assert (Hhv : exists hv, parseInt h = Int hv /\ 0 <= hv <= 99).
  { destruct Hh as [(a & Ha & ->) | (a & b & Ha & Hb & ->)].
    - destruct (parseInt_one_digit a Ha) as (hv & Hp & Hr).
      exists hv. split; [exact Hp | lia].
    - exact (parseInt_two_digits a b Ha Hb). }
  assert (Hmv : exists mv,
             parseInt (match m with Some x => x | None => "0" end) = Int mv /\
             0 <= mv <= 99).
  { destruct Hm as [-> | (c & d & Hc & Hd & ->)].
    - exists 0. split; [reflexivity | lia].
    - exact (parseInt_two_digits c d Hc Hd). }
  destruct Hhv as (hv & Hph & Hrh). destruct Hmv as (mv & Hpm & Hrm).
  exists hv, mv. auto.
Qed.

End TimezoneParser.

Section TimezoneRange.
Import JsString Timezone Spec.
Local Open Scope string_scope.
Local Open Scope Z_scope.

Variable input : string.

(** The three steps of [parseTimezoneOffset] on the matched groups. *)
Lemma parseTimezoneOffset_cases :
  parseTimezoneOffset input = {| minutes := 0; isValid := false |} \/
  parseTimezoneOffset input = {| minutes := 0; isValid := true |} \/
  exists sg hs ms h m,
    TZ_PATTERN (removePrefix "GMT" (removePrefix "UTC" (toUpperCase (trim input))))
      = Some (sg, hs, ms) /\
    parseInt hs = Int h /\
    parseInt (match ms with Some x => x | None => "0" end) = Int m /\
    0 <= h <= 14 /\ 0 <= m <= 59 /\
    parseTimezoneOffset input =
      {| minutes :=
           (match sg with
            | Some c => if Ascii.eqb c "-" then -1 else 1
            | None => 1
            end) * (h * 60 + m);
         isValid := true |}.
Proof.
  unfold parseTimezoneOffset, fromMatch. cbv zeta.
  destruct (String.eqb _ ""); [left; reflexivity |].
  destruct (_ || _)%bool; [right; left; reflexivity |].
  destruct (TZ_PATTERN _) as [[[sg hs] ms] |] eqn:Hm; [| left; reflexivity].
  destruct (TZ_PATTERN_groups _ _ _ _ Hm) as [Hhg Hmg].
  destruct (groups_parse hs ms Hhg Hmg) as (h & m & Hph & Hrh & Hpm & Hrm).
  rewrite Hph, Hpm.
  destruct (Z.ltb_spec 14 h) as [Hh | Hh]; [left; reflexivity |].
  destruct (Z.leb_spec 60 m) as [Hmin | Hmin]; [left; reflexivity |].
  right. right. exists sg, hs, ms, h, m. simpl.
  repeat split; try assumption; lia.
Qed.

(** C5, as amended. When [parseTimezoneOffset] returns a valid result its
    minutes lie in [-899, 899]; an invalid result has minutes 0; and an
    input whose hours group exceeds 14 or whose minutes group is 60 or
    more is rejected with (0, false). *)
Theorem parseTimezoneOffset_bounds :
  (isValid (parseTimezoneOffset input) = true ->
   -899 <= minutes (parseTimezoneOffset input) <= 899) /\
  (isValid (parseTimezoneOffset input) = false ->
   minutes (parseTimezoneOffset input) = 0) /\
  (forall sg hs ms h m,
     TZ_PATTERN (removePrefix "GMT" (removePrefix "UTC" (toUpperCase (trim input))))
       = Some (sg, hs, ms) ->
     parseInt hs = Int h ->
     parseInt (match ms with Some x => x | None => "0" end) = Int m ->
     14 < h \/ 60 <= m ->
     parseTimezoneOffset input = {| minutes := 0; isValid := false |}).
Proof.
  split; [| split].
  - destruct parseTimezoneOffset_cases
      as [-> | [-> | (sg & hs & ms & h & m & _ & _ & _ & Hh & Hm & ->)]];
      simpl; try discriminate; try lia.
    intros _. destruct sg as [c |]; [destruct (Ascii.eqb c "-") |]; lia.
  - destruct parseTimezoneOffset_cases
      as [-> | [-> | (sg & hs & ms & h & m & _ & _ & _ & Hh & Hm & ->)]];
      simpl; try discriminate; reflexivity.
  - intros sg hs ms h m Hmatch Hph Hpm Hbig.
    unfold parseTimezoneOffset, fromMatch. cbv zeta.
    destruct (String.eqb _ ""); [reflexivity |].
    destruct (String.eqb_spec (toUpperCase (trim input)) "Z") as [Hz | _].
    { rewrite Hz in Hmatch. discriminate Hmatch. }
    destruct (String.eqb_spec (toUpperCase (trim input)) "UTC") as [Hz | _].
    { rewrite Hz in Hmatch. discriminate Hmatch. }
    destruct (String.eqb_spec (toUpperCase (trim input)) "GMT") as [Hz | _].
    { rewrite Hz in Hmatch. discriminate Hmatch. }
    simpl orb. rewrite Hmatch, Hph, Hpm.
    destruct (Z.ltb_spec 14 h) as [Hh | Hh]; [reflexivity |].
    destruct (Z.leb_spec 60 m) as [Hmin | Hmin]; [reflexivity |].
    lia.
Qed.

End TimezoneRange.

Section TimezoneGrammar.
Import JsString Timezone Spec.
Local Open Scope string_scope.
Local Open Scope Z_scope.

(** What the parser needs to know of a character of an offset. *)
Lemma offsetChar_facts (c : ascii) :
  offsetChar c = true ->
  isWhite c = false /\ upper c = c /\
  Ascii.eqb "U" c = false /\ Ascii.eqb "G" c = false /\
  Ascii.eqb c "Z" = false /\ Ascii.eqb c "U" = false /\
  Ascii.eqb c "G" = false.
Proof.
  destruct c as [[] [] [] [] [] [] [] []]; intros H;
    try discriminate H; repeat split; reflexivity.
Qed.

Lemma digit_offsetChar (c : ascii) : isDigit c = true -> offsetChar c = true.
Proof. intros H. unfold offsetChar. rewrite H. reflexivity. Qed.

Lemma digit_not_sign (c : ascii) :
  isDigit c = true ->
  (Ascii.eqb c "+" || Ascii.eqb c "-")%bool = false /\ Ascii.eqb c ":" = false.
Proof.
  destruct c as [[] [] [] [] [] [] [] []]; intros H;
    try discriminate H; split; reflexivity.
Qed.

Lemma trimEnd_offset (s : string) :
  allChars offsetChar s = true -> trimEnd s = s /\ toUpperCase s = s.
Proof.
  induction s as [| c t IH]; intros H; [split; reflexivity |].
  simpl in H. apply andb_true_iff in H as [Hc Ht].
  destruct (offsetChar_facts c Hc) as (Hw & Hu & _).
  destruct (IH Ht) as [IHt IHu].
  split.
  - simpl. rewrite IHt, Hw. destruct t; reflexivity.
  - simpl. rewrite Hu, IHu. reflexivity.
Qed.

(** An offset is left as it is by [trim], [toUpperCase] and the removal
    of the prefixes, and is none of the words the parser knows. *)
Lemma offset_raw (c : ascii) (t : string) :
  allChars offsetChar (String c t) = true ->
  toUpperCase (trim (String c t)) = String c t /\
  String.eqb (String c t) "Z" = false /\
  String.eqb (String c t) "UTC" = false /\
  String.eqb (String c t) "GMT" = false /\
  removePrefix "UTC" (String c t) = String c t /\
  removePrefix "GMT" (String c t) = String c t.
Proof.
  intros H. pose proof H as Hall.
  simpl in H. apply andb_true_iff in H as [Hc Ht].
  destruct (offsetChar_facts c Hc) as (Hw & Hu & HU & HG & HcZ & HcU & HcG).
  destruct (trimEnd_offset _ Hall) as [Htrim Hupper].
  repeat split.
  - unfold trim. simpl trimStart. rewrite Hw, Htrim. exact Hupper.
  - change (String.eqb (String c t) "Z")
      with (Ascii.eqb c "Z" && String.eqb t "")%bool.
    rewrite HcZ. reflexivity.
  - change (String.eqb (String c t) "UTC")
      with (Ascii.eqb c "U" && String.eqb t "TC")%bool.
    rewrite HcU. reflexivity.
  - change (String.eqb (String c t) "GMT")
      with (Ascii.eqb c "G" && String.eqb t "MT")%bool.
    rewrite HcG. reflexivity.
  - unfold removePrefix.
    change (stripPrefix "UTC" (String c t))
      with (if Ascii.eqb "U" c then stripPrefix "TC" t else None).
    rewrite HU. reflexivity.
  - unfold removePrefix.
    change (stripPrefix "GMT" (String c t))
      with (if Ascii.eqb "G" c then stripPrefix "MT" t else None).
    rewrite HG. reflexivity.
Qed.

(** On an offset the parser is the match of the pattern. *)
Lemma parseTimezoneOffset_offset (c : ascii) (t : string) :
  allChars offsetChar (String c t) = true ->
  parseTimezoneOffset (String c t) = fromMatch (TZ_PATTERN (String c t)).
Proof.
  intros Hall.
  destruct (offset_raw c t Hall) as (Hraw & HZ & HU & HG & HpU & HpG).
  unfold parseTimezoneOffset. cbv zeta. rewrite Hraw.
  change (String.eqb (String c t) "") with false. cbv iota.
  rewrite HZ, HU, HG. simpl orb. cbv iota.
  rewrite HpU, HpG. reflexivity.
Qed.

(** The same offset behind one of the two prefixes. *)
Lemma prefixed_raw (p1 p2 p3 c : ascii) (t : string) :
  allChars offsetChar (String c t) = true ->
  isWhite p1 = false -> upper p1 = p1 -> upper p2 = p2 -> upper p3 = p3 ->
  toUpperCase (trim (String p1 (String p2 (String p3 (String c t))))) =
  String p1 (String p2 (String p3 (String c t))).
Proof.
  intros Hall Hw H1 H2 H3.
  destruct (trimEnd_offset _ Hall) as [Htrim Hupper].
  unfold trim. simpl trimStart. rewrite Hw.
  change (trimEnd (String p1 (String p2 (String p3 (String c t)))))
    with (match
            match
              match trimEnd (String c t) with
              | "" => if isWhite p3 then "" else String p3 ""
              | t' => String p3 t'
              end
            with
            | "" => if isWhite p2 then "" else String p2 ""
            | t' => String p2 t'
            end
          with
          | "" => if isWhite p1 then "" else String p1 ""
          | t' => String p1 t'
          end).
  rewrite Htrim.
  change (toUpperCase (String p1 (String p2 (String p3 (String c t)))))
    with (String (upper p1) (String (upper p2) (String (upper p3)
            (toUpperCase (String c t))))).
  rewrite H1, H2, H3, Hupper. reflexivity.
Qed.

Lemma matchMinutes_chars (rest : string) (m : option string) :
  matchMinutes rest = Some m -> allChars offsetChar rest = true.
Proof.
  intros H.
  apply matchMinutes_shape in H
    as [[_ ->] | (c & d & Hc & Hd & _ & [-> | ->])]; simpl;
    rewrite ?(digit_offsetChar _ Hc), ?(digit_offsetChar _ Hd); reflexivity.
Qed.

Lemma TZ_PATTERN_chars (s : string) (g : Groups) :
  TZ_PATTERN s = Some g ->
  exists c t, s = String c t /\ allChars offsetChar s = true.
Proof.
  destruct g as [[sg h] m]. intros H.
  apply TZ_PATTERN_shape in H as (t & Hh & Hs).
  apply matchHours_shape in Hh as (rest & Hmin & Hhours).
  apply matchMinutes_chars in Hmin.
  assert (Ht : exists a t', t = String a t' /\ allChars offsetChar t = true).
  { destruct Hhours as [(a & Ha & _ & ->) | (a & b & Ha & Hb & _ & ->)].
    - exists a, rest. split; [reflexivity |].
      simpl. rewrite (digit_offsetChar _ Ha), Hmin. reflexivity.
    - exists a, (String b rest). split; [reflexivity |].
      simpl. rewrite (digit_offsetChar _ Ha), (digit_offsetChar _ Hb), Hmin.
      reflexivity. }
  destruct Ht as (a & t' & -> & Hall).
  destruct Hs as [[_ ->] | (c & Hc & _ & ->)].
  - exists a, t'. auto.
  - exists c, (String a t'). split; [reflexivity |].
    change (allChars offsetChar (String c (String a t')))
      with (offsetChar c && allChars offsetChar (String a t'))%bool.
    rewrite Hall. destruct Hc as [-> | ->]; reflexivity.
Qed.

(** A leading "UTC" or "GMT" before a numeric offset changes nothing. *)
Lemma parseTimezoneOffset_prefixed (s : string) (g : Groups) :
  TZ_PATTERN s = Some g ->
  parseTimezoneOffset ("UTC" ++ s) = parseTimezoneOffset s /\
  parseTimezoneOffset ("GMT" ++ s) = parseTimezoneOffset s.
Proof.
  intros Hm. destruct (TZ_PATTERN_chars s g Hm) as (c & t & -> & Hall).
  destruct (offset_raw c t Hall) as (Hraw & HZ & HU & HG & HpU & HpG).
  pose proof Hall as Hc. simpl in Hc. apply andb_true_iff in Hc as [Hc _].
  destruct (offsetChar_facts c Hc) as (_ & _ & HUc & HGc & _).
  pose proof (parseTimezoneOffset_offset c t Hall) as Hbare.
  split.
  - rewrite Hbare. unfold parseTimezoneOffset. cbv zeta.
    change ("UTC" ++ String c t) with (String "U" (String "T" (String "C" (String c t)))).
    rewrite (prefixed_raw "U" "T" "C" c t Hall) by reflexivity.
    change (String.eqb (String "U" (String "T" (String "C" (String c t)))) "")
      with false.
    change (String.eqb (String "U" (String "T" (String "C" (String c t)))) "Z")
      with false.
    change (String.eqb (String "U" (String "T" (String "C" (String c t)))) "UTC")
      with false.
    change (String.eqb (String "U" (String "T" (String "C" (String c t)))) "GMT")
      with false.
    simpl orb. cbv iota.
    change (removePrefix "UTC" (String "U" (String "T" (String "C" (String c t)))))
      with (String c t).
    rewrite HpG. reflexivity.
  - rewrite Hbare. unfold parseTimezoneOffset. cbv zeta.
    change ("GMT" ++ String c t) with (String "G" (String "M" (String "T" (String c t)))).
    rewrite (prefixed_raw "G" "M" "T" c t Hall) by reflexivity.
    change (String.eqb (String "G" (String "M" (String "T" (String c t)))) "")
      with false.
    change (String.eqb (String "G" (String "M" (String "T" (String c t)))) "Z")
      with false.
    change (String.eqb (String "G" (String "M" (String "T" (String c t)))) "UTC")
      with false.
    change (String.eqb (String "G" (String "M" (String "T" (String c t)))) "GMT")
      with false.
    simpl orb. cbv iota.
    change (removePrefix "UTC" (String "G" (String "M" (String "T" (String c t)))))
      with (String "G" (String "M" (String "T" (String c t)))).
    change (removePrefix "GMT" (String "G" (String "M" (String "T" (String c t)))))
      with (String c t).
    reflexivity.
Qed.

Lemma matchMinutes_two (c d : ascii) :
  isDigit c = true -> isDigit d = true ->
  matchMinutes (String c (String d "")) = Some (Some (String c (String d ""))).
Proof.
  intros Hc Hd. unfold matchMinutes, twoDigitsEnd.
  each_digit Hc; cbv beta iota; rewrite Hd; reflexivity.
Qed.

Lemma matchMinutes_colon (c d : ascii) :
  isDigit c = true -> isDigit d = true ->
  matchMinutes (String ":" (String c (String d ""))) =
  Some (Some (String c (String d ""))).
Proof.
  intros Hc Hd. unfold matchMinutes, twoDigitsEnd. cbv beta iota.
  rewrite Hc, Hd. reflexivity.
Qed.

Lemma matchMinutes_one (d : ascii) :
  isDigit d = true -> matchMinutes (String d "") = None.
Proof. intros Hd. each_digit Hd; reflexivity. Qed.

(** The hours and the minutes read from a compact and from a colon form. *)
Lemma matchHours_forms (h : string) (c d : ascii) :
  hoursGroup h -> isDigit c = true -> isDigit d = true ->
  matchHours (h ++ String c (String d "")) = Some (h, Some (String c (String d ""))) /\
  matchHours (h ++ String ":" (String c (String d ""))) =
    Some (h, Some (String c (String d ""))).
Proof.
  intros [(a & Ha & ->) | (a & b & Ha & Hb & ->)] Hc Hd.
  - split.
    + change (String a "" ++ String c (String d ""))
        with (String a (String c (String d ""))).
      unfold matchHours. rewrite Ha, Hc.
      rewrite (matchMinutes_one d Hd). cbv beta iota. unfold option_map at 1.
      rewrite (matchMinutes_two c d Hc Hd). reflexivity.
    + change (String a "" ++ String ":" (String c (String d "")))
        with (String a (String ":" (String c (String d "")))).
      unfold matchHours. rewrite Ha.
      change (isDigit ":") with false. cbv beta iota.
      rewrite (matchMinutes_colon c d Hc Hd). reflexivity.
  - split.
    + change (String a (String b "") ++ String c (String d ""))
        with (String a (String b (String c (String d "")))).
      unfold matchHours. rewrite Ha, Hb.
      rewrite (matchMinutes_two c d Hc Hd). reflexivity.
    + change (String a (String b "") ++ String ":" (String c (String d "")))
        with (String a (String b (String ":" (String c (String d ""))))).
      unfold matchHours. rewrite Ha, Hb.
      rewrite (matchMinutes_colon c d Hc Hd). reflexivity.
Qed.

Lemma hoursGroup_head (h rest : string) :
  hoursGroup h ->
  exists a t, h ++ rest = String a t /\ isDigit a = true.
Proof.
  intros [(a & Ha & ->) | (a & b & Ha & Hb & ->)].
  - exists a, rest. auto.
  - exists a, (String b rest). auto.
Qed.

Lemma TZ_PATTERN_signed (sg : option ascii) (t h : string) (m : option string) :
  sg = None \/ sg = Some "+"%char \/ sg = Some "-"%char ->
  (exists a t', t = String a t' /\ isDigit a = true) ->
  matchHours t = Some (h, m) ->
  TZ_PATTERN (signText sg ++ t) = Some (sg, h, m).
Proof.
  intros Hsg (a & t' & -> & Ha) Hh.
  destruct Hsg as [-> | [-> | ->]].
  - change (signText None ++ String a t') with (String a t').
    unfold TZ_PATTERN.
    rewrite (proj1 (digit_not_sign a Ha)), Hh. reflexivity.
  - change (signText (Some "+"%char) ++ String a t') with (String "+" (String a t')).
    unfold TZ_PATTERN. change (Ascii.eqb "+" "+" || Ascii.eqb "+" "-")%bool with true.
    cbv beta iota. rewrite Hh. reflexivity.
  - change (signText (Some "-"%char) ++ String a t') with (String "-" (String a t')).
    unfold TZ_PATTERN. change (Ascii.eqb "-" "+" || Ascii.eqb "-" "-")%bool with true.
    cbv beta iota. rewrite Hh. reflexivity.
Qed.

(** An offset written without a colon reads like the one with it. *)
Lemma parseTimezoneOffset_compact (sg : option ascii) (h : string) (c d : ascii) :
  sg = None \/ sg = Some "+"%char \/ sg = Some "-"%char ->
  hoursGroup h -> isDigit c = true -> isDigit d = true ->
  parseTimezoneOffset (signText sg ++ h ++ String c (String d "")) =
  parseTimezoneOffset (signText sg ++ h ++ String ":" (String c (String d ""))).
Proof.
  intros Hsg Hh Hc Hd.
  destruct (matchHours_forms h c d Hh Hc Hd) as [Hcompact Hcolon].
  pose proof (TZ_PATTERN_signed sg _ _ _ Hsg (hoursGroup_head h _ Hh) Hcompact)
    as Hp1.
  pose proof (TZ_PATTERN_signed sg _ _ _ Hsg (hoursGroup_head h _ Hh) Hcolon)
    as Hp2.
  destruct (TZ_PATTERN_chars _ _ Hp1) as (x1 & t1 & E1 & Hall1).
  destruct (TZ_PATTERN_chars _ _ Hp2) as (x2 & t2 & E2 & Hall2).
  rewrite E1 in Hall1, Hp1. rewrite E2 in Hall2, Hp2. rewrite E1, E2.
  rewrite (parseTimezoneOffset_offset x1 t1 Hall1).
  rewrite (parseTimezoneOffset_offset x2 t2 Hall2).
  rewrite Hp1, Hp2. reflexivity.
Qed.

End TimezoneGrammar.

Section TimezoneExamples.
Import JsString Timezone.
Local Open Scope string_scope.
Local Open Scope Z_scope.

(** C5, as stated, fails: fourteen hours and thirty minutes is accepted
    and is 870 minutes, above 840. *)
Lemma parseTimezoneOffset_above_840 :
  parseTimezoneOffset "+14:30" = {| minutes := 870; isValid := true |} /\
  ~ (-840 <= minutes (parseTimezoneOffset "+14:30") <= 840).
Proof.
  split; [reflexivity |].
  change (minutes (parseTimezoneOffset "+14:30")) with 870. lia.
Qed.

Lemma parseTimezoneOffset_bounds_witness :
  (isValid (parseTimezoneOffset "-1459") = true /\
   -899 <= minutes (parseTimezoneOffset "-1459") <= 899) /\
  (isValid (parseTimezoneOffset "8:5") = false /\
   minutes (parseTimezoneOffset "8:5") = 0) /\
  parseTimezoneOffset "+15:00" = {| minutes := 0; isValid := false |}.
Proof.
  split; [| split].
  - split; [reflexivity |].
    apply (proj1 (parseTimezoneOffset_bounds "-1459")). reflexivity.
  - split; [reflexivity |].
    apply (proj1 (proj2 (parseTimezoneOffset_bounds "8:5"))). reflexivity.
  - apply (proj2 (proj2 (parseTimezoneOffset_bounds "+15:00"))
             (Some "+"%char) "15" (Some "00") 15 0);
      [reflexivity | reflexivity | reflexivity | left; lia].
Defined.

(** C10. A leading "UTC" or "GMT" before a numeric offset and an offset
    without a colon are both accepted: "UTC+8" and "+0800" are 480
    minutes; in general a prefixed offset reads like the offset itself and
    a compact offset like the one with a colon. *)
Theorem parseTimezoneOffset_prefix_and_compact :
  parseTimezoneOffset "UTC+8" = {| minutes := 480; isValid := true |} /\
  parseTimezoneOffset "+0800" = {| minutes := 480; isValid := true |} /\
  parseTimezoneOffset "GMT-3:30" = {| minutes := -210; isValid := true |} /\
  (forall (s : string) (g : Groups),
     TZ_PATTERN s = Some g ->
     parseTimezoneOffset ("UTC" ++ s) = parseTimezoneOffset s /\
     parseTimezoneOffset ("GMT" ++ s) = parseTimezoneOffset s) /\
  (forall (sg : option ascii) (h : string) (c d : ascii),
     sg = None \/ sg = Some "+"%char \/ sg = Some "-"%char ->
     Spec.hoursGroup h -> isDigit c = true -> isDigit d = true ->
     parseTimezoneOffset (Spec.signText sg ++ h ++ String c (String d "")) =
     parseTimezoneOffset
       (Spec.signText sg ++ h ++ String ":" (String c (String d "")))).
Proof.
  split; [reflexivity |]. split; [reflexivity |]. split; [reflexivity |].
  split.
  - exact parseTimezoneOffset_prefixed.
  - exact parseTimezoneOffset_compact.
Qed.

Lemma parseTimezoneOffset_prefix_and_compact_witness :
  (TZ_PATTERN "+5:30" = Some (Some "+"%char, "5", Some "30") /\
   parseTimezoneOffset "UTC+5:30" = parseTimezoneOffset "+5:30" /\
   parseTimezoneOffset "GMT+5:30" = parseTimezoneOffset "+5:30") /\
  parseTimezoneOffset "-0930" = parseTimezoneOffset "-09:30".
Proof.
  split.
  - split; [reflexivity |].
    apply (proj1 (proj2 (proj2 (proj2 parseTimezoneOffset_prefix_and_compact)))
             "+5:30" (Some "+"%char, "5", Some "30")).
    reflexivity.
  - apply (proj2 (proj2 (proj2 (proj2 parseTimezoneOffset_prefix_and_compact)))
             (Some "-"%char) "09" "3"%char "0"%char).
    + right. right. reflexivity.
    + right. exists "0"%char, "9"%char. repeat split; reflexivity.
    + reflexivity.
    + reflexivity.
Defined.

End TimezoneExamples.

(** ** photography.ts *)

Section Rationals.
Import Spec.
Local Open Scope Q_scope.

Lemma Qltb_lt (x y : Q) : Qltb x y = true <-> x < y.
Proof.
  unfold Qltb. rewrite negb_true_iff. split.
  - intros H. apply Qnot_le_lt. intros Hle.
    apply Qle_bool_iff in Hle. congruence.
  - intros Hlt. destruct (Qle_bool y x) eqn:Hle; [| reflexivity].
    apply Qle_bool_iff in Hle. exfalso. exact (Qlt_not_le _ _ Hlt Hle).
Qed.

Lemma within_true (lo hi a : Q) : within lo hi a = true <-> lo <= a /\ a <= hi.
Proof.
  unfold within. rewrite andb_true_iff, !Qle_bool_iff. tauto.
Qed.

Lemma within_false (lo hi a : Q) : within lo hi a = false -> a < lo \/ hi < a.
Proof.
  unfold within. rewrite andb_false_iff. intros [H | H].
  - left. apply Qnot_le_lt. intros Hle. apply Qle_bool_iff in Hle. congruence.
  - right. apply Qnot_le_lt. intros Hle. apply Qle_bool_iff in Hle. congruence.
Qed.

Lemma below_not_within (lo hi a : Q) : a < lo -> within lo hi a = false.
Proof.
  intros Hlt. destruct (within lo hi a) eqn:Hw; [| reflexivity].
  apply within_true in Hw as [Hlo _]. exfalso. exact (Qlt_not_le _ _ Hlt Hlo).
Qed.

Lemma beyond_not_within (lo hi a : Q) : hi < a -> within lo hi a = false.
Proof.
  intros Hlt. destruct (within lo hi a) eqn:Hw; [| reflexivity].
  apply within_true in Hw as [_ Hhi]. exfalso. exact (Qlt_not_le _ _ Hlt Hhi).
Qed.

(** The head of an increasing list is below every later element. *)
Lemma increasing_head (a : Q) (l : list Q) :
  increasing (a :: l) = true -> Forall (fun x => a < x) l /\ increasing l = true.
Proof.
  revert a. induction l as [| b l IH]; intros a H.
  - split; [constructor | reflexivity].
  - simpl in H. apply andb_true_iff in H as [Hab Hl].
    apply Qltb_lt in Hab.
    destruct (IH b Hl) as [Hall _].
    split; [| exact Hl].
    constructor; [exact Hab |].
    eapply Forall_impl; [| exact Hall].
    intros x Hx. simpl in Hx. exact (Qlt_trans _ _ _ Hab Hx).
Qed.

Lemma falling_tail (a : Q) (l : list Q) :
  falling (a :: l) = true -> falling l = true.
Proof.
  destruct l as [| b l]; [reflexivity |].
  simpl. intros H. apply andb_true_iff in H as [_ H]. exact H.
Qed.

Lemma risesThenFalls_cases (a b : Q) (l : list Q) :
  risesThenFalls (a :: b :: l) = true ->
  (a < b /\ risesThenFalls (b :: l) = true) \/ falling (a :: b :: l) = true.
Proof.
  intros H. change (risesThenFalls (a :: b :: l))
    with (Qltb a b && risesThenFalls (b :: l) || falling (a :: b :: l))%bool in H.
  apply orb_true_iff in H as [H | H]; [left | right; exact H].
  apply andb_true_iff in H as [Hab Hl]. apply Qltb_lt in Hab. auto.
Qed.

Lemma falling_cases (a b : Q) (l : list Q) :
  falling (a :: b :: l) = true -> b < a /\ falling (b :: l) = true.
Proof.
  intros H. change (falling (a :: b :: l))
    with (Qltb b a && falling (b :: l))%bool in H.
  apply andb_true_iff in H as [Hab Hl]. apply Qltb_lt in Hab. auto.
Qed.

End Rationals.

Section WindowCount.
Import Spec.
Local Open Scope Q_scope.

Variables minAlt maxAlt : Q.

Lemma opens_step (prev : bool) (a : Q) (l : list Q) :
  opens minAlt maxAlt prev (a :: l) =
  ((if within minAlt maxAlt a && negb prev then 1 else 0) + opens minAlt maxAlt (within minAlt maxAlt a) l)%nat.
Proof. reflexivity. Qed.

(** Falling from below the range: nothing opens. *)
Lemma opens_falling_below (l : list Q) :
  forall a prev, falling (a :: l) = true -> a < minAlt ->
                 opens minAlt maxAlt prev (a :: l) = O.
Proof.
  induction l as [| b l IH]; intros a prev Hf Ha; rewrite opens_step;
    rewrite (below_not_within _ _ _ Ha); cbn [andb negb Nat.add].
  - reflexivity.
  - apply falling_cases in Hf as [Hba Hf].
    apply IH; [exact Hf | exact (Qlt_trans _ _ _ Hba Ha)].
Qed.

(** Falling from inside the range: nothing opens any more. *)
Lemma opens_falling_inside (l : list Q) :
  forall a, falling (a :: l) = true -> within minAlt maxAlt a = true ->
            opens minAlt maxAlt true l = O.
Proof.
  induction l as [| b l IH]; intros a Hf Ha; [reflexivity |].
  apply falling_cases in Hf as [Hba Hf].
  destruct (within minAlt maxAlt b) eqn:Hb.
  - rewrite opens_step, Hb. cbn [andb negb Nat.add]. exact (IH b Hf Hb).
  - apply within_false in Hb as [Hb | Hb].
    + exact (opens_falling_below l b true Hf Hb).
    + exfalso. apply within_true in Ha as [_ Ha].
      apply (Qlt_irrefl b).
      exact (Qlt_trans _ _ _ (Qlt_le_trans _ _ _ Hba Ha) Hb).
Qed.

(** On a falling list at most one window opens. *)
Lemma opens_falling (l : list Q) :
  forall prev, falling l = true -> (opens minAlt maxAlt prev l <= 1)%nat.
Proof.
  induction l as [| a l IH]; intros prev Hf; [cbn; lia |].
  rewrite opens_step. destruct (within minAlt maxAlt a) eqn:Ha.
  - rewrite (opens_falling_inside l a Hf Ha).
    destruct prev; cbn [andb negb Nat.add]; lia.
  - cbn [andb negb Nat.add]. apply IH. exact (falling_tail a l Hf).
Qed.

(** Rising from beyond the range: only the falling side can open one. *)
Lemma opens_from_beyond (l : list Q) :
  forall a prev, risesThenFalls (a :: l) = true -> maxAlt < a ->
                 (opens minAlt maxAlt prev (a :: l) <= 1)%nat.
Proof.
  induction l as [| b l IH]; intros a prev Hu Ha.
  - rewrite opens_step, (beyond_not_within _ _ _ Ha). cbn. lia.
  - apply risesThenFalls_cases in Hu as [[Hab Hu] | Hf].
    + rewrite opens_step, (beyond_not_within _ _ _ Ha). cbn [andb negb Nat.add].
      apply IH; [exact Hu | exact (Qlt_trans _ _ _ Ha Hab)].
    + apply opens_falling. exact Hf.
Qed.

(** Once inside the range on the way up, at most one more window opens. *)
Lemma opens_from_inside (l : list Q) :
  forall a, risesThenFalls (a :: l) = true -> within minAlt maxAlt a = true ->
            (opens minAlt maxAlt true l <= 1)%nat.
Proof.
  induction l as [| b l IH]; intros a Hu Ha; [cbn; lia |].
  apply risesThenFalls_cases in Hu as [[Hab Hu] | Hf].
  - destruct (within minAlt maxAlt b) eqn:Hb.
    + rewrite opens_step, Hb. cbn [andb negb Nat.add]. exact (IH b Hu Hb).
    + apply within_false in Hb as [Hb | Hb].
      * exfalso. apply within_true in Ha as [Ha _].
        apply (Qlt_irrefl b).
        exact (Qlt_le_trans _ _ _ Hb (Qle_trans _ _ _ Ha (Qlt_le_weak _ _ Hab))).
      * exact (opens_from_beyond l b true Hu Hb).
  - rewrite (opens_falling_inside (b :: l) a Hf Ha). lia.
Qed.

(** On a list that rises and then falls at most two windows open. *)
Lemma opens_risesThenFalls (l : list Q) :
  risesThenFalls l = true -> (opens minAlt maxAlt false l <= 2)%nat.
Proof.
  induction l as [| a l IH]; intros Hu; [cbn; lia |].
  destruct l as [| b l].
  - rewrite opens_step. cbn [andb negb Nat.add]. destruct (within minAlt maxAlt a); cbn; lia.
  - pose proof Hu as Hu'.
    apply risesThenFalls_cases in Hu as [[Hab Hu] | Hf].
    + rewrite opens_step. destruct (within minAlt maxAlt a) eqn:Ha.
      * pose proof (opens_from_inside (b :: l) a Hu' Ha). cbn [andb negb Nat.add]. lia.
      * cbn [andb negb Nat.add]. exact (IH Hu).
    + pose proof (opens_falling (a :: b :: l) false Hf). lia.
Qed.

End WindowCount.

Section WindowScan.
Import Spec Photography.
Local Open Scope Q_scope.

Variables minAlt maxAlt : Q.

(** The windows already pushed stay in front. *)
Lemma scan_windows (series : list Sample) :
  forall windows start lastMinute,
    scan minAlt maxAlt series windows start lastMinute =
    windows ++ scan minAlt maxAlt series [] start lastMinute.
Proof.
  induction series as [| point rest IH]; intros windows start lastMinute.
  - simpl. destruct start; [reflexivity | symmetry; apply app_nil_r].
  - simpl. destruct (inRange minAlt maxAlt point).
    + apply IH.
    + destruct start as [s |]; [| apply IH].
      rewrite IH. rewrite (IH [_]). rewrite <- app_assoc. reflexivity.
Qed.

(** The loop on a sample out of range with a window open. *)
Lemma scan_close (point : Sample) (rest : list Sample) (s : Q) (lastMinute : option Q) :
  inRange minAlt maxAlt point = false ->
  scan minAlt maxAlt (point :: rest) [] (Some s) lastMinute =
  {| start := s; end_ := orElse lastMinute s |}
    :: scan minAlt maxAlt rest [] None None.
Proof.
  intros Hout. simpl. rewrite Hout. rewrite scan_windows. reflexivity.
Qed.

(** The number of windows: one for the window that is open, one for each
    place where a window opens later. *)
Lemma scan_length (series : list Sample) :
  forall start lastMinute,
    List.length (scan minAlt maxAlt series [] start lastMinute) =
    ((if isOpen start then 1 else 0)
     + opens minAlt maxAlt (isOpen start) (map altitude series))%nat.
Proof.
  induction series as [| point rest IH]; intros start lastMinute.
  - simpl. destruct start; reflexivity.
  - destruct (inRange minAlt maxAlt point) eqn:Hin.
    + simpl scan. rewrite Hin. rewrite IH.
      simpl map. rewrite opens_step.
      change (within minAlt maxAlt (altitude point))
        with (inRange minAlt maxAlt point).
      rewrite Hin. destruct start; reflexivity.
    + simpl map. rewrite opens_step.
      change (within minAlt maxAlt (altitude point))
        with (inRange minAlt maxAlt point).
      rewrite Hin. destruct start as [s |].
      * rewrite (scan_close _ _ _ _ Hin). simpl List.length. rewrite IH. reflexivity.
      * simpl scan. rewrite Hin. rewrite IH. reflexivity.
Qed.

Lemma findWindows_length (series : list Sample) :
  List.length (findWindows series minAlt maxAlt) =
  opens minAlt maxAlt false (map altitude series).
Proof. unfold findWindows. rewrite scan_length. reflexivity. Qed.

(** Every window is a run of consecutive samples in range: [seen] is the
    part of the series already read, and the open window, if any, is the
    run at its end. *)
Lemma scan_runs (series rest : list Sample) :
  forall seen start lastMinute,
    series = seen ++ rest ->
    (forall s, start = Some s ->
       exists pre first more,
         seen = pre ++ first :: more /\
         Forall (fun p => inRange minAlt maxAlt p = true) (first :: more) /\
         s = minute first /\ lastMinute = Some (minute (last more first))) ->
    Forall (isRun series minAlt maxAlt)
           (scan minAlt maxAlt rest [] start lastMinute).
Proof.
  induction rest as [| point rest IH]; intros seen start lastMinute Hseries Hopen.
  - simpl. destruct start as [s |]; [| constructor].
    destruct (Hopen s eq_refl) as (pre & first & more & Hseen & Hall & Hs & Hl).
    constructor; [| constructor].
    exists pre, first, more, []. simpl.
    rewrite Hl. simpl. repeat split; try assumption.
    rewrite Hseries, Hseen, !app_nil_r. reflexivity.
  - assert (Hseries' : series = (seen ++ [point]) ++ rest)
      by (rewrite <- app_assoc; exact Hseries).
    destruct (inRange minAlt maxAlt point) eqn:Hin.
    + simpl scan. rewrite Hin.
      apply (IH (seen ++ [point])); [exact Hseries' |].
      intros s Hs. destruct start as [s0 |].
      * injection Hs as <-.
        destruct (Hopen s0 eq_refl)
          as (pre & first & more & Hseen & Hall & Hs0 & Hl).
        exists pre, first, (more ++ [point]).
        rewrite Hseen, <- app_assoc. simpl.
        rewrite last_last. repeat split; try assumption.
        change (first :: more ++ [point]) with ((first :: more) ++ [point]).
        apply Forall_app. split; [exact Hall | constructor; [exact Hin | constructor]].
      * injection Hs as <-.
        exists seen, point, []. simpl.
        repeat split. constructor; [exact Hin | constructor].
    + destruct start as [s |].
      * rewrite (scan_close _ _ _ _ Hin).
        destruct (Hopen s eq_refl) as (pre & first & more & Hseen & Hall & Hs & Hl).
        constructor.
        -- exists pre, first, more, (point :: rest). simpl.
           rewrite Hl. simpl. repeat split; try assumption.
           rewrite Hseries, Hseen, <- app_assoc. reflexivity.
        -- apply (IH (seen ++ [point])); [exact Hseries' | discriminate].
      * simpl scan. rewrite Hin.
        apply (IH (seen ++ [point])); [exact Hseries' | discriminate].
Qed.

Lemma findWindows_runs (series : list Sample) :
  Forall (isRun series minAlt maxAlt) (findWindows series minAlt maxAlt).
Proof.
  unfold findWindows.
  apply (scan_runs series series []); [reflexivity | discriminate].
Qed.

End WindowScan.

Section WindowOrder.
Import Spec Photography.
Local Open Scope Q_scope.

Variables minAlt maxAlt : Q.
Variable P : Q -> Prop.

Lemma above_trans (b : option Q) (x y : Q) : above b x -> x <= y -> above b y.
Proof.
  destruct b as [c |]; simpl; [| trivial].
  intros Hcx Hxy. exact (Qlt_le_trans _ _ _ Hcx Hxy).
Qed.

(** The invariant of the loop on a series sorted by minute: the open
    window starts after [b], does not end before it starts, and ends
    before every sample still to come. *)
Lemma scan_chain (rest : list Sample) :
  forall start lastMinute b,
    increasing (map minute rest) = true ->
    (forall p, In p rest -> inRange minAlt maxAlt p = true -> P (minute p)) ->
    match start with
    | None => Forall (fun p => above b (minute p)) rest
    | Some s =>
        above b s /\ P s /\
        exists e, lastMinute = Some e /\ P e /\ s <= e /\
                  Forall (fun p => e < minute p) rest
    end ->
    chain P b (scan minAlt maxAlt rest [] start lastMinute).
Proof.
  induction rest as [| point rest IH]; intros start lastMinute b Hinc HP Hst.
  - simpl. destruct start as [s |]; [| exact I].
    destruct Hst as (Hb & Hs & e & -> & He & Hse & _). simpl. auto.
  - simpl map in Hinc. apply increasing_head in Hinc as [Hlater Hinc].
    apply (proj1 (Forall_map _ _ _)) in Hlater.
    assert (HP' : forall p, In p rest -> inRange minAlt maxAlt p = true ->
                            P (minute p))
      by (intros p Hp; apply HP; right; exact Hp).
    destruct (inRange minAlt maxAlt point) eqn:Hin.
    + simpl scan. rewrite Hin.
      assert (Hpoint : P (minute point)) by (apply HP; [left; reflexivity | exact Hin]).
      apply IH; [exact Hinc | exact HP' |].
      destruct start as [s |].
      * destruct Hst as (Hb & Hs & e & -> & He & Hse & Hrest).
        apply Forall_inv in Hrest.
        split; [exact Hb |]. split; [exact Hs |].
        pose proof (Qle_trans _ _ _ Hse (Qlt_le_weak _ _ Hrest)) as Hsp.
        exists (minute point). repeat split; assumption.
      * apply Forall_inv in Hst.
        split; [exact Hst |]. split; [exact Hpoint |].
        pose proof (Qle_refl (minute point)) as Hpp.
        exists (minute point). repeat split; assumption.
    + destruct start as [s |].
      * rewrite (scan_close _ _ _ _ _ _ Hin).
        destruct Hst as (Hb & Hs & e & -> & He & Hse & Hrest).
        simpl. repeat split; try assumption.
        apply IH; [exact Hinc | exact HP' |].
        apply Forall_inv_tail in Hrest. exact Hrest.
      * simpl scan. rewrite Hin.
        apply IH; [exact Hinc | exact HP' |].
        apply Forall_inv_tail in Hst. exact Hst.
Qed.

Lemma chain_each (b : option Q) (ws : list SolarWindow) :
  chain P b ws ->
  Forall (fun w => start w <= end_ w /\ P (start w) /\ P (end_ w)) ws.
Proof.
  revert b. induction ws as [| w t IH]; intros b Hc; [constructor |].
  destruct Hc as (_ & Hle & Hs & He & Ht).
  constructor; [auto | exact (IH _ Ht)].
Qed.

Lemma chain_above (b : option Q) (ws : list SolarWindow) :
  chain P b ws -> Forall (fun w => above b (start w)) ws.
Proof.
  revert b. induction ws as [| w t IH]; intros b Hc; [constructor |].
  destruct Hc as (Hb & Hle & _ & _ & Ht).
  constructor; [exact Hb |].
  apply IH in Ht. eapply Forall_impl; [| exact Ht].
  intros w2 Hw2. simpl in Hw2.
  apply (above_trans b (end_ w)); [| exact (Qlt_le_weak _ _ Hw2)].
  exact (above_trans b _ _ Hb Hle).
Qed.

Lemma chain_sorted (b : option Q) (ws : list SolarWindow) :
  chain P b ws -> StronglySorted (fun w1 w2 => end_ w1 < start w2) ws.
Proof.
  revert b. induction ws as [| w t IH]; intros b Hc; [constructor |].
  destruct Hc as (_ & _ & _ & _ & Ht).
  constructor; [exact (IH _ Ht) |].
  exact (chain_above _ _ Ht).
Qed.

End WindowOrder.

Section WindowPhases.
Import Spec Photography.
Local Open Scope Q_scope.

Variables minAlt maxAlt : Q.

Lemma sample_cases (p : Sample) : belowRange minAlt p \/ insideRange minAlt maxAlt p \/ aboveRange maxAlt p.
Proof.
  unfold belowRange, insideRange, aboveRange.
  destruct (inRange minAlt maxAlt p) eqn:Hin; [right; left; reflexivity |].
  apply within_false in Hin. tauto.
Qed.

Lemma inside_bounds (p : Sample) :
  insideRange minAlt maxAlt p -> minAlt <= altitude p /\ altitude p <= maxAlt.
Proof. intros H. apply within_true. exact H. Qed.

Lemma below_out (p : Sample) : belowRange minAlt p -> inRange minAlt maxAlt p = false.
Proof. apply below_not_within. Qed.

Lemma beyond_out (p : Sample) : aboveRange maxAlt p -> inRange minAlt maxAlt p = false.
Proof. apply beyond_not_within. Qed.

Lemma falling_later (a : Q) (l : list Q) :
  falling (a :: l) = true -> Forall (fun b => b < a) l.
Proof.
  revert a. induction l as [| b t IH]; intros a H; [constructor |].
  apply falling_cases in H. destruct H as [Hab Ht].
  constructor; [exact Hab |].
  apply Forall_impl with (P := fun c => c < b).
  - intros c Hc. apply Qlt_trans with b; assumption.
  - apply IH. exact Ht.
Qed.

Lemma increasing_prefix (l1 l2 : list Q) :
  increasing (l1 ++ l2) = true -> increasing l1 = true.
Proof.
  induction l1 as [| a [| b t] IH]; intros H; try reflexivity.
  change (increasing ((a :: b :: t) ++ l2))
    with (Qltb a b && increasing ((b :: t) ++ l2))%bool in H.
  apply andb_true_iff in H as [Hab Ht].
  change (increasing (a :: b :: t)) with (Qltb a b && increasing (b :: t))%bool.
  rewrite Hab, (IH Ht). reflexivity.
Qed.

Lemma falling_suffix (l1 l2 : list Q) :
  falling (l1 ++ l2) = true -> falling l2 = true.
Proof.
  induction l1 as [| a t IH]; intros H; [exact H |].
  apply IH. exact (falling_tail _ _ H).
Qed.

(** A rising series passes below the range, through it and above it. *)
Lemma increasing_phases (l : list Sample) :
  increasing (map altitude l) = true ->
  exists A B C, l = (A ++ B ++ C)%list /\
    Forall (belowRange minAlt) A /\ Forall (insideRange minAlt maxAlt) B /\ Forall (aboveRange maxAlt) C.
Proof.
  induction l as [| p t IH]; intros H.
  - exists [], [], []. repeat split; constructor.
  - simpl map in H. apply increasing_head in H. destruct H as [Hlater Ht].
    rewrite Forall_map in Hlater.
    destruct (IH Ht) as (A & B & C & -> & HA & HB & HC).
    destruct (sample_cases p) as [Hp | [Hp | Hp]].
    + exists (p :: A), B, C. repeat split; try assumption.
      constructor; assumption.
    + destruct A as [| a A'].
      * exists [], (p :: B), C. repeat split; try assumption.
        constructor; assumption.
      * exfalso. inversion HA as [| ? ? Ha _]; subst.
        inversion Hlater as [| ? ? Hpa _]; subst.
        unfold belowRange in Ha. apply inside_bounds in Hp. destruct Hp as [Hlo _].
        apply (Qlt_irrefl minAlt).
        apply Qle_lt_trans with (altitude p); [exact Hlo |].
        apply Qlt_trans with (altitude a); assumption.
    + exists [], [], (p :: A ++ B ++ C)%list. repeat split; try constructor;
        try exact Hp.
      apply Forall_impl with (P := fun q => altitude p < altitude q);
        [| exact Hlater].
      intros q Hq. unfold aboveRange in *. apply Qlt_trans with (altitude p); assumption.
Qed.

(** A falling series passes above the range, through it and below it. *)
Lemma falling_phases (l : list Sample) :
  falling (map altitude l) = true ->
  exists C D E, l = (C ++ D ++ E)%list /\
    Forall (aboveRange maxAlt) C /\ Forall (insideRange minAlt maxAlt) D /\ Forall (belowRange minAlt) E.
Proof.
  induction l as [| p t IH]; intros H.
  - exists [], [], []. repeat split; constructor.
  - simpl map in H. pose proof (falling_later _ _ H) as Hlater.
    apply falling_tail in H.
    rewrite Forall_map in Hlater.
    destruct (IH H) as (C & D & E & -> & HC & HD & HE).
    destruct (sample_cases p) as [Hp | [Hp | Hp]].
    + exists [], [], (p :: C ++ D ++ E)%list. repeat split; try constructor;
        try exact Hp.
      apply Forall_impl with (P := fun q => altitude q < altitude p);
        [| exact Hlater].
      intros q Hq. unfold belowRange in *. apply Qlt_trans with (altitude p); assumption.
    + destruct C as [| c C'].
      * exists [], (p :: D), E. repeat split; try assumption.
        constructor; assumption.
      * exfalso. inversion HC as [| ? ? Hc _]; subst.
        inversion Hlater as [| ? ? Hcp _]; subst.
        unfold aboveRange in Hc. apply inside_bounds in Hp. destruct Hp as [_ Hhi].
        apply (Qlt_irrefl maxAlt).
        apply Qlt_le_trans with (altitude p); [| exact Hhi].
        apply Qlt_trans with (altitude c); assumption.
    + exists (p :: C), D, E. repeat split; try assumption.
      constructor; assumption.
Qed.

(** A series that rises to a maximum and falls is a rising series
    followed by a falling one. *)
Lemma risesThenFalls_split (l : list Sample) :
  risesThenFalls (map altitude l) = true ->
  exists up down, l = (up ++ down)%list /\
    increasing (map altitude up) = true /\ falling (map altitude down) = true.
Proof.
  induction l as [| p [| q t] IH]; intros H.
  - exists [], []. repeat split.
  - exists [], [p]. repeat split.
  - apply risesThenFalls_cases in H. destruct H as [[Hpq Hrest] | Hfall].
    + destruct (IH Hrest) as (up & down & Heq & Hup & Hdown).
      exists (p :: up), down. rewrite <- app_comm_cons, <- Heq.
      split; [reflexivity |]. split; [| exact Hdown].
      destruct up as [| u up']; [reflexivity |].
      simpl in Heq. injection Heq as <- _.
      change (increasing (map altitude (p :: q :: up')))
        with (Qltb (altitude p) (altitude q) && increasing (map altitude (q :: up')))%bool.
      rewrite Hup. rewrite (proj2 (Qltb_lt _ _) Hpq). reflexivity.
    + exists [], (p :: q :: t). repeat split. exact Hfall.
Qed.

(** Samples out of range with no window open leave the loop as it is. *)
Lemma findWindows_skip (out rest : list Sample) :
  Forall (fun p => inRange minAlt maxAlt p = false) out ->
  findWindows (out ++ rest) minAlt maxAlt = findWindows rest minAlt maxAlt.
Proof.
  unfold findWindows. induction out as [| p t IH]; intros H; [reflexivity |].
  inversion H as [| ? ? Hp Ht]; subst.
  simpl. rewrite Hp. apply IH. exact Ht.
Qed.

Lemma last_cons (p x : Sample) (l : list Sample) : last (p :: l) x = last l p.
Proof.
  revert p x. induction l as [| q t IH]; intros p x; [reflexivity |].
  change (last (p :: q :: t) x) with (last (q :: t) x).
  rewrite (IH q x), (IH q p). reflexivity.
Qed.

(** The loop through samples in range with a window open. *)
Lemma scan_inside (more rest : list Sample) :
  forall (s : Q) (x : Sample),
    Forall (insideRange minAlt maxAlt) more ->
    scan minAlt maxAlt (more ++ rest) [] (Some s) (Some (minute x)) =
    scan minAlt maxAlt rest [] (Some s) (Some (minute (last more x))).
Proof.
  induction more as [| p t IH]; intros s x H; [reflexivity |].
  inversion H as [| ? ? Hp Ht]; subst. unfold insideRange in Hp.
  rewrite (last_cons p x t). cbn [app scan]. rewrite Hp. apply (IH s p Ht).
Qed.

(** A run in range followed by samples out of range, to the end of the
    series: the window of the run. *)
Lemma findWindows_last_run (run out : list Sample) :
  Forall (insideRange minAlt maxAlt) run ->
  Forall (fun p => inRange minAlt maxAlt p = false) out ->
  findWindows (run ++ out) minAlt maxAlt = spanOf run.
Proof.
  intros Hrun Hout. destruct run as [| first more].
  - simpl app. rewrite <- (app_nil_r out). rewrite findWindows_skip by exact Hout.
    reflexivity.
  - inversion Hrun as [| ? ? Hfirst Hmore]; subst. unfold insideRange in Hfirst.
    unfold findWindows. simpl app. simpl scan. rewrite Hfirst.
    rewrite (scan_inside more out (minute first) first Hmore).
    destruct out as [| o out'].
    + reflexivity.
    + inversion Hout as [| ? ? Ho Hout']; subst.
      rewrite (scan_close minAlt maxAlt o out' _ _ Ho).
      fold (findWindows out' minAlt maxAlt).
      rewrite <- (app_nil_r out'). rewrite findWindows_skip by exact Hout'.
      reflexivity.
Qed.

(** A run in range closed by samples out of range, with more to come. *)
Lemma findWindows_run (run out rest : list Sample) (o : Sample) :
  Forall (insideRange minAlt maxAlt) run ->
  Forall (fun p => inRange minAlt maxAlt p = false) (o :: out) ->
  findWindows (run ++ (o :: out) ++ rest) minAlt maxAlt =
  (spanOf run ++ findWindows rest minAlt maxAlt)%list.
Proof.
  intros Hrun Hout. destruct run as [| first more].
  - change (([] ++ (o :: out) ++ rest)%list) with (((o :: out) ++ rest)%list).
    rewrite findWindows_skip by exact Hout. reflexivity.
  - inversion Hrun as [| ? ? Hfirst Hmore]; subst. unfold insideRange in Hfirst.
    inversion Hout as [| ? ? Ho Hout']; subst.
    unfold findWindows. simpl app. simpl scan. rewrite Hfirst.
    rewrite (scan_inside more (o :: out ++ rest) (minute first) first Hmore).
    rewrite (scan_close minAlt maxAlt o (out ++ rest) _ _ Ho).
    fold (findWindows (out ++ rest) minAlt maxAlt).
    rewrite findWindows_skip by exact Hout'. reflexivity.
Qed.

(** The windows of a series in five phases. *)
Lemma findWindows_phases (A B C D E : list Sample) :
  Forall (belowRange minAlt) A -> Forall (insideRange minAlt maxAlt) B -> Forall (aboveRange maxAlt) C ->
  Forall (insideRange minAlt maxAlt) D -> Forall (belowRange minAlt) E ->
  (C = [] -> D = []) ->
  findWindows (A ++ B ++ C ++ D ++ E) minAlt maxAlt = (spanOf B ++ spanOf D)%list.
Proof.
  intros HA HB HC HD HE Hnone.
  assert (HAout : Forall (fun p => inRange minAlt maxAlt p = false) A)
    by (apply Forall_impl with (2 := HA); exact below_out).
  assert (HCout : Forall (fun p => inRange minAlt maxAlt p = false) C)
    by (apply Forall_impl with (2 := HC); exact beyond_out).
  assert (HEout : Forall (fun p => inRange minAlt maxAlt p = false) E)
    by (apply Forall_impl with (2 := HE); exact below_out).
  rewrite findWindows_skip by exact HAout.
  destruct C as [| c C'].
  - rewrite (Hnone eq_refl). simpl app. rewrite app_nil_r.
    simpl app. apply findWindows_last_run; assumption.
  - rewrite (findWindows_run B C' (D ++ E) c HB HCout).
    rewrite (findWindows_last_run D E HD HEout). reflexivity.
Qed.

(** On a series that rises to a maximum and falls, the windows are those
    of a morning run and of an evening run. *)
Lemma findWindows_morningAndEvening (series : list Sample) :
  risesThenFalls (map altitude series) = true ->
  morningAndEvening series minAlt maxAlt (findWindows series minAlt maxAlt).
Proof.
  intros H.
  destruct (risesThenFalls_split series H) as (up & down & -> & Hup & Hdown).
  destruct (increasing_phases up Hup) as (A & B & C1 & -> & HA & HB & HC1).
  destruct (falling_phases down Hdown) as (C2 & D & E & -> & HC2 & HD & HE).
  destruct (C1 ++ C2)%list as [| c C'] eqn:HC.
  - apply app_eq_nil in HC. destruct HC as [-> ->].
    exists A, (B ++ D)%list, [], [], E.
    assert (HBD : Forall (insideRange minAlt maxAlt) (B ++ D)) by (apply Forall_app; split; assumption).
    split; [simpl; rewrite !app_nil_r, <- !app_assoc; reflexivity |].
    repeat split; try assumption; try constructor; try contradiction.
    replace ((A ++ B ++ []) ++ [] ++ D ++ E)%list
      with (A ++ (B ++ D) ++ [] ++ [] ++ E)%list
      by (simpl; rewrite !app_nil_r, <- !app_assoc; reflexivity).
    rewrite (findWindows_phases A (B ++ D) [] [] E); try assumption;
      try constructor; try reflexivity.
  - exists A, B, (C1 ++ C2)%list, D, E.
    assert (HCs : Forall (aboveRange maxAlt) (C1 ++ C2)) by (apply Forall_app; split; assumption).
    split; [rewrite <- !app_assoc; reflexivity |].
    split; [exact HA |]. split; [exact HB |]. split; [exact HCs |].
    split; [exact HD |]. split; [exact HE |].
    split; [rewrite HC; discriminate |].
    split.
    + intros _. split.
      * rewrite app_assoc, map_app in Hup. exact (increasing_prefix _ _ Hup).
      * rewrite map_app in Hdown. exact (falling_suffix _ _ Hdown).
    + replace ((A ++ B ++ C1) ++ C2 ++ D ++ E)%list
        with (A ++ B ++ (C1 ++ C2) ++ D ++ E)%list
        by (rewrite <- !app_assoc; reflexivity).
      apply findWindows_phases; try assumption.
      rewrite HC. discriminate.
Qed.

End WindowPhases.

Section WindowProperties.
Import Spec Photography.
Local Open Scope Q_scope.

(** C9. For a series sorted strictly by minute and any range, every
    window of [findWindows] has start <= end, its start and its end are
    minutes of samples in range, and the windows are listed in increasing
    order, each ending before every later one starts: they are pairwise
    disjoint. *)
Theorem findWindows_ordered_disjoint (series : list Sample) (minAlt maxAlt : Q) :
  increasing (map minute series) = true ->
  Forall (fun w => start w <= end_ w /\
                   inRangeMinute series minAlt maxAlt (start w) /\
                   inRangeMinute series minAlt maxAlt (end_ w))
         (findWindows series minAlt maxAlt) /\
  StronglySorted (fun w1 w2 => end_ w1 < start w2)
                 (findWindows series minAlt maxAlt).
Proof.
  intros Hinc.
  assert (Hchain : chain (inRangeMinute series minAlt maxAlt) None
                         (findWindows series minAlt maxAlt)).
  { unfold findWindows. apply scan_chain.
    - exact Hinc.
    - intros p Hp Hin. exists p. auto.
    - apply Forall_forall. intros p _. exact I. }
  split.
  - exact (chain_each _ _ _ Hchain).
  - exact (chain_sorted _ _ _ Hchain).
Qed.

(** C4, as amended. On a series whose altitudes rise to a single maximum
    and then fall, the samples in the golden range are one run of
    consecutive samples, or two runs separated by samples above the
    range, the first where the altitudes rise and the second where they
    fall, and [computePhotoWindows] with the default ranges returns
    exactly the windows of these runs, each from the minute of the first
    sample of the run to the minute of the last: at most two golden
    windows, none only when no sample is in range.  The same holds of the
    blue range and the blue windows. *)
Theorem computePhotoWindows_at_most_two (series : list Sample) :
  risesThenFalls (map altitude series) = true ->
  morningAndEvening series 0 6 (golden (computePhotoWindows series None None)) /\
  morningAndEvening series (-6 # 1) 0
                    (blue (computePhotoWindows series None None)) /\
  (List.length (golden (computePhotoWindows series None None)) <= 2)%nat /\
  (List.length (blue (computePhotoWindows series None None)) <= 2)%nat /\
  Forall (isRun series 0 6) (golden (computePhotoWindows series None None)) /\
  Forall (isRun series (-6 # 1) 0) (blue (computePhotoWindows series None None)).
Proof.
  intros Hu. unfold computePhotoWindows. cbv zeta. simpl golden. simpl blue.
  simpl fst. simpl snd.
  split; [| split; [| split; [| split; [| split]]]].
  - apply findWindows_morningAndEvening. exact Hu.
  - apply findWindows_morningAndEvening. exact Hu.
  - rewrite findWindows_length. apply opens_risesThenFalls. exact Hu.
  - rewrite findWindows_length. apply opens_risesThenFalls. exact Hu.
  - apply findWindows_runs.
  - apply findWindows_runs.
Qed.

(** C4, as stated, fails: on a day that rises and falls the golden range
    and the blue range are each crossed twice. *)
Lemma computePhotoWindows_morning_and_evening :
  increasing (map minute sampleDay) = true /\
  risesThenFalls (map altitude sampleDay) = true /\
  computePhotoWindows sampleDay None None =
    {| golden := [ {| start := 480; end_ := 480 |};
                   {| start := 960; end_ := 960 |} ];
       blue := [ {| start := 240; end_ := 240 |};
                 {| start := 1200; end_ := 1200 |} ] |} /\
  List.length (golden (computePhotoWindows sampleDay None None)) <> 1%nat /\
  List.length (blue (computePhotoWindows sampleDay None None)) <> 1%nat.
Proof.
  repeat split; try reflexivity; vm_compute; discriminate.
Qed.

Lemma computePhotoWindows_at_most_two_witness :
  risesThenFalls (map altitude sampleDay) = true /\
  morningAndEvening sampleDay 0 6
                    (golden (computePhotoWindows sampleDay None None)) /\
  morningAndEvening sampleDay (-6 # 1) 0
                    (blue (computePhotoWindows sampleDay None None)) /\
  (List.length (golden (computePhotoWindows sampleDay None None)) <= 2)%nat /\
  (List.length (blue (computePhotoWindows sampleDay None None)) <= 2)%nat /\
  Forall (isRun sampleDay 0 6) (golden (computePhotoWindows sampleDay None None)) /\
  Forall (isRun sampleDay (-6 # 1) 0) (blue (computePhotoWindows sampleDay None None)).
Proof.
  split; [reflexivity |].
  apply (computePhotoWindows_at_most_two sampleDay). reflexivity.
Defined.

Lemma findWindows_ordered_disjoint_witness :
  increasing (map minute sampleDay) = true /\
  Forall (fun w => start w <= end_ w /\
                   inRangeMinute sampleDay 0 6 (start w) /\
                   inRangeMinute sampleDay 0 6 (end_ w))
         (findWindows sampleDay 0 6) /\
  StronglySorted (fun w1 w2 => end_ w1 < start w2) (findWindows sampleDay 0 6).
Proof.
  split; [reflexivity |].
  apply (findWindows_ordered_disjoint sampleDay 0 6). reflexivity.
Defined.

End WindowProperties.

(** ** The model on known values *)

Section KnownValues.
Local Open Scope string_scope.

(** The epoch, J2000.0, a day of 2024, a two-digit year (read as 19xx),
    the last instant of the range of [Date] and the first day after it. *)
Lemma Date_UTC_known :
  JsDate.UTC 1970 0 1 0 0 0 = Some 0%Z /\
  JsDate.UTC 2000 0 1 12 0 0 = Some 946728000000%Z /\
  JsDate.UTC 2024 5 21 0 0 0 = Some 1718928000000%Z /\
  JsDate.UTC 99 0 1 0 0 0 = Some 915148800000%Z /\
  JsDate.UTC 275760 8 13 0 0 0 = Some 8640000000000000%Z /\
  JsDate.UTC 275760 8 14 0 0 0 = None.
Proof. repeat split; vm_compute; reflexivity. Qed.

(** Noon of 1 January 2000 is Julian day 2451545, Julian century 0. *)
Lemma toJulianDate_J2000 :
  Julian.jd (Julian.toJulianDate 946728000000) = 2451545%R /\
  Julian.jc (Julian.toJulianDate 946728000000) = 0%R.
Proof. unfold Julian.toJulianDate. simpl. split; lra. Qed.

(** The examples of the specification for the timezone parser. *)
Lemma parseTimezoneOffset_known :
  Timezone.parseTimezoneOffset "+08:00"
    = {| Timezone.minutes := 480; Timezone.isValid := true |} /\
  Timezone.parseTimezoneOffset "UTC"
    = {| Timezone.minutes := 0; Timezone.isValid := true |} /\
  Timezone.parseTimezoneOffset "+15:00"
    = {| Timezone.minutes := 0; Timezone.isValid := false |} /\
  Timezone.parseTimezoneOffset ""
    = {| Timezone.minutes := 0; Timezone.isValid := false |}.
Proof. repeat split; reflexivity. Qed.

(** A date beyond the range of [Date] parses, and every number of the
    result is NaN. *)
Lemma sunriseSunset_beyond_range :
  SunriseSunset.sunriseSunset 0 0 "275760-09-14" 0 SunriseSunset.noOptions =
  {| SunriseSunset.sunriseMinutes := SunriseSunset.NotANumber;
     SunriseSunset.sunsetMinutes := SunriseSunset.NotANumber;
     SunriseSunset.solarNoonMinutes := SunriseSunset.NotANumber;
     SunriseSunset.daylightMinutes := SunriseSunset.NotANumber;
     SunriseSunset.status := SunriseSunset.normal |}.
Proof.
  unfold SunriseSunset.sunriseSunset.
  replace (SunriseSunset.dateUtc "275760-09-14") with (Some JsDate.InvalidDate)
    by (vm_compute; reflexivity).
  reflexivity.
Qed.

End KnownValues.

(** ** Examples on 21 June 2024 *)

Section SunEventExamples.
Local Open Scope R_scope.
Local Open Scope string_scope.
Import JsDate Utils SolarPosition SunriseSunset.

Lemma dateUtc_solstice :
  dateUtc "2024-06-21" = Some (DateOf 1718928000000).
Proof. vm_compute. reflexivity. Qed.

Lemma local_midnight_solstice :
  GeoTime.getUtcDateFromLocal "2024-06-21" 0 480 = Some (DateOf 1718899200000).
Proof.
  rewrite getUtcDateFromLocal_dateUtc, dateUtc_solstice.
  replace (IZR 1718928000000 + (0 - 480) * 60 * 1000)
    with (IZR 1718899200000) by lra.
  rewrite ofNumber_IZR by (vm_compute; discriminate).
  reflexivity.
Qed.

(** C1, as stated, fails: at UTC+8 local midnight of 21 June 2024 is
    16:00 UTC of 20 June, but [sunriseSunset] takes the declination and the
    equation of time at 00:00 UTC of 21 June, a different Julian century. *)
Lemma sunriseSunset_not_at_local_midnight :
  GeoTime.getUtcDateFromLocal "2024-06-21" 0 480 = Some (DateOf 1718899200000) /\
  dateUtc "2024-06-21" = Some (DateOf 1718928000000) /\
  sunriseSunset 0 0 "2024-06-21" 480 noOptions =
    solveEvents 0 0 480 noOptions
      (solarDeclinationAndEoT (Julian.jc (Julian.toJulianDate 1718928000000))) /\
  Julian.jc (Julian.toJulianDate 1718928000000) <>
  Julian.jc (Julian.toJulianDate 1718899200000).
Proof.
  split; [exact local_midnight_solstice |].
  split; [exact dateUtc_solstice |].
  split.
  - unfold sunriseSunset. rewrite dateUtc_solstice. reflexivity.
  - intros Hjc. apply jc_injective in Hjc. discriminate Hjc.
Qed.

Lemma sunriseSunset_angles_at_utc_midnight_witness :
  dateUtc "2024-06-21" = Some (DateOf 1718928000000) /\
  GeoTime.getUtcDateFromLocal "2024-06-21" 0 0 = Some (DateOf 1718928000000) /\
  sunriseSunset 0 0 "2024-06-21" 480 noOptions =
    solveEvents 0 0 480 noOptions
      (solarDeclinationAndEoT (Julian.jc (Julian.toJulianDate 1718928000000))).
Proof.
  split; [vm_compute; reflexivity |].
  apply (sunriseSunset_angles_at_utc_midnight 0 0 "2024-06-21" 480 noOptions
           1718928000000).
  vm_compute. reflexivity.
Defined.

Lemma sunriseSunset_unparseable_witness :
  JsString.isFinite
    (JsString.parseIntElement (nth_error (JsString.split "-" "2024-xx-21") 1))
    = false /\
  sunriseSunset 0 0 "2024-xx-21" 0 noOptions =
  {| sunriseMinutes := Null; sunsetMinutes := Null;
     solarNoonMinutes := Null; daylightMinutes := Null;
     status := normal |}.
Proof.
  split; [reflexivity |].
  apply (sunriseSunset_unparseable 0 0 "2024-xx-21" 0 noOptions).
  right. left. reflexivity.
Defined.

Lemma sunriseSunset_noon_and_polar_witness :
  dateUtc "2024-06-21" = Some (DateOf 1718928000000) /\
  solarNoonMinutes (sunriseSunset 80 15 "2024-06-21" 60 noOptions) =
    Num (720 - 4 * 15
         - equationOfTimeOf
             (solarDeclinationAndEoT
                (Julian.jc (Julian.toJulianDate 1718928000000)))
         + 60).
Proof.
  split; [vm_compute; reflexivity |].
  apply (sunriseSunset_noon_and_polar 80 15 "2024-06-21" 60 noOptions
           1718928000000 ltac:(vm_compute; reflexivity) _ _ _
           eq_refl eq_refl eq_refl).
Defined.

End SunEventExamples.

(* ################################################################# *)
(** * Part III: further properties *)

(** ** utils.ts: conversions and clamp *)

Section AngleLaws.
Local Open Scope R_scope.
Import Utils.

(** X1. Degrees to radians and back, and radians to degrees and back, give
    the angle again; 180 degrees are PI radians. *)
Theorem degrees_radians_round_trip :
  (forall x : R, rad2deg (deg2rad x) = x) /\
  (forall x : R, deg2rad (rad2deg x) = x) /\
  deg2rad 180 = PI.
Proof.
  pose proof PI_neq0 as Hpi.
  unfold rad2deg, deg2rad, RAD2DEG, DEG2RAD.
  repeat split; intros; field; exact Hpi.
Qed.

(** X2. [clamp] with min <= max returns a value between them, returns the
    value itself exactly when it is already between them, is idempotent
    and monotone; with min > max it returns max whatever the value. *)
Theorem clamp_laws (v w lo hi : R) :
  (lo <= hi ->
     lo <= clamp v lo hi <= hi /\
     (clamp v lo hi = v <-> lo <= v <= hi) /\
     clamp (clamp v lo hi) lo hi = clamp v lo hi /\
     (v <= w -> clamp v lo hi <= clamp w lo hi)) /\
  (hi < lo -> clamp v lo hi = hi).
Proof.
  unfold clamp, Rmin, Rmax.
  split; intros H.
  - repeat split; intros;
      repeat (match goal with
              | |- context [Rle_dec ?a ?b] => destruct (Rle_dec a b)
              | H : context [Rle_dec ?a ?b] |- _ => destruct (Rle_dec a b)
              end); lra.
  - repeat (match goal with
            | |- context [Rle_dec ?a ?b] => destruct (Rle_dec a b)
            end); lra.
Qed.

Lemma clamp_laws_witness :
  (-1 <= clamp 3 (-1) 1 <= 1 /\
   (clamp 3 (-1) 1 = 3 <-> -1 <= 3 <= 1) /\
   clamp (clamp 3 (-1) 1) (-1) 1 = clamp 3 (-1) 1 /\
   (3 <= 4 -> clamp 3 (-1) 1 <= clamp 4 (-1) 1)) /\
  clamp 3 1 (-1) = -1.
Proof.
  split.
  - apply (proj1 (clamp_laws 3 4 (-1) 1)). lra.
  - apply (proj2 (clamp_laws 3 4 1 (-1))). lra.
Defined.

End AngleLaws.

(** ** julian.ts *)

Section JulianLaws.
Local Open Scope R_scope.
Import Julian.

(** X3. The Julian day of the Unix epoch is 2440587.5; a whole number of
    days later the Julian day is that many days more; the Julian century
    is the Julian day counted from 2451545 in units of 36525 days; and a
    later instant has a larger Julian day and Julian century. *)
Theorem toJulianDate_laws :
  jd (toJulianDate 0) = 2440587.5 /\
  (forall t days : Z,
     jd (toJulianDate (t + days * 86400000)) = jd (toJulianDate t) + IZR days) /\
  (forall t : Z,
     jc (toJulianDate t) = (jd (toJulianDate t) - 2451545) / 36525) /\
  (forall t1 t2 : Z,
     (t1 < t2)%Z ->
     jd (toJulianDate t1) < jd (toJulianDate t2) /\
     jc (toJulianDate t1) < jc (toJulianDate t2)).
Proof.
  unfold toJulianDate. simpl.
  split; [lra |]. split; [| split].
  - intros t days. rewrite plus_IZR, mult_IZR. lra.
  - intros t. lra.
  - intros t1 t2 Hlt. apply IZR_lt in Hlt. lra.
Qed.

End JulianLaws.

(** ** solarPosition.ts and sunriseSunset.ts: structure of the results *)

Section Wrap.
Local Open Scope R_scope.

(** A remainder brought back to [0, n) does not see a shift by [n]. *)
Lemma wrap_period (a n : R) :
  0 < n ->
  (if Rlt_dec (JsNumber.rem (a + n) n) 0
   then JsNumber.rem (a + n) n + n else JsNumber.rem (a + n) n) =
  (if Rlt_dec (JsNumber.rem a n) 0
   then JsNumber.rem a n + n else JsNumber.rem a n).
Proof.
  intros Hn.
  destruct (Rle_dec 0 a) as [Ha | Ha].
  - rewrite (rem_shift_nonneg a n Hn Ha). reflexivity.
  - destruct (Rlt_dec (a + n) 0) as [Hb | Hb].
    + rewrite (rem_shift_neg a n Hn Hb). reflexivity.
    + rewrite (rem_small (a + n) n Hn) by lra.
      destruct (Rlt_dec (a + n) 0) as [Hc | _]; [lra |].
      destruct (Req_dec a (Ropp n)) as [-> | Hne].
      * rewrite (rem_opposite n Hn).
        destruct (Rlt_dec 0 0) as [Hc | _]; lra.
      * rewrite (rem_small_neg a n Hn) by lra.
        destruct (Rlt_dec a 0) as [_ | Hc]; lra.
Qed.

End Wrap.

Section PositionLaws.
Local Open Scope R_scope.
Import JsDate Utils SolarPosition SunriseSunset.

(** X4. A longitude and the same longitude plus 360 degrees give the same
    solar position at every instant. *)
Theorem solarPosition_longitude_period (latitude longitude : R) (dateUtc : Z) :
  solarPosition latitude (longitude + 360) dateUtc =
  solarPosition latitude longitude dateUtc.
Proof.
  unfold solarPosition. cbv zeta.
  set (sd := solarDeclinationAndEoT _).
  set (utcMinutes := _ + _ + _ / 60 + _ / 60000).
  replace (utcMinutes + equationOfTimeOf sd + 4 * (longitude + 360))
    with (utcMinutes + equationOfTimeOf sd + 4 * longitude + 1440) by ring.
  rewrite (wrap_period _ 1440) by lra.
  reflexivity.
Qed.

(** X5. The declination and the equation of time reported by
    [solarPosition] do not depend on the place, and at the instant
    [sunriseSunset] takes for a date they are the ones its solar noon is
    computed from: the two computations agree. *)
Theorem position_and_events_agree
    (latitude longitude latitude' longitude' tzOffsetMinutes : R)
    (dateString : string) (options : SunEventOptions) (t : Z) :
  dateUtc dateString = Some (DateOf t) ->
  declination (solarPosition latitude' longitude' t) =
    declination (solarPosition latitude longitude t) /\
  equationOfTime (solarPosition latitude' longitude' t) =
    equationOfTime (solarPosition latitude longitude t) /\
  solarNoonMinutes
    (sunriseSunset latitude longitude dateString tzOffsetMinutes options) =
  Num (720 - 4 * longitude
       - equationOfTime (solarPosition latitude' longitude' t)
       + tzOffsetMinutes).
Proof.
  intros Hd. split; [reflexivity |]. split; [reflexivity |].
  unfold sunriseSunset. rewrite Hd. unfold solveEvents. cbv zeta.
  destruct (Rlt_dec 1 _); [reflexivity |].
  destruct (Rlt_dec _ (-1)); reflexivity.
Qed.

Lemma position_and_events_agree_witness :
  exists t : Z,
    dateUtc "2024-06-21" = Some (DateOf t) /\
    solarNoonMinutes (sunriseSunset 40 10 "2024-06-21" 60 noOptions) =
    Num (720 - 4 * 10 - equationOfTime (solarPosition 0 0 t) + 60).
Proof.
  exists 1718928000000%Z. split; [vm_compute; reflexivity |].
  apply (position_and_events_agree 40 10 0 0 60 "2024-06-21" noOptions
           1718928000000).
  vm_compute. reflexivity.
Defined.

(** X7. For a date that parses to a valid instant the result has a solar
    noon and a day length between 0 and 1440 minutes, and it is one of:
    a normal day, whose sunrise and sunset lie half the day length before
    and after solar noon; a polar night of 0 minutes without sunrise and
    sunset; a polar day of 1440 minutes without sunrise and sunset. *)
Theorem sunriseSunset_structure
    (latitude longitude tzOffsetMinutes : R) (dateString : string)
    (options : SunEventOptions) (t : Z) :
  dateUtc dateString = Some (DateOf t) ->
  exists noon daylight : R,
    solarNoonMinutes
      (sunriseSunset latitude longitude dateString tzOffsetMinutes options)
      = Num noon /\
    daylightMinutes
      (sunriseSunset latitude longitude dateString tzOffsetMinutes options)
      = Num daylight /\
    0 <= daylight <= 1440 /\
    ((status (sunriseSunset latitude longitude dateString tzOffsetMinutes options)
        = normal /\
      sunriseMinutes
        (sunriseSunset latitude longitude dateString tzOffsetMinutes options)
        = Num (noon - daylight / 2) /\
      sunsetMinutes
        (sunriseSunset latitude longitude dateString tzOffsetMinutes options)
        = Num (noon + daylight / 2)) \/
     (status (sunriseSunset latitude longitude dateString tzOffsetMinutes options)
        = polar_night /\ daylight = 0 /\
      sunriseMinutes
        (sunriseSunset latitude longitude dateString tzOffsetMinutes options)
        = Null /\
      sunsetMinutes
        (sunriseSunset latitude longitude dateString tzOffsetMinutes options)
        = Null) \/
     (status (sunriseSunset latitude longitude dateString tzOffsetMinutes options)
        = polar_day /\ daylight = 1440 /\
      sunriseMinutes
        (sunriseSunset latitude longitude dateString tzOffsetMinutes options)
        = Null /\
      sunsetMinutes
        (sunriseSunset latitude longitude dateString tzOffsetMinutes options)
        = Null)).
Proof.
  intros Hd. unfold sunriseSunset. rewrite Hd. unfold solveEvents. cbv zeta.
  set (sd := solarDeclinationAndEoT _).
  set (cosH := cosHourAngle _ _ _).
  destruct (Rlt_dec 1 cosH) as [Hnight | Hnight].
  - eexists. exists 0. simpl. split; [reflexivity |]. split; [reflexivity |].
    split; [lra |]. right. left. auto.
  - destruct (Rlt_dec cosH (-1)) as [Hday | Hday].
    + eexists. exists 1440. simpl. split; [reflexivity |].
      split; [reflexivity |]. split; [lra |]. right. right. auto.
    + pose proof (rad2deg_acos_bounds (clamp cosH (-1) 1)) as [Hlo Hhi].
      eexists. eexists. simpl. split; [reflexivity |].
      split; [reflexivity |]. split; [lra |]. left.
      split; [reflexivity |]. split; f_equal; field.
Qed.

Lemma sunriseSunset_structure_witness :
  exists noon daylight : R,
    solarNoonMinutes (sunriseSunset 40 10 "2024-06-21" 60 noOptions) = Num noon /\
    daylightMinutes (sunriseSunset 40 10 "2024-06-21" 60 noOptions)
      = Num daylight /\
    0 <= daylight <= 1440.
Proof.
  destruct (sunriseSunset_structure 40 10 60 "2024-06-21" noOptions
              1718928000000 ltac:(vm_compute; reflexivity))
    as (noon & daylight & Hn & Hd & Hr & _).
  exists noon, daylight. auto.
Defined.

(** X8. Moving the place east by [dLon] degrees and the clock by [dTz]
    minutes moves sunrise, solar noon and sunset by dTz - 4 dLon minutes
    and changes neither the day length nor the status, for valid,
    out-of-range and unparseable dates alike. *)
Theorem sunriseSunset_shift
    (latitude longitude tzOffsetMinutes dLon dTz : R) (dateString : string)
    (options : SunEventOptions) :
  sunriseSunset latitude (longitude + dLon) dateString (tzOffsetMinutes + dTz)
                options =
  Spec2.shiftEvents (dTz - 4 * dLon)
    (sunriseSunset latitude longitude dateString tzOffsetMinutes options).
Proof.
  unfold sunriseSunset.
  destruct (dateUtc dateString) as [[| t] |]; try reflexivity.
  unfold solveEvents. cbv zeta.
  set (sd := solarDeclinationAndEoT _).
  set (cosH := cosHourAngle _ _ _).
  unfold Spec2.shiftEvents.
  destruct (Rlt_dec 1 cosH) as [Hnight | Hnight].
  - simpl. f_equal. f_equal. ring.
  - destruct (Rlt_dec cosH (-1)) as [Hday | Hday].
    + simpl. f_equal. f_equal. ring.
    + simpl. f_equal; f_equal; ring.
Qed.

End PositionLaws.

(** ** The declination and the seasons *)

Section Degrees.
Local Open Scope R_scope.
Import Utils.

Lemma deg2rad_le (x y : R) : x <= y -> deg2rad x <= deg2rad y.
Proof.
  intros Hxy. unfold deg2rad, DEG2RAD.
  apply Rmult_le_compat_r; [| exact Hxy].
  left. apply Rdiv_lt_0_compat; [apply PI_RGT_0 | lra].
Qed.

Lemma deg2rad_lt (x y : R) : x < y -> deg2rad x < deg2rad y.
Proof.
  intros Hxy. unfold deg2rad, DEG2RAD.
  apply Rmult_lt_compat_r; [| exact Hxy].
  apply Rdiv_lt_0_compat; [apply PI_RGT_0 | lra].
Qed.

Lemma deg2rad_90 : deg2rad 90 = PI / 2.
Proof. unfold deg2rad, DEG2RAD. field. Qed.

Lemma deg2rad_180 : deg2rad 180 = PI.
Proof. unfold deg2rad, DEG2RAD. field. Qed.

Lemma deg2rad_0 : deg2rad 0 = 0.
Proof. unfold deg2rad. ring. Qed.

Lemma deg2rad_opp (x : R) : deg2rad (- x) = - deg2rad x.
Proof. unfold deg2rad. ring. Qed.

Lemma deg2rad_plus (x y : R) : deg2rad (x + y) = deg2rad x + deg2rad y.
Proof. unfold deg2rad. ring. Qed.

Lemma deg2rad_minus (x y : R) : deg2rad (x - y) = deg2rad x - deg2rad y.
Proof. unfold deg2rad. ring. Qed.

Lemma rad2deg_deg2rad (x : R) : rad2deg (deg2rad x) = x.
Proof.
  unfold rad2deg, deg2rad, RAD2DEG, DEG2RAD. field. apply PI_neq0.
Qed.

Lemma rad2deg_opp (x : R) : rad2deg (- x) = - rad2deg x.
Proof. unfold rad2deg. ring. Qed.

(** The arc sine is increasing on [-1, 1]. *)
Lemma asin_le (x y : R) : -1 <= x -> x <= y -> y <= 1 -> asin x <= asin y.
Proof.
  intros Hx Hxy Hy.
  destruct (Rle_dec (asin x) (asin y)) as [Hle | Hgt]; [exact Hle |].
  exfalso. apply Rnot_le_lt in Hgt.
  destruct (asin_bound x) as [Hx1 Hx2]. destruct (asin_bound y) as [Hy1 Hy2].
  pose proof (sin_increasing_1 _ _ Hy1 Hy2 Hx1 Hx2 Hgt) as Hsin.
  rewrite !sin_asin in Hsin by lra. lra.
Qed.

(** The arc cosine is decreasing on [-1, 1]. *)
Lemma acos_le (x y : R) : -1 <= x -> x <= y -> y <= 1 -> acos y <= acos x.
Proof.
  intros Hx Hxy Hy.
  destruct (Rle_dec (acos y) (acos x)) as [Hle | Hgt]; [exact Hle |].
  exfalso. apply Rnot_le_lt in Hgt.
  destruct (acos_bound x) as [Hx1 Hx2]. destruct (acos_bound y) as [Hy1 Hy2].
  pose proof (cos_decreasing_1 _ _ Hx1 Hx2 Hy1 Hy2 Hgt) as Hcos.
  rewrite !cos_acos in Hcos by lra. lra.
Qed.

End Degrees.

Section Declination.
Local Open Scope R_scope.
Import Utils SolarPosition.

(** The corrected obliquity of the ecliptic, between 1900 and 2100, is
    between 23.4 and 23.5 degrees. *)
Lemma obliquity_bounds (jc c : R) :
  -1 <= jc <= 1 -> -1 <= c <= 1 ->
  23.4 <=
    23 + (26 + (21.448 - jc * (46.815 + jc * (0.00059 - jc * 0.001813))) / 60) / 60
    + 0.00256 * c <= 23.5.
Proof.
  intros Hjc Hc.
  set (m3 := 0.00059 - jc * 0.001813).
  assert (H3 : -0.002 <= m3 <= 0.003) by (unfold m3; lra).
  set (p3 := jc * m3).
  assert (Hp3 : -0.003 <= p3 <= 0.003) by (unfold p3; nra).
  set (m2 := 46.815 + p3).
  assert (H2 : 46.8 <= m2 <= 46.9) by (unfold m2; lra).
  set (p2 := jc * m2).
  assert (Hp2 : -46.9 <= p2 <= 46.9) by (unfold p2; nra).
  lra.
Qed.

(** The declination is at most the obliquity away from the equator. *)
Lemma declination_range (jc : R) :
  -1 <= jc <= 1 ->
  -23.5 <= declinationOf (solarDeclinationAndEoT jc) <= 23.5.
Proof.
  intros Hjc. unfold solarDeclinationAndEoT. cbv zeta. simpl declinationOf.
  set (lambda := deg2rad (_ - 0.00569 - _)).
  set (c := cos (deg2rad (125.04 - 1934.136 * jc))).
  pose proof (obliquity_bounds jc c Hjc (COS_bound _)) as Hobl.
  set (eps := 23 + _ + 0.00256 * c) in *.
  assert (He : 0 <= deg2rad eps <= PI / 2).
  { split.
    - rewrite <- deg2rad_0. apply deg2rad_le. lra.
    - rewrite <- deg2rad_90. apply deg2rad_le. lra. }
  assert (Hs : 0 <= sin (deg2rad eps) <= 1).
  { split; [| apply SIN_bound].
    apply sin_ge_0; [lra |]. pose proof PI_RGT_0. lra. }
  pose proof (SIN_bound lambda) as Hl.
  assert (Hx : - sin (deg2rad eps) <= sin (deg2rad eps) * sin lambda
               <= sin (deg2rad eps)) by nra.
  assert (Hup : asin (sin (deg2rad eps) * sin lambda) <= deg2rad eps).
  { rewrite <- (asin_sin (deg2rad eps)) at 2 by lra.
    apply asin_le; lra. }
  assert (Hlo : - deg2rad eps <= asin (sin (deg2rad eps) * sin lambda)).
  { rewrite <- (asin_sin (deg2rad eps)) at 1 by lra.
    rewrite <- asin_opp. apply asin_le; lra. }
  apply rad2deg_monotone in Hup. apply rad2deg_monotone in Hlo.
  rewrite rad2deg_opp in Hlo. rewrite rad2deg_deg2rad in Hup, Hlo.
  lra.
Qed.

(** X6. Between 1900 and 2100 (Julian century between -1 and 1) the
    declination stays between -23.5 and 23.5 degrees. *)
Theorem declination_bounds (jc : R) :
  -1 <= jc <= 1 ->
  -23.5 <= declinationOf (solarDeclinationAndEoT jc) <= 23.5.
Proof. exact (declination_range jc). Qed.

Lemma declination_bounds_witness :
  -1 <= 0 <= 1 /\ -23.5 <= declinationOf (solarDeclinationAndEoT 0) <= 23.5.
Proof.
  split; [lra |]. apply (declination_bounds 0). lra.
Defined.

End Declination.

(** ** The hour-angle equation *)

Section HourAngle.
Local Open Scope R_scope.
Import Utils SolarPosition SunriseSunset.

Variables lat decl : R.
Hypothesis lat_range : -90 < lat < 90.
Hypothesis decl_range : -90 < decl < 90.

Lemma cos_deg_pos (x : R) : -90 < x < 90 -> 0 < cos (deg2rad x).
Proof.
  intros [Hlo Hhi]. apply cos_gt_0.
  - rewrite <- deg2rad_90, <- deg2rad_opp. apply deg2rad_lt. lra.
  - rewrite <- deg2rad_90. apply deg2rad_lt. lra.
Qed.

Lemma denominator_pos : 0 < cos (deg2rad lat) * cos (deg2rad decl).
Proof.
  apply Rmult_lt_0_compat; apply cos_deg_pos; assumption.
Qed.

(** The equation over the common denominator. *)
Lemma cosHourAngle_quotient (zenith : R) :
  cosHourAngle (deg2rad lat) (deg2rad decl) zenith =
  (cos (deg2rad zenith) - sin (deg2rad lat) * sin (deg2rad decl))
  / (cos (deg2rad lat) * cos (deg2rad decl)).
Proof.
  pose proof (cos_deg_pos lat lat_range). pose proof (cos_deg_pos decl decl_range).
  unfold cosHourAngle, tan. field. split; lra.
Qed.

(** The cosine of an angle in degrees between 0 and 180 decreases. *)
Lemma cos_deg_decr (x y : R) :
  0 <= x -> x <= y -> y <= 180 -> cos (deg2rad y) <= cos (deg2rad x).
Proof.
  intros Hx Hxy Hy. apply cos_decr_1.
  - rewrite <- deg2rad_0. apply deg2rad_le. lra.
  - rewrite <- deg2rad_180. apply deg2rad_le. lra.
  - rewrite <- deg2rad_0. apply deg2rad_le. lra.
  - rewrite <- deg2rad_180. apply deg2rad_le. lra.
  - apply deg2rad_le. exact Hxy.
Qed.

Lemma cos_deg_abs (x : R) : cos (deg2rad (Rabs x)) = cos (deg2rad x).
Proof.
  unfold Rabs. destruct (Rcase_abs x); [| reflexivity].
  rewrite deg2rad_opp. apply cos_neg.
Qed.

Lemma cos_deg_supplement (x : R) : cos (deg2rad (180 - x)) = - cos (deg2rad x).
Proof.
  rewrite deg2rad_minus, deg2rad_180, cos_minus, cos_PI, sin_PI. ring.
Qed.

(** The sun reaches the altitude [alt] on the way up and on the way down
    when the latitude and the declination are close enough. *)
Lemma hour_angle_exists (alt : R) :
  Rabs (lat - decl) <= 90 - alt ->
  Rabs (lat + decl) <= 90 + alt ->
  -1 <= cosHourAngle (deg2rad lat) (deg2rad decl) (90 - alt) <= 1.
Proof.
  intros Hminus Hplus.
  pose proof denominator_pos as HD.
  pose proof (Rabs_pos (lat - decl)) as Hm0.
  pose proof (Rabs_pos (lat + decl)) as Hp0.
  rewrite cosHourAngle_quotient.
  set (D := cos (deg2rad lat) * cos (deg2rad decl)) in *.
  assert (Hup : cos (deg2rad (90 - alt)) <= cos (deg2rad (lat - decl))).
  { rewrite <- (cos_deg_abs (lat - decl)). apply cos_deg_decr; lra. }
  assert (Hdown : - cos (deg2rad (lat + decl)) <= cos (deg2rad (90 - alt))).
  { rewrite <- (cos_deg_abs (lat + decl)), <- cos_deg_supplement.
    apply cos_deg_decr; lra. }
  rewrite (deg2rad_minus lat decl), (cos_minus (deg2rad lat)) in Hup.
  rewrite (deg2rad_plus lat decl), (cos_plus (deg2rad lat)) in Hdown.
  fold D in Hup, Hdown.
  split.
  - apply Rmult_le_reg_r with (r := D); [exact HD |].
    unfold Rdiv. rewrite Rmult_assoc, Rinv_l by lra. lra.
  - apply Rmult_le_reg_r with (r := D); [exact HD |].
    unfold Rdiv. rewrite Rmult_assoc, Rinv_l by lra. lra.
Qed.

(** A higher target altitude gives a larger cosine of the hour angle. *)
Lemma cosHourAngle_monotone (a b : R) :
  -90 <= a -> a <= b -> b <= 90 ->
  cosHourAngle (deg2rad lat) (deg2rad decl) (90 - a) <=
  cosHourAngle (deg2rad lat) (deg2rad decl) (90 - b).
Proof.
  intros Ha Hab Hb.
  pose proof denominator_pos as HD.
  rewrite !cosHourAngle_quotient.
  set (D := cos (deg2rad lat) * cos (deg2rad decl)) in *.
  assert (Hsin : cos (deg2rad (90 - a)) <= cos (deg2rad (90 - b))).
  { rewrite !deg2rad_minus, deg2rad_90, !cos_shift.
    apply sin_incr_1.
    - rewrite <- deg2rad_90, <- deg2rad_opp. apply deg2rad_le. lra.
    - rewrite <- deg2rad_90. apply deg2rad_le. lra.
    - rewrite <- deg2rad_90, <- deg2rad_opp. apply deg2rad_le. lra.
    - rewrite <- deg2rad_90. apply deg2rad_le. lra.
    - apply deg2rad_le. exact Hab. }
  apply Rmult_le_compat_r; [| lra].
  left. apply Rinv_0_lt_compat. exact HD.
Qed.

(** The half day length, in degrees, shrinks when the cosine grows. *)
Lemma half_arc_antitone (x y : R) :
  x <= y ->
  rad2deg (acos (clamp y (-1) 1)) <= rad2deg (acos (clamp x (-1) 1)).
Proof.
  intros Hxy. apply rad2deg_monotone.
  pose proof (clamp_bounds x (-1) 1 ltac:(lra)).
  pose proof (clamp_bounds y (-1) 1 ltac:(lra)).
  apply acos_le; try lra.
  unfold clamp. apply Rle_min_compat_l, Rle_max_compat_l. exact Hxy.
Qed.

End HourAngle.

Section EventShape.
Local Open Scope R_scope.
Import JsDate Utils SolarPosition SunriseSunset.

(** The three results of the solver, by the cosine of the hour angle. *)
Lemma solveEvents_shape (latitude longitude tzOffsetMinutes : R)
    (options : SunEventOptions) (sd : SolarDeclinationResult) :
  forall cosH noon half,
    cosH = cosHourAngle (deg2rad latitude) (deg2rad (declinationOf sd))
                        (90 - targetAltitude options) ->
    noon = 720 - 4 * longitude - equationOfTimeOf sd + tzOffsetMinutes ->
    half = rad2deg (acos (clamp cosH (-1) 1)) ->
    (1 < cosH /\
     solveEvents latitude longitude tzOffsetMinutes options sd =
     {| sunriseMinutes := Null; sunsetMinutes := Null;
        solarNoonMinutes := Num noon; daylightMinutes := Num 0;
        status := polar_night |}) \/
    (cosH < -1 /\
     solveEvents latitude longitude tzOffsetMinutes options sd =
     {| sunriseMinutes := Null; sunsetMinutes := Null;
        solarNoonMinutes := Num noon; daylightMinutes := Num 1440;
        status := polar_day |}) \/
    (-1 <= cosH <= 1 /\ 0 <= half <= 180 /\
     solveEvents latitude longitude tzOffsetMinutes options sd =
     {| sunriseMinutes := Num (noon - 4 * half);
        sunsetMinutes := Num (noon + 4 * half);
        solarNoonMinutes := Num noon; daylightMinutes := Num (8 * half);
        status := normal |}).
Proof.
  intros cosH noon half -> -> ->.
  unfold solveEvents. cbv zeta.
  set (cosH := cosHourAngle _ _ _).
  destruct (Rlt_dec 1 cosH) as [Hnight | Hnight]; [left; auto |].
  destruct (Rlt_dec cosH (-1)) as [Hday | Hday]; [right; left; auto |].
  right. right. split; [lra |].
  split; [apply rad2deg_acos_bounds |].
  f_equal; f_equal; ring.
Qed.

Lemma sunriseSunset_valid (latitude longitude tzOffsetMinutes : R)
    (dateString : string) (options : SunEventOptions) (t : Z) :
  dateUtc dateString = Some (DateOf t) ->
  sunriseSunset latitude longitude dateString tzOffsetMinutes options =
  solveEvents latitude longitude tzOffsetMinutes options
    (solarDeclinationAndEoT (Julian.jc (Julian.toJulianDate t))).
Proof. intros Hd. unfold sunriseSunset. rewrite Hd. reflexivity. Qed.

(** Within the moderate latitudes the solver finds a normal day. *)
Lemma solveEvents_normal (latitude longitude tzOffsetMinutes : R)
    (options : SunEventOptions) (jc : R) :
  -1 <= jc <= 1 ->
  Rabs latitude + Rabs (targetAltitude options) <= 66.5 ->
  exists noon half,
    0 <= half <= 180 /\
    solveEvents latitude longitude tzOffsetMinutes options
                (solarDeclinationAndEoT jc) =
    {| sunriseMinutes := Num (noon - 4 * half);
       sunsetMinutes := Num (noon + 4 * half);
       solarNoonMinutes := Num noon; daylightMinutes := Num (8 * half);
       status := normal |}.
Proof.
  intros Hjc Hlat.
  pose proof (declination_range jc Hjc) as Hdecl.
  set (sd := solarDeclinationAndEoT jc) in *.
  assert (Hbounds : -66.5 <= latitude <= 66.5 /\
                    Rabs (latitude - declinationOf sd)
                      <= 90 - targetAltitude options /\
                    Rabs (latitude + declinationOf sd)
                      <= 90 + targetAltitude options).
  { revert Hlat. unfold Rabs.
    repeat (match goal with
            | |- context [Rcase_abs ?u] => destruct (Rcase_abs u)
            end); intros; lra. }
  destruct Hbounds as (Hl & Hminus & Hplus).
  pose proof (hour_angle_exists latitude (declinationOf sd)
                ltac:(lra) ltac:(lra) (targetAltitude options) Hminus Hplus)
    as Hcos.
  destruct (solveEvents_shape latitude longitude tzOffsetMinutes options sd
              _ _ _ eq_refl eq_refl eq_refl)
    as [[Hn _] | [[Hd _] | (_ & Hhalf & Heq)]]; try lra.
  eexists. eexists. split; [exact Hhalf | exact Heq].
Qed.

(** X9. Between 1900 and 2100, at a latitude whose distance from the
    equator plus the size of the target altitude is at most 66.5 degrees
    (65.6 degrees of latitude for the default sunrise altitude), every day
    is a normal day: sunrise and sunset exist, sunrise first. *)
Theorem sunriseSunset_normal_at_moderate_latitude
    (latitude longitude tzOffsetMinutes : R) (dateString : string)
    (options : SunEventOptions) (t : Z) :
  dateUtc dateString = Some (DateOf t) ->
  -1 <= Julian.jc (Julian.toJulianDate t) <= 1 ->
  Rabs latitude + Rabs (targetAltitude options) <= 66.5 ->
  status (sunriseSunset latitude longitude dateString tzOffsetMinutes options)
    = normal /\
  exists rise set : R,
    sunriseMinutes
      (sunriseSunset latitude longitude dateString tzOffsetMinutes options)
      = Num rise /\
    sunsetMinutes
      (sunriseSunset latitude longitude dateString tzOffsetMinutes options)
      = Num set /\
    rise <= set.
Proof.
  intros Hd Hjc Hlat.
  rewrite (sunriseSunset_valid _ _ _ _ _ t Hd).
  destruct (solveEvents_normal latitude longitude tzOffsetMinutes options _
              Hjc Hlat) as (noon & half & Hhalf & ->).
  simpl. split; [reflexivity |].
  eexists. eexists. split; [reflexivity |]. split; [reflexivity | lra].
Qed.

Lemma solstice_century :
  -1 <= Julian.jc (Julian.toJulianDate 1718928000000) <= 1.
Proof. unfold Julian.toJulianDate. simpl. lra. Qed.

Lemma sunriseSunset_normal_at_moderate_latitude_witness :
  status (sunriseSunset 40 10 "2024-06-21" 60 noOptions) = normal /\
  exists rise set : R,
    sunriseMinutes (sunriseSunset 40 10 "2024-06-21" 60 noOptions) = Num rise /\
    sunsetMinutes (sunriseSunset 40 10 "2024-06-21" 60 noOptions) = Num set /\
    rise <= set.
Proof.
  apply (sunriseSunset_normal_at_moderate_latitude 40 10 60 "2024-06-21"
           noOptions 1718928000000).
  - vm_compute. reflexivity.
  - exact solstice_century.
  - unfold targetAltitude, noOptions. simpl. unfold Rabs.
    repeat (match goal with
            | |- context [Rcase_abs ?u] => destruct (Rcase_abs u)
            end); lra.
Defined.

End EventShape.

Section AltitudeOrder.
Local Open Scope R_scope.
Import JsDate Utils SolarPosition SunriseSunset Spec2.

Lemma Num_eq (x y : R) : Num x = Num y -> x = y.
Proof. intros H. congruence. Qed.

(** A lower target altitude is reached earlier in the morning and later
    in the evening. *)
Lemma solveEvents_monotone (latitude longitude tzOffsetMinutes jc a b : R) :
  -1 <= jc <= 1 -> -90 < latitude < 90 -> -90 <= a -> a <= b -> b <= 90 ->
  forall ra rb,
    ra = solveEvents latitude longitude tzOffsetMinutes (atAltitude a)
                     (solarDeclinationAndEoT jc) ->
    rb = solveEvents latitude longitude tzOffsetMinutes (atAltitude b)
                     (solarDeclinationAndEoT jc) ->
    (status rb = polar_day -> status ra = polar_day) /\
    (status ra = polar_night -> status rb = polar_night) /\
    (forall x y, sunriseMinutes ra = Num x -> sunriseMinutes rb = Num y -> x <= y) /\
    (forall x y, sunsetMinutes ra = Num x -> sunsetMinutes rb = Num y -> y <= x).
Proof.
  intros Hjc Hlat Ha Hab Hb ra rb -> ->.
  pose proof (declination_range jc Hjc) as Hdecl.
  set (sd := solarDeclinationAndEoT jc) in *.
  pose proof (cosHourAngle_monotone latitude (declinationOf sd) Hlat
                ltac:(lra) a b Ha Hab Hb) as Hmon.
  destruct (solveEvents_shape latitude longitude tzOffsetMinutes (atAltitude a) sd
              _ _ _ eq_refl eq_refl eq_refl)
    as [[Ca ->] | [[Ca ->] | (Ca & Hha & ->)]];
  destruct (solveEvents_shape latitude longitude tzOffsetMinutes (atAltitude b) sd
              _ _ _ eq_refl eq_refl eq_refl)
    as [[Cb ->] | [[Cb ->] | (Cb & Hhb & ->)]];
  change (targetAltitude (atAltitude a)) with a in *;
  change (targetAltitude (atAltitude b)) with b in *;
  cbn [sunriseMinutes sunsetMinutes status];
  repeat split; intros; try discriminate; try reflexivity; try lra.
  - apply Num_eq in H. apply Num_eq in H0.
    pose proof (half_arc_antitone _ _ Hmon). lra.
  - apply Num_eq in H. apply Num_eq in H0.
    pose proof (half_arc_antitone _ _ Hmon). lra.
Qed.

(** X10. Between 1900 and 2100 and away from the poles, asking for a
    lower target altitude never makes the morning event later or the
    evening event earlier; a polar day at the higher altitude is a polar
    day at the lower one, and a polar night at the lower altitude is a
    polar night at the higher one. *)
Theorem sunriseSunset_monotone_in_altitude
    (latitude longitude tzOffsetMinutes a b : R) (dateString : string) (t : Z) :
  dateUtc dateString = Some (DateOf t) ->
  -1 <= Julian.jc (Julian.toJulianDate t) <= 1 ->
  -90 < latitude < 90 -> -90 <= a -> a <= b -> b <= 90 ->
  (status (sunriseSunset latitude longitude dateString tzOffsetMinutes (atAltitude b))
     = polar_day ->
   status (sunriseSunset latitude longitude dateString tzOffsetMinutes (atAltitude a))
     = polar_day) /\
  (status (sunriseSunset latitude longitude dateString tzOffsetMinutes (atAltitude a))
     = polar_night ->
   status (sunriseSunset latitude longitude dateString tzOffsetMinutes (atAltitude b))
     = polar_night) /\
  (forall x y,
     sunriseMinutes
       (sunriseSunset latitude longitude dateString tzOffsetMinutes (atAltitude a))
       = Num x ->
     sunriseMinutes
       (sunriseSunset latitude longitude dateString tzOffsetMinutes (atAltitude b))
       = Num y ->
     x <= y) /\
  (forall x y,
     sunsetMinutes
       (sunriseSunset latitude longitude dateString tzOffsetMinutes (atAltitude a))
       = Num x ->
     sunsetMinutes
       (sunriseSunset latitude longitude dateString tzOffsetMinutes (atAltitude b))
       = Num y ->
     y <= x).
Proof.
  intros Hd Hjc Hlat Ha Hab Hb.
  rewrite !(sunriseSunset_valid _ _ _ _ _ t Hd).
  exact (solveEvents_monotone latitude longitude tzOffsetMinutes _ a b
           Hjc Hlat Ha Hab Hb _ _ eq_refl eq_refl).
Qed.


End AltitudeOrder.

Section TwilightOrder.
Local Open Scope R_scope.
Import JsDate Utils SolarPosition SunriseSunset Spec2.

Lemma sunriseSunset_monotone_in_altitude_witness :
  (status (sunriseSunset 40 10 "2024-06-21" 60 (atAltitude (-0.833))) = polar_day ->
   status (sunriseSunset 40 10 "2024-06-21" 60 (atAltitude (-6))) = polar_day) /\
  (status (sunriseSunset 40 10 "2024-06-21" 60 (atAltitude (-6))) = polar_night ->
   status (sunriseSunset 40 10 "2024-06-21" 60 (atAltitude (-0.833)))
     = polar_night) /\
  (forall x y,
     sunriseMinutes (sunriseSunset 40 10 "2024-06-21" 60 (atAltitude (-6)))
       = Num x ->
     sunriseMinutes (sunriseSunset 40 10 "2024-06-21" 60 (atAltitude (-0.833)))
       = Num y ->
     x <= y) /\
  (forall x y,
     sunsetMinutes (sunriseSunset 40 10 "2024-06-21" 60 (atAltitude (-6)))
       = Num x ->
     sunsetMinutes (sunriseSunset 40 10 "2024-06-21" 60 (atAltitude (-0.833)))
       = Num y ->
     y <= x).
Proof.
  apply (sunriseSunset_monotone_in_altitude 40 10 60 (-6) (-0.833)
           "2024-06-21" 1718928000000).
  - vm_compute. reflexivity.
  - exact solstice_century.
  - lra.
  - lra.
  - lra.
  - lra.
Defined.

(** Only the target altitude of the options matters. *)
Lemma solveEvents_default (latitude longitude tzOffsetMinutes : R)
    (sd : SolarDeclinationResult) :
  solveEvents latitude longitude tzOffsetMinutes noOptions sd =
  solveEvents latitude longitude tzOffsetMinutes (atAltitude (-0.833)) sd.
Proof. reflexivity. Qed.

Variables latitude longitude tzOffsetMinutes : R.
Variable dateString : string.
Variable t : Z.
Hypothesis date_valid : dateUtc dateString = Some (DateOf t).
Hypothesis century : -1 <= Julian.jc (Julian.toJulianDate t) <= 1.
Hypothesis away_from_poles : -90 < latitude < 90.

(** The bands of [twilightTimes], as results of the solver. *)
Lemma twilight_bands :
  Twilight.twilightTimes latitude longitude dateString tzOffsetMinutes =
  let events a :=
    solveEvents latitude longitude tzOffsetMinutes (atAltitude a)
      (solarDeclinationAndEoT (Julian.jc (Julian.toJulianDate t))) in
  {| Twilight.civil :=
       {| Twilight.start := sunriseMinutes (events (-6));
          Twilight.end_ := sunsetMinutes (events (-6)) |};
     Twilight.nautical :=
       {| Twilight.start := sunriseMinutes (events (-12));
          Twilight.end_ := sunsetMinutes (events (-12)) |};
     Twilight.astronomical :=
       {| Twilight.start := sunriseMinutes (events (-18));
          Twilight.end_ := sunsetMinutes (events (-18)) |} |}.
Proof.
  unfold Twilight.twilightTimes. rewrite !twilightBand_sunriseSunset. cbv zeta.
  fold (atAltitude (-6)). fold (atAltitude (-12)). fold (atAltitude (-18)).
  rewrite !(sunriseSunset_valid _ _ _ _ _ t date_valid). reflexivity.
Qed.

(** X11. Between 1900 and 2100 and away from the poles, whenever all of
    them are numbers: astronomical dawn, nautical dawn, civil dawn,
    sunrise, solar noon, sunset, civil dusk, nautical dusk and
    astronomical dusk follow each other in this order. *)
Theorem twilight_chain (a1 a2 a3 rise noon set b3 b2 b1 : R) :
  Twilight.start
    (Twilight.astronomical
       (Twilight.twilightTimes latitude longitude dateString tzOffsetMinutes))
    = Num a1 ->
  Twilight.start
    (Twilight.nautical
       (Twilight.twilightTimes latitude longitude dateString tzOffsetMinutes))
    = Num a2 ->
  Twilight.start
    (Twilight.civil
       (Twilight.twilightTimes latitude longitude dateString tzOffsetMinutes))
    = Num a3 ->
  sunriseMinutes
    (sunriseSunset latitude longitude dateString tzOffsetMinutes noOptions)
    = Num rise ->
  solarNoonMinutes
    (sunriseSunset latitude longitude dateString tzOffsetMinutes noOptions)
    = Num noon ->
  sunsetMinutes
    (sunriseSunset latitude longitude dateString tzOffsetMinutes noOptions)
    = Num set ->
  Twilight.end_
    (Twilight.civil
       (Twilight.twilightTimes latitude longitude dateString tzOffsetMinutes))
    = Num b3 ->
  Twilight.end_
    (Twilight.nautical
       (Twilight.twilightTimes latitude longitude dateString tzOffsetMinutes))
    = Num b2 ->
  Twilight.end_
    (Twilight.astronomical
       (Twilight.twilightTimes latitude longitude dateString tzOffsetMinutes))
    = Num b1 ->
  a1 <= a2 /\ a2 <= a3 /\ a3 <= rise /\ rise <= noon /\
  noon <= set /\ set <= b3 /\ b3 <= b2 /\ b2 <= b1.
Proof.
  rewrite twilight_bands. cbv zeta.
  cbn [Twilight.start Twilight.end_ Twilight.civil Twilight.nautical
       Twilight.astronomical].
  rewrite (sunriseSunset_valid _ _ _ _ _ t date_valid), solveEvents_default.
  set (jc := Julian.jc (Julian.toJulianDate t)) in *.
  intros A1 A2 A3 Hrise Hnoon Hset B3 B2 B1.
  destruct (solveEvents_monotone latitude longitude tzOffsetMinutes jc
              (-18) (-12) century away_from_poles ltac:(lra) ltac:(lra)
              ltac:(lra) _ _ eq_refl eq_refl) as (_ & _ & Hr1 & Hs1).
  destruct (solveEvents_monotone latitude longitude tzOffsetMinutes jc
              (-12) (-6) century away_from_poles ltac:(lra) ltac:(lra)
              ltac:(lra) _ _ eq_refl eq_refl) as (_ & _ & Hr2 & Hs2).
  destruct (solveEvents_monotone latitude longitude tzOffsetMinutes jc
              (-6) (-0.833) century away_from_poles ltac:(lra) ltac:(lra)
              ltac:(lra) _ _ eq_refl eq_refl) as (_ & _ & Hr3 & Hs3).
  pose proof (Hr1 _ _ A1 A2). pose proof (Hr2 _ _ A2 A3).
  pose proof (Hr3 _ _ A3 Hrise). pose proof (Hs1 _ _ B1 B2).
  pose proof (Hs2 _ _ B2 B3). pose proof (Hs3 _ _ B3 Hset).
  assert (Hmid : rise <= noon /\ noon <= set).
  { destruct (solveEvents_shape latitude longitude tzOffsetMinutes
                (atAltitude (-0.833)) (solarDeclinationAndEoT jc)
                _ _ _ eq_refl eq_refl eq_refl)
      as [[_ E] | [[_ E] | (_ & Hhalf & E)]];
      rewrite E in Hrise, Hnoon, Hset;
      cbn [sunriseMinutes sunsetMinutes solarNoonMinutes] in Hrise, Hnoon, Hset;
      try discriminate.
    apply Num_eq in Hrise, Hnoon, Hset. lra. }
  lra.
Qed.

End TwilightOrder.

Section TwilightExample.
Local Open Scope R_scope.
Import JsDate Utils SolarPosition SunriseSunset Spec2.

Lemma moderate (options : SunEventOptions) (a : R) :
  targetAltitude options = a -> -26.5 <= a <= 26.5 ->
  Rabs 40 + Rabs (targetAltitude options) <= 66.5.
Proof.
  intros -> Ha. unfold Rabs.
  repeat (match goal with
          | |- context [Rcase_abs ?u] => destruct (Rcase_abs u)
          end); lra.
Qed.

Lemma twilight_chain_witness :
  exists a1 a2 a3 rise noon set b3 b2 b1 : R,
    (Twilight.start
       (Twilight.astronomical (Twilight.twilightTimes 40 10 "2024-06-21" 60))
       = Num a1 /\
     Twilight.start
       (Twilight.nautical (Twilight.twilightTimes 40 10 "2024-06-21" 60))
       = Num a2 /\
     Twilight.start
       (Twilight.civil (Twilight.twilightTimes 40 10 "2024-06-21" 60))
       = Num a3 /\
     sunriseMinutes (sunriseSunset 40 10 "2024-06-21" 60 noOptions) = Num rise /\
     solarNoonMinutes (sunriseSunset 40 10 "2024-06-21" 60 noOptions) = Num noon /\
     sunsetMinutes (sunriseSunset 40 10 "2024-06-21" 60 noOptions) = Num set /\
     Twilight.end_
       (Twilight.civil (Twilight.twilightTimes 40 10 "2024-06-21" 60))
       = Num b3 /\
     Twilight.end_
       (Twilight.nautical (Twilight.twilightTimes 40 10 "2024-06-21" 60))
       = Num b2 /\
     Twilight.end_
       (Twilight.astronomical (Twilight.twilightTimes 40 10 "2024-06-21" 60))
       = Num b1) /\
    (a1 <= a2 /\ a2 <= a3 /\ a3 <= rise /\ rise <= noon /\
     noon <= set /\ set <= b3 /\ b3 <= b2 /\ b2 <= b1).
Proof.
  assert (Hd : dateUtc "2024-06-21" = Some (DateOf 1718928000000))
    by (vm_compute; reflexivity).
  destruct (solveEvents_normal 40 10 60 (atAltitude (-18)) _ solstice_century
              (moderate (atAltitude (-18)) (-18) eq_refl ltac:(lra))) as (n1 & h1 & _ & E1).
  destruct (solveEvents_normal 40 10 60 (atAltitude (-12)) _ solstice_century
              (moderate (atAltitude (-12)) (-12) eq_refl ltac:(lra))) as (n2 & h2 & _ & E2).
  destruct (solveEvents_normal 40 10 60 (atAltitude (-6)) _ solstice_century
              (moderate (atAltitude (-6)) (-6) eq_refl ltac:(lra))) as (n3 & h3 & _ & E3).
  destruct (solveEvents_normal 40 10 60 noOptions _ solstice_century
              (moderate noOptions (-0.833) eq_refl ltac:(lra))) as (n4 & h4 & _ & E4).
  assert (Hall :
    Twilight.start
      (Twilight.astronomical (Twilight.twilightTimes 40 10 "2024-06-21" 60))
      = Num (n1 - 4 * h1) /\
    Twilight.start
      (Twilight.nautical (Twilight.twilightTimes 40 10 "2024-06-21" 60))
      = Num (n2 - 4 * h2) /\
    Twilight.start
      (Twilight.civil (Twilight.twilightTimes 40 10 "2024-06-21" 60))
      = Num (n3 - 4 * h3) /\
    sunriseMinutes (sunriseSunset 40 10 "2024-06-21" 60 noOptions)
      = Num (n4 - 4 * h4) /\
    solarNoonMinutes (sunriseSunset 40 10 "2024-06-21" 60 noOptions) = Num n4 /\
    sunsetMinutes (sunriseSunset 40 10 "2024-06-21" 60 noOptions)
      = Num (n4 + 4 * h4) /\
    Twilight.end_
      (Twilight.civil (Twilight.twilightTimes 40 10 "2024-06-21" 60))
      = Num (n3 + 4 * h3) /\
    Twilight.end_
      (Twilight.nautical (Twilight.twilightTimes 40 10 "2024-06-21" 60))
      = Num (n2 + 4 * h2) /\
    Twilight.end_
      (Twilight.astronomical (Twilight.twilightTimes 40 10 "2024-06-21" 60))
      = Num (n1 + 4 * h1)).
  { rewrite (twilight_bands 40 10 60 "2024-06-21" _ Hd). cbv zeta.
    cbn [Twilight.start Twilight.end_ Twilight.civil Twilight.nautical
         Twilight.astronomical].
    rewrite (sunriseSunset_valid _ _ _ _ _ _ Hd).
    rewrite E1, E2, E3, E4. repeat split; reflexivity. }
  exists (n1 - 4 * h1), (n2 - 4 * h2), (n3 - 4 * h3), (n4 - 4 * h4), n4,
         (n4 + 4 * h4), (n3 + 4 * h3), (n2 + 4 * h2), (n1 + 4 * h1).
  split; [exact Hall |].
  destruct Hall as (A1 & A2 & A3 & Hrise & Hnoon & Hset & B3 & B2 & B1).
  exact (twilight_chain 40 10 60 "2024-06-21" 1718928000000 Hd
           solstice_century ltac:(lra) _ _ _ _ _ _ _ _ _
           A1 A2 A3 Hrise Hnoon Hset B3 B2 B1).
Defined.

End TwilightExample.

(** ** photography.ts: what the windows cover *)

Section WindowCover.
Import Spec Spec3 Photography.
Local Open Scope Q_scope.

Variables minAlt maxAlt : Q.

(** With a window open, the first window returned is the open one,
    possibly extended. *)
Lemma scan_open_head (rest : list Sample) :
  forall s e,
    increasing (map minute rest) = true ->
    Forall (fun p => e < minute p) rest ->
    exists e' tail,
      scan minAlt maxAlt rest [] (Some s) (Some e)
        = {| start := s; end_ := e' |} :: tail /\
      e <= e'.
Proof.
  induction rest as [| point rest IH]; intros s e Hinc Hlater.
  - exists e, []. split; [reflexivity | apply Qle_refl].
  - simpl map in Hinc. apply increasing_head in Hinc as [Hnext Hinc].
    apply (proj1 (Forall_map _ _ _)) in Hnext.
    destruct (inRange minAlt maxAlt point) eqn:Hin.
    + simpl scan. rewrite Hin.
      destruct (IH s (minute point) Hinc Hnext) as (e' & tail & Heq & Hle).
      exists e', tail. split; [exact Heq |].
      apply Forall_inv in Hlater.
      exact (Qle_trans _ _ _ (Qlt_le_weak _ _ Hlater) Hle).
    + rewrite (scan_close _ _ _ _ _ _ Hin).
      exists e, (scan minAlt maxAlt rest [] None None).
      split; [reflexivity | apply Qle_refl].
Qed.

(** No window starts at or before a bound that every sample exceeds. *)
Lemma scan_after (rest : list Sample) (lastMinute : option Q) (b m : Q) :
  increasing (map minute rest) = true ->
  Forall (fun p => b < minute p) rest ->
  m <= b ->
  ~ covered (scan minAlt maxAlt rest [] None lastMinute) m.
Proof.
  intros Hinc Hlater Hmb Hcov.
  assert (Hchain : chain (fun _ => True) (Some b)
                         (scan minAlt maxAlt rest [] None lastMinute)).
  { apply scan_chain; [exact Hinc | trivial | exact Hlater]. }
  apply chain_above in Hchain.
  unfold covered in Hcov. rewrite Exists_exists in Hcov.
  destruct Hcov as (w & Hw & Hs & _).
  rewrite Forall_forall in Hchain. specialize (Hchain w Hw). simpl in Hchain.
  apply (Qlt_irrefl b).
  exact (Qlt_le_trans _ _ _ Hchain (Qle_trans _ _ _ Hs Hmb)).
Qed.

(** The samples still to come: those in range are covered, the others
    are not. *)
Lemma scan_cover (rest : list Sample) :
  forall start lastMinute,
    increasing (map minute rest) = true ->
    match start with
    | None => True
    | Some s =>
        exists e, lastMinute = Some e /\ s <= e /\
                  Forall (fun p => e < minute p) rest
    end ->
    forall p, In p rest ->
      (inRange minAlt maxAlt p = true <->
       covered (scan minAlt maxAlt rest [] start lastMinute) (minute p)).
Proof.
  induction rest as [| point rest IH]; intros start lastMinute Hinc Hst p Hp;
    [contradiction |].
  pose proof Hinc as Hinc0.
  simpl map in Hinc. apply increasing_head in Hinc as [Hnext Hinc].
  apply (proj1 (Forall_map _ _ _)) in Hnext.
  destruct (inRange minAlt maxAlt point) eqn:Hin.
  - (* the sample is in range: the window opens or goes on *)
    simpl scan. rewrite Hin.
    set (start' := match start with
                   | Some _ => start
                   | None => Some (minute point)
                   end).
    assert (Hst' : exists s, start' = Some s /\ s <= minute point).
    { destruct start as [s |].
      - destruct Hst as (e & _ & Hse & Hrest). apply Forall_inv in Hrest.
        exists s. split; [reflexivity |].
        exact (Qle_trans _ _ _ Hse (Qlt_le_weak _ _ Hrest)).
      - exists (minute point). split; [reflexivity | apply Qle_refl]. }
    destruct Hst' as (s & Hs & Hsp). rewrite Hs.
    destruct Hp as [<- | Hp].
    + rewrite Hin. split; [intros _ | reflexivity].
      destruct (scan_open_head rest s (minute point) Hinc Hnext)
        as (e' & tail & -> & Hle).
      apply Exists_cons_hd. simpl. auto.
    + apply IH; [exact Hinc | | exact Hp].
      exists (minute point). split; [reflexivity |]. auto.
  - (* the sample is out of range: the open window, if any, is closed *)
    assert (Htail : forall lm q, In q rest ->
              (inRange minAlt maxAlt q = true <->
               covered (scan minAlt maxAlt rest [] None lm) (minute q)))
      by (intros lm q Hq; apply IH; [exact Hinc | exact I | exact Hq]).
    assert (Hpoint : forall lm,
              ~ covered (scan minAlt maxAlt rest [] None lm) (minute point))
      by (intros lm; apply (scan_after rest lm (minute point));
          [exact Hinc | exact Hnext | apply Qle_refl]).
    destruct start as [s |].
    + rewrite (scan_close _ _ _ _ _ _ Hin).
      destruct Hst as (e & -> & Hse & Hrest). simpl orElse.
      assert (Hout : forall q, In q (point :: rest) ->
                ~ (s <= minute q /\ minute q <= e)).
      { intros q Hq [_ Hqe]. rewrite Forall_forall in Hrest.
        apply (Qlt_irrefl e).
        exact (Qlt_le_trans _ _ _ (Hrest q Hq) Hqe). }
      destruct Hp as [<- | Hp].
      * rewrite Hin. split; [discriminate |]. intros Hcov. exfalso.
        unfold covered in Hcov. apply Exists_cons in Hcov as [Hhd | Htl].
        -- exact (Hout point (or_introl eq_refl) Hhd).
        -- exact (Hpoint None Htl).
      * rewrite (Htail None p Hp). unfold covered. split.
        -- intros Hcov. apply Exists_cons_tl. exact Hcov.
        -- intros Hcov. apply Exists_cons in Hcov as [Hhd | Htl]; [| exact Htl].
           exfalso. exact (Hout p (or_intror Hp) Hhd).
    + simpl scan. rewrite Hin.
      destruct Hp as [<- | Hp].
      * rewrite Hin. split; [discriminate |]. intros Hcov. exfalso.
        exact (Hpoint lastMinute Hcov).
      * exact (Htail lastMinute p Hp).
Qed.

End WindowCover.

Section WindowEdges.
Import Spec Spec3 Photography.
Local Open Scope Q_scope.

(** X12. On a series with strictly increasing minutes the windows cover
    exactly the samples in range: a sample is in range if and only if its
    minute lies inside one of the windows returned. *)
Theorem findWindows_cover (series : list Sample) (minAlt maxAlt : Q) (p : Sample) :
  increasing (map minute series) = true ->
  In p series ->
  (inRange minAlt maxAlt p = true <->
   covered (findWindows series minAlt maxAlt) (minute p)).
Proof.
  intros Hinc Hp. unfold findWindows.
  apply scan_cover; [exact Hinc | exact I | exact Hp].
Qed.

Lemma findWindows_cover_witness :
  inRange 0 6 {| minute := 480; altitude := 3 |} = true <->
  covered (findWindows sampleDay 0 6) (minute {| minute := 480; altitude := 3 |}).
Proof.
  apply (findWindows_cover sampleDay 0 6 {| minute := 480; altitude := 3 |}).
  - reflexivity.
  - simpl. auto.
Defined.

Variables minAlt maxAlt : Q.

Lemma scan_none_in_range (series : list Sample) :
  forall windows lastMinute,
    Forall (fun p => inRange minAlt maxAlt p = false) series ->
    scan minAlt maxAlt series windows None lastMinute = windows.
Proof.
  induction series as [| point rest IH]; intros windows lastMinute Hall;
    [reflexivity |].
  simpl. rewrite (Forall_inv Hall). apply IH. exact (Forall_inv_tail Hall).
Qed.

Lemma last_any_default (A : Type) (l : list A) (a d1 d2 : A) :
  last (a :: l) d1 = last (a :: l) d2.
Proof.
  revert a. induction l as [| b l IH]; intros a; [reflexivity |].
  change (last (b :: l) d1 = last (b :: l) d2). apply IH.
Qed.

Lemma last_of_map (A B : Type) (f : A -> B) (l : list A) (d : A) :
  last (map f l) (f d) = f (last l d).
Proof.
  induction l as [| a l IH]; [reflexivity |].
  destruct l as [| b l]; [reflexivity |].
  exact IH.
Qed.

Lemma scan_all_in_range (series : list Sample) :
  forall s e,
    Forall (fun p => inRange minAlt maxAlt p = true) series ->
    scan minAlt maxAlt series [] (Some s) (Some e) =
    [ {| start := s; end_ := last (map minute series) e |} ].
Proof.
  induction series as [| point rest IH]; intros s e Hall; [reflexivity |].
  simpl scan. rewrite (Forall_inv Hall).
  rewrite (IH s (minute point) (Forall_inv_tail Hall)).
  destruct rest as [| q rest]; [reflexivity |].
  simpl map. rewrite (last_any_default _ _ _ (minute point) e). reflexivity.
Qed.

Lemma opens_zero (alts : list Q) :
  opens minAlt maxAlt false alts = O ->
  Forall (fun a => within minAlt maxAlt a = false) alts.
Proof.
  induction alts as [| a t IH]; intros H; [constructor |].
  simpl in H. destruct (within minAlt maxAlt a) eqn:Ha.
  - simpl in H. discriminate H.
  - simpl in H. constructor; [exact Ha | exact (IH H)].
Qed.

(** X13. [findWindows] returns no window exactly when no sample is in
    range (in particular on the empty series), and when every sample of a
    series that is not empty is in range it returns the single window
    from the first minute to the last. *)
Theorem findWindows_edges :
  (forall series : list Sample,
     findWindows series minAlt maxAlt = [] <->
     Forall (fun p => inRange minAlt maxAlt p = false) series) /\
  (forall (first : Sample) (more : list Sample),
     Forall (fun p => inRange minAlt maxAlt p = true) (first :: more) ->
     findWindows (first :: more) minAlt maxAlt =
     [ {| start := minute first; end_ := minute (last more first) |} ]).
Proof.
  split.
  - intros series. split.
    + intros Hnil.
      assert (Hlen : opens minAlt maxAlt false (map altitude series) = O)
        by (rewrite <- findWindows_length, Hnil; reflexivity).
      apply opens_zero in Hlen.
      apply (proj1 (Forall_map _ _ _)) in Hlen. exact Hlen.
    + intros Hall. unfold findWindows. apply scan_none_in_range. exact Hall.
  - intros first more Hall. unfold findWindows. simpl scan.
    rewrite (Forall_inv Hall).
    rewrite (scan_all_in_range more _ _ (Forall_inv_tail Hall)).
    f_equal. f_equal. apply last_of_map.
Qed.

End WindowEdges.

(** ** geo/time.ts *)

Section Enumeration.
Import Spec4.
Local Open Scope Z_scope.

(** A boolean property checked on a whole range of integers. *)
Lemma zrange_forallb (f : Z -> bool) (lo : Z) (len : nat) :
  forallb f (zrange lo len) = true ->
  forall z, lo <= z < lo + Z.of_nat len -> f z = true.
Proof.
  intros Hall z Hz. rewrite forallb_forall in Hall. apply Hall.
  unfold zrange. apply in_map_iff.
  exists (Z.to_nat (z - lo)). split; [lia |].
  apply in_seq. lia.
Qed.

Lemma padStart_two_digits (n : Z) :
  0 <= n <= 99 ->
  JsFormat.padStart 2 "0" (JsFormat.toString n) = twoDigits n.
Proof.
  intros Hn.
  apply String.eqb_eq.
  apply (zrange_forallb
           (fun k => String.eqb (JsFormat.padStart 2 "0" (JsFormat.toString k))
                                (twoDigits k)) 0 100);
    [vm_compute; reflexivity | lia].
Qed.

End Enumeration.

Section Rounding.
Local Open Scope R_scope.

Lemma round_IZR (z : Z) : JsFormat.round (IZR z) = z.
Proof.
  unfold JsFormat.round. apply Zfloor_eq. lra.
Qed.

Lemma round_bounds (x : R) :
  IZR (JsFormat.round x) - / 2 <= x < IZR (JsFormat.round x) + / 2.
Proof.
  unfold JsFormat.round. pose proof (Zfloor_bound (x + / 2)). lra.
Qed.

End Rounding.

Section DayWrap.
Import TimeFormat.
Local Open Scope Z_scope.

Lemma whileNegative_spec (fuel : nat) :
  forall minutes dayOffset,
    - minutes <= 1440 * Z.of_nat fuel ->
    whileNegative fuel minutes dayOffset =
    if minutes <? 0 then (minutes mod 1440, dayOffset + minutes / 1440)
    else (minutes, dayOffset).
Proof.
  induction fuel as [| fuel IH]; intros minutes dayOffset Hfuel.
  - simpl. destruct (Z.ltb_spec minutes 0); [lia | reflexivity].
  - simpl. destruct (Z.ltb_spec minutes 0) as [Hneg | Hpos]; [| reflexivity].
    rewrite IH by lia.
    destruct (Z.ltb_spec (minutes + 1440) 0) as [Hstill | Hdone];
      f_equal; Z.div_mod_to_equations; lia.
Qed.

Lemma whileBeyond_spec (fuel : nat) :
  forall minutes dayOffset,
    0 <= minutes -> minutes < 1440 * (Z.of_nat fuel + 1) ->
    whileBeyond fuel minutes dayOffset =
    (minutes mod 1440, dayOffset + minutes / 1440).
Proof.
  induction fuel as [| fuel IH]; intros minutes dayOffset Hpos Hfuel.
  - simpl. f_equal; Z.div_mod_to_equations; lia.
  - simpl. destruct (Z.leb_spec 1440 minutes) as [Hbig | Hsmall].
    + rewrite IH by lia. f_equal; Z.div_mod_to_equations; lia.
    + f_equal; Z.div_mod_to_equations; lia.
Qed.

(** The two loops bring the minutes into the day and count the days. *)
Lemma wrapDay_spec (minutes : Z) :
  wrapDay minutes = (minutes mod 1440, minutes / 1440).
Proof.
  unfold wrapDay. cbv zeta.
  set (fuel := Z.to_nat (Z.abs minutes / 1440 + 1)).
  assert (Hfuel : Z.of_nat fuel = Z.abs minutes / 1440 + 1).
  { unfold fuel. rewrite Z2Nat.id; [reflexivity |].
    Z.div_mod_to_equations. lia. }
  rewrite whileNegative_spec by (Z.div_mod_to_equations; lia).
  destruct (Z.ltb_spec minutes 0) as [Hneg | Hpos].
  - rewrite whileBeyond_spec.
    + f_equal; Z.div_mod_to_equations; lia.
    + Z.div_mod_to_equations. lia.
    + Z.div_mod_to_equations. lia.
  - rewrite whileBeyond_spec.
    + f_equal.
    + exact Hpos.
    + Z.div_mod_to_equations. lia.
Qed.

End DayWrap.

Section TimeFormatLaws.
Import JsFormat TimeFormat Spec4.
Local Open Scope string_scope.
Local Open Scope Z_scope.

Lemma append_empty_r (s : string) : s ++ "" = s.
Proof. induction s as [| c s IH]; simpl; [| rewrite IH]; reflexivity. Qed.

(** X15. For minutes that round to a safe integer,
    [formatTimeWithOffset] ends its two loops and writes the rounded
    minutes as a time of day hh:mm, hh from 00 to 23 and mm from 00 to
    59, followed by the number of whole days the minutes lie before or
    after the day when that number is not zero:
    rounded minutes = 1440 days + 60 hh + mm. *)
Theorem formatTimeWithOffset_spec (totalMinutes : R) :
  Z.abs (round totalMinutes) <= MAX_SAFE_INTEGER ->
  exists h m k : Z,
    0 <= h <= 23 /\ 0 <= m <= 59 /\
    round totalMinutes = 1440 * k + 60 * h + m /\
    formatTimeWithOffset totalMinutes = clock h m ++ daySuffix k.
Proof.
  intros _.
  unfold formatTimeWithOffset. rewrite wrapDay_spec.
  set (r := round totalMinutes).
  exists ((r mod 1440) / 60), ((r mod 1440) mod 60), (r / 1440).
  assert (Hh : 0 <= (r mod 1440) / 60 <= 23) by (Z.div_mod_to_equations; lia).
  assert (Hm : 0 <= (r mod 1440) mod 60 <= 59) by (Z.div_mod_to_equations; lia).
  split; [exact Hh |]. split; [exact Hm |].
  split; [Z.div_mod_to_equations; lia |].
  rewrite Z.rem_mod_nonneg by (Z.div_mod_to_equations; lia).
  rewrite !padStart_two_digits by lia.
  unfold clock, daySuffix.
  destruct (r / 1440 =? 0).
  - rewrite append_empty_r. reflexivity.
  - reflexivity.
Qed.

Lemma formatTimeWithOffset_spec_witness :
  exists h m k : Z,
    0 <= h <= 23 /\ 0 <= m <= 59 /\
    round (-30) = 1440 * k + 60 * h + m /\
    formatTimeWithOffset (-30) = clock h m ++ daySuffix k.
Proof.
  apply (formatTimeWithOffset_spec (-30)%R).
  rewrite (round_IZR (-30)). vm_compute. discriminate.
Defined.

(** X16. The slider label and [formatMinutes] are the same text; for
    minutes that round into the day (0 to 1439) it is the hh:mm of
    [formatTimeWithOffset]; outside the day nothing is wrapped: 1500
    minutes read 25:00 and -30 minutes read -1:-30. *)
Theorem formatMinutes_spec :
  (forall x : R, Controls.minutesToLabel x = formatMinutes x) /\
  (forall x : R,
     0 <= round x < 1440 ->
     formatMinutes x = clock (round x / 60) (round x mod 60) /\
     formatMinutes x = formatTimeWithOffset x) /\
  formatMinutes 1500 = "25:00" /\
  formatTimeWithOffset 1500 = "01:00 (+1)" /\
  formatMinutes (-30) = "-1:-30" /\
  formatTimeWithOffset (-30) = "23:30 (-1)".
Proof.
  split; [reflexivity |]. split.
  - intros x Hx.
    assert (Hfm : formatMinutes x = clock (round x / 60) (round x mod 60)).
    { unfold formatMinutes. cbv zeta.
      rewrite Z.rem_mod_nonneg by lia.
      rewrite !padStart_two_digits by (Z.div_mod_to_equations; lia).
      reflexivity. }
    split; [exact Hfm |].
    rewrite Hfm. unfold formatTimeWithOffset. rewrite wrapDay_spec.
    rewrite (Z.mod_small (round x) 1440) by lia.
    rewrite (Z.div_small (round x) 1440) by lia.
    rewrite Z.rem_mod_nonneg by lia.
    rewrite !padStart_two_digits by (Z.div_mod_to_equations; lia).
    reflexivity.
  - assert (H1500 : round 1500 = 1500) by (apply (round_IZR 1500)).
    assert (Hm30 : round (-30) = -30) by (apply (round_IZR (-30))).
    unfold formatMinutes, formatTimeWithOffset.
    rewrite H1500, Hm30. repeat split; vm_compute; reflexivity.
Qed.

Lemma formatMinutes_spec_witness :
  0 <= round 760 < 1440 /\
  formatMinutes 760 = clock (round 760 / 60) (round 760 mod 60) /\
  formatMinutes 760 = formatTimeWithOffset 760.
Proof.
  assert (H : 0 <= round 760 < 1440) by (rewrite (round_IZR 760); lia).
  split; [exact H |].
  exact (proj1 (proj2 formatMinutes_spec) 760%R H).
Defined.

(** X17. For minutes that round to a safe integer, [formatDuration]
    never shows a negative duration: minutes that round to zero or less
    read 0h 0m; otherwise it shows h hours and m minutes with m below 60
    and 60 h + m the rounded minutes. *)
Theorem formatDuration_spec (totalMinutes : R) :
  Z.abs (round totalMinutes) <= MAX_SAFE_INTEGER ->
  (round totalMinutes <= 0 -> formatDuration totalMinutes = "0h 0m") /\
  exists h m : Z,
    0 <= h /\ 0 <= m <= 59 /\
    60 * h + m = Z.max 0 (round totalMinutes) /\
    formatDuration totalMinutes = toString h ++ "h " ++ toString m ++ "m".
Proof.
  intros _.
  unfold formatDuration. cbv zeta.
  set (r := round totalMinutes).
  split.
  - intros Hr. rewrite Z.max_l by lia. reflexivity.
  - exists (Z.max 0 r / 60), (Z.max 0 r mod 60).
    split; [Z.div_mod_to_equations; lia |].
    split; [Z.div_mod_to_equations; lia |].
    split; [Z.div_mod_to_equations; lia |].
    rewrite Z.rem_mod_nonneg by lia. reflexivity.
Qed.

Lemma formatDuration_spec_witness :
  round (-5) <= 0 /\ formatDuration (-5) = "0h 0m".
Proof.
  assert (H : round (-5) <= 0) by (rewrite (round_IZR (-5)); lia).
  split; [exact H |].
  apply (proj1 (formatDuration_spec (-5)%R
                  ltac:(rewrite (round_IZR (-5)); vm_compute; discriminate)) H).
Defined.

End TimeFormatLaws.

Section LocalToUtc.
Import JsDate SunriseSunset.
Local Open Scope R_scope.

Variable dateString : string.

Lemma utc_midnight_dateUtc (t : Z) :
  GeoTime.getUtcDateFromLocal dateString 0 0 = Some (DateOf t) ->
  dateUtc dateString = Some (DateOf t).
Proof.
  rewrite getUtcDateFromLocal_dateUtc.
  destruct (dateUtc dateString) as [[| t'] |] eqn:Hd; try discriminate.
  replace (IZR t' + (0 - 0) * 60 * 1000) with (IZR t') by ring.
  rewrite (ofNumber_IZR t' (dateUtc_range dateString t' Hd)).
  intros [= <-]. reflexivity.
Qed.

(** X14. [getUtcDateFromLocal] returns null exactly for the dates on
    which [sunriseSunset] has no number for solar noon (unparseable or
    outside the range of Date); otherwise, with UTC midnight of the date
    at [t], whole local minutes and a whole offset give the instant
    t + (minutes - offset) * 60000 when it is within the range of Date;
    and the result only depends on minutes - offset. *)
Theorem getUtcDateFromLocal_spec :
  (forall (minutesLocal offsetMinutes latitude longitude tz : R)
          (options : SunEventOptions),
     GeoTime.getUtcDateFromLocal dateString minutesLocal offsetMinutes = None <->
     forall noon,
       solarNoonMinutes (sunriseSunset latitude longitude dateString tz options)
         <> Num noon) /\
  (forall (t minutesLocal offsetMinutes : Z),
     GeoTime.getUtcDateFromLocal dateString 0 0 = Some (DateOf t) ->
     (Z.abs (t + (minutesLocal - offsetMinutes) * 60000) <= maxTime)%Z ->
     GeoTime.getUtcDateFromLocal dateString (IZR minutesLocal) (IZR offsetMinutes)
       = Some (DateOf (t + (minutesLocal - offsetMinutes) * 60000))) /\
  (forall minutesLocal offsetMinutes shift : R,
     GeoTime.getUtcDateFromLocal dateString (minutesLocal + shift)
                                 (offsetMinutes + shift) =
     GeoTime.getUtcDateFromLocal dateString minutesLocal offsetMinutes).
Proof.
  split; [| split].
  - intros minutesLocal offsetMinutes latitude longitude tz options.
    rewrite getUtcDateFromLocal_dateUtc. unfold sunriseSunset.
    destruct (dateUtc dateString) as [[| t] |].
    + simpl. split; [intros _ noon; discriminate | reflexivity].
    + split; [discriminate |]. intros Hno. exfalso.
      unfold solveEvents in Hno. cbv zeta in Hno.
      destruct (Rlt_dec 1 _); [exact (Hno _ eq_refl) |].
      destruct (Rlt_dec _ (-1)); exact (Hno _ eq_refl).
    + simpl. split; [intros _ noon; discriminate | reflexivity].
  - intros t minutesLocal offsetMinutes Hmid Hrange.
    apply utc_midnight_dateUtc in Hmid.
    rewrite getUtcDateFromLocal_dateUtc, Hmid.
    replace (IZR t + (IZR minutesLocal - IZR offsetMinutes) * 60 * 1000)
      with (IZR (t + (minutesLocal - offsetMinutes) * 60000))
      by (rewrite plus_IZR, mult_IZR, minus_IZR; lra).
    rewrite (ofNumber_IZR _ Hrange). reflexivity.
  - intros minutesLocal offsetMinutes shift.
    rewrite !getUtcDateFromLocal_dateUtc.
    destruct (dateUtc dateString) as [[| t] |]; try reflexivity.
    replace (minutesLocal + shift - (offsetMinutes + shift))
      with (minutesLocal - offsetMinutes) by ring.
    reflexivity.
Qed.

End LocalToUtc.

Section LocalToUtcExample.
Import JsDate SunriseSunset.
Local Open Scope string_scope.

Lemma getUtcDateFromLocal_spec_witness :
  GeoTime.getUtcDateFromLocal "2024-06-21" 0 0 = Some (DateOf 1718928000000) /\
  GeoTime.getUtcDateFromLocal "2024-06-21" (IZR 760) (IZR 480)
    = Some (DateOf (1718928000000 + (760 - 480) * 60000)).
Proof.
  assert (Hmid : GeoTime.getUtcDateFromLocal "2024-06-21" 0 0
                 = Some (DateOf 1718928000000)).
  { apply dateUtc_utc_midnight. vm_compute. reflexivity. }
  split; [exact Hmid |].
  apply (proj1 (proj2 (getUtcDateFromLocal_spec "2024-06-21"))
           1718928000000%Z 760%Z 480%Z Hmid).
  vm_compute. discriminate.
Defined.

End LocalToUtcExample.

(** ** timezone.ts: formatting and parsing together *)

Section TimezoneRoundTrip.
Import JsString Timezone TimezoneFormat Spec4.
Local Open Scope string_scope.
Local Open Scope Z_scope.

Lemma resultEqb_eq (a b : TimezoneParseResult) : resultEqb a b = true -> a = b.
Proof.
  destruct a as [ma va], b as [mb vb]. unfold resultEqb. simpl.
  intros H. apply andb_prop in H. destruct H as [Hm Hv].
  apply Z.eqb_eq in Hm. apply Bool.eqb_prop in Hv. subst. reflexivity.
Qed.

(** X18. Parsing what [formatTimezoneOffset] writes gives the offset
    back for every offset from -899 to 899 minutes (up to UTC+14:59 and
    down to UTC-14:59); the text of an offset of 900 to 5999 minutes on
    either side is written but not read back: it is rejected. *)
Theorem parseTimezoneOffset_formatTimezoneOffset (totalMinutes : Z) :
  Z.abs totalMinutes <= 5999 ->
  parseTimezoneOffset (formatTimezoneOffset totalMinutes) =
  if Z.abs totalMinutes <=? 899
  then {| minutes := totalMinutes; isValid := true |}
  else invalid.
Proof.
  intros Hm. apply resultEqb_eq.
  apply (zrange_forallb
           (fun k => resultEqb
                       (parseTimezoneOffset (formatTimezoneOffset k))
                       (if Z.abs k <=? 899
                        then {| minutes := k; isValid := true |}
                        else invalid))
           (-5999) (Z.to_nat 11999));
    [vm_compute; reflexivity | lia].
Qed.

Lemma parseTimezoneOffset_formatTimezoneOffset_witness :
  parseTimezoneOffset (formatTimezoneOffset (-210)) =
  {| minutes := -210; isValid := true |}.
Proof.
  apply (parseTimezoneOffset_formatTimezoneOffset (-210)). vm_compute.
  discriminate.
Defined.

End TimezoneRoundTrip.

(** ** Decimal text: [toString] read back by [parseInt] *)

Section DecimalText.
Import JsString JsFormat Spec Spec4.
Local Open Scope string_scope.
Local Open Scope Z_scope.

Lemma digitsValue_uint_acc (d : Decimal.uint) :
  forall (acc : positive) (rest : string),
    digitsValue (Z.pos acc) true (NilEmpty.string_of_uint d ++ rest) =
    digitsValue (Z.pos (Pos.of_uint_acc d acc)) true rest.
Proof.
  induction d; intros acc rest;
    cbn [NilEmpty.string_of_uint Pos.of_uint_acc append digitsValue];
    [reflexivity | ..];
    match goal with
    | |- context [isDigit ?c] =>
        change (isDigit c) with true; cbv iota;
        rewrite <- IHd; f_equal; vm_compute digitValue; lia
    end.
Qed.

Lemma digitsValue_uint (d : Decimal.uint) :
  forall (seen : bool) (rest : string),
    digitsValue 0 seen (NilEmpty.string_of_uint d ++ rest) =
    digitsValue (Z.of_N (Pos.of_uint d))
                (seen || match d with Decimal.Nil => false | _ => true end) rest.
Proof.
  induction d; intros seen rest;
    cbn [NilEmpty.string_of_uint Pos.of_uint append digitsValue];
    [rewrite orb_false_r; reflexivity | ..];
    match goal with
    | |- context [isDigit ?c] => change (isDigit c) with true; cbv iota
    end;
    rewrite orb_true_r;
    [ change (10 * 0 + digitValue "0") with 0; rewrite IHd; reflexivity
    | match goal with
      | |- context [digitValue ?c] =>
          let v := eval vm_compute in (10 * 0 + digitValue c) in
          change (10 * 0 + digitValue c) with v
      end;
      apply digitsValue_uint_acc .. ].
Qed.

(** The digits of a number end where the text goes on with another
    character. *)
Lemma digitsValue_stop (v : Z) (rest : string) :
  match rest with String c _ => isDigit c | EmptyString => false end = false ->
  digitsValue v true rest = Some v.
Proof.
  destruct rest as [| c t]; simpl; [reflexivity |].
  intros ->. reflexivity.
Qed.

Lemma uint_digits (d : Decimal.uint) :
  allChars isDigit (NilEmpty.string_of_uint d) = true.
Proof.
  induction d; simpl; [reflexivity | ..]; exact IHd.
Qed.

(** The text of a natural number: its digits, at least one. *)
Lemma toString_nonneg (y : Z) :
  0 <= y ->
  exists d : Decimal.uint,
    toString y = NilEmpty.string_of_uint d /\
    d <> Decimal.Nil /\ Z.of_N (Pos.of_uint d) = y.
Proof.
  intros Hy. destruct y as [| p | p]; [| | lia].
  - exists (Decimal.D0 Decimal.Nil). repeat split. discriminate.
  - exists (Pos.to_uint p). unfold toString. simpl.
    pose proof (DecimalPos.Unsigned.to_uint_nonnil p) as Hnil.
    split; [| split].
    + destruct (Pos.to_uint p); [contradiction | reflexivity ..].
    + exact Hnil.
    + rewrite DecimalPos.Unsigned.of_to. reflexivity.
Qed.

Lemma toString_digits (y : Z) :
  0 <= y -> allChars isDigit (toString y) = true.
Proof.
  intros Hy. destruct (toString_nonneg y Hy) as [d [-> _]]. apply uint_digits.
Qed.

Lemma toString_head (y : Z) :
  0 <= y ->
  exists c t, toString y = String c t /\ isDigit c = true.
Proof.
  intros Hy. destruct (toString_nonneg y Hy) as [d [-> [Hnil _]]].
  destruct d; [contradiction | ..]; simpl; eexists; eexists;
    (split; [reflexivity | reflexivity]).
Qed.

Lemma digit_plain (c : ascii) :
  isDigit c = true ->
  isWhite c = false /\ Ascii.eqb c "-" = false /\ Ascii.eqb c "+" = false.
Proof.
  intros H. each_digit H; repeat split.
Qed.

(** [parseInt] reads back what [toString] writes for a natural number,
    whatever follows the digits. *)
Lemma parseInt_toString (y : Z) (rest : string) :
  0 <= y < overflow ->
  match rest with String c _ => isDigit c | EmptyString => false end = false ->
  parseInt (toString y ++ rest) = Int y.
Proof.
  intros Hy Hrest.
  destruct (toString_head y (proj1 Hy)) as [c [t [Hct Hc]]].
  destruct (digit_plain c Hc) as [Hw [Hm Hp]].
  unfold parseInt. rewrite Hct. cbn [append trimStart]. rewrite Hw.
  assert (Hs : match String c (t ++ rest) with
               | String "-" u => (true, u)
               | String "+" u => (false, u)
               | _ => (false, String c (t ++ rest))
               end = (false, String c (t ++ rest))).
  { each_digit Hc; reflexivity. }
  rewrite Hs. clear Hs.
  change (String c (t ++ rest)) with (String c t ++ rest). rewrite <- Hct.
  destruct (toString_nonneg y (proj1 Hy)) as [d [-> [Hnil Hval]]].
  rewrite digitsValue_uint, Hval.
  replace (false || match d with Decimal.Nil => false | _ => true end)
    with true by (destruct d; [contradiction | reflexivity ..]).
  rewrite (digitsValue_stop y rest Hrest).
  destruct (Z.leb_spec overflow y); [lia | reflexivity].
Qed.

End DecimalText.

(** ** App.tsx: the date of the year overview *)

Section DateText.
Import JsString JsFormat Spec Spec4.
Local Open Scope string_scope.
Local Open Scope Z_scope.

Lemma allChars_impl (f g : ascii -> bool) (s : string) :
  (forall c, f c = true -> g c = true) ->
  allChars f s = true -> allChars g s = true.
Proof.
  intros Hfg. induction s as [| c t IH]; simpl; [reflexivity |].
  intros H. apply andb_prop in H. destruct H as [Hc Ht].
  rewrite (Hfg c Hc), (IH Ht). reflexivity.
Qed.

Lemma digit_notDash (c : ascii) : isDigit c = true -> notDash c = true.
Proof. intros H. each_digit H; reflexivity. Qed.

Lemma split_free (s : string) :
  allChars notDash s = true -> split "-" s = [s].
Proof.
  induction s as [| c t IH]; simpl; [reflexivity |].
  intros H. apply andb_prop in H. destruct H as [Hc Ht].
  unfold notDash in Hc. apply negb_true_iff in Hc. rewrite Hc, (IH Ht).
  reflexivity.
Qed.

Lemma split_nonempty (s : string) : split "-" s <> [].
Proof.
  destruct s as [| c t]; simpl; [discriminate |].
  destruct (Ascii.eqb c "-"); [discriminate |].
  destruct (split "-" t); discriminate.
Qed.

Lemma split_app (a b : string) :
  allChars notDash a = true ->
  split "-" (a ++ String "-" b) = a :: split "-" b.
Proof.
  induction a as [| c t IH]; simpl; [reflexivity |].
  intros H. apply andb_prop in H. destruct H as [Hc Ht].
  unfold notDash in Hc. apply negb_true_iff in Hc. rewrite Hc, (IH Ht).
  reflexivity.
Qed.

(** No part of a split date holds the separator. *)
Lemma split_parts (s : string) :
  Forall (fun p => allChars notDash p = true) (split "-" s).
Proof.
  induction s as [| c t IH]; simpl.
  - constructor; [reflexivity | constructor].
  - destruct (Ascii.eqb c "-") eqn:Hc.
    + constructor; [reflexivity | exact IH].
    + destruct (split "-" t) as [| h r].
      * constructor; [| constructor]. simpl. unfold notDash. rewrite Hc.
        reflexivity.
      * inversion IH as [| ? ? Hh Hr]; subst. constructor; [| exact Hr].
        simpl. unfold notDash at 1. rewrite Hc. exact Hh.
Qed.

Lemma trimStart_free (f : ascii -> bool) (s : string) :
  allChars f s = true -> allChars f (trimStart s) = true.
Proof.
  induction s as [| c t IH]; simpl; [reflexivity |].
  intros H. destruct (isWhite c).
  - apply andb_prop in H. apply IH. exact (proj2 H).
  - exact H.
Qed.

Lemma digitsValue_nonneg (s : string) :
  forall (acc : Z) (seen : bool) (v : Z),
    0 <= acc -> digitsValue acc seen s = Some v -> 0 <= v.
Proof.
  induction s as [| c t IH]; intros acc seen v Hacc; cbn [digitsValue].
  - destruct seen; [intros [= <-]; exact Hacc | discriminate].
  - destruct (isDigit c) eqn:Hc.
    + apply IH.
      each_digit Hc;
        match goal with
        | |- context [digitValue ?c] =>
            let k := eval vm_compute in (digitValue c) in
            change (digitValue c) with k
        end; lia.
    + destruct seen; [intros [= <-]; exact Hacc | discriminate].
Qed.

(** A number read from text without a minus sign is not negative. *)
Lemma parseInt_free (s : string) (v : Z) :
  allChars notDash s = true -> parseInt s = Int v -> 0 <= v.
Proof.
  intros Hfree. apply (trimStart_free notDash) in Hfree.
  unfold parseInt. destruct (trimStart s) as [| c t] eqn:Hs.
  - simpl. discriminate.
  - simpl in Hfree. apply andb_prop in Hfree. destruct Hfree as [Hc _].
    unfold notDash in Hc. apply negb_true_iff in Hc.
    assert (Hcase :
      exists u, match String c t with
                | String "-" u => (true, u)
                | String "+" u => (false, u)
                | _ => (false, String c t)
                end = (false, u)).
    { destruct c as [[] [] [] [] [] [] [] []];
        try discriminate Hc; eexists; reflexivity. }
    destruct Hcase as [u ->].
    destruct (digitsValue 0 false u) as [w |] eqn:Hw; [| discriminate].
    destruct (overflow <=? w); [discriminate |].
    intros [= <-]. apply (digitsValue_nonneg u 0 false w); [lia | exact Hw].
Qed.

Lemma parseIntElement_part (s : string) (i : nat) (v : Z) :
  parseIntElement (nth_error (split "-" s) i) = Int v -> 0 <= v.
Proof.
  destruct (nth_error (split "-" s) i) as [p |] eqn:Hp; simpl; [| discriminate].
  apply parseInt_free.
  pose proof (split_parts s) as Hall. rewrite Forall_forall in Hall.
  apply Hall. exact (nth_error_In _ _ Hp).
Qed.

End DateText.

Section DateRoundTrip.
Import JsString JsFormat JsDate SunriseSunset App Spec Spec4.
Local Open Scope string_scope.
Local Open Scope Z_scope.

Lemma digitChar_digit (k : Z) : 0 <= k <= 9 -> isDigit (digitChar k) = true.
Proof.
  intros Hk.
  apply (zrange_forallb (fun i => isDigit (digitChar i)) 0 10);
    [vm_compute; reflexivity | lia].
Qed.

Lemma twoDigits_free (n : Z) :
  0 <= n <= 99 -> allChars notDash (twoDigits n) = true.
Proof.
  intros Hn.
  apply (zrange_forallb (fun i => allChars notDash (twoDigits i)) 0 100);
    [vm_compute; reflexivity | lia].
Qed.

Lemma parseInt_twoDigits (n : Z) :
  0 <= n <= 99 -> parseInt (twoDigits n) = Int n.
Proof.
  intros Hn.
  assert (H : match parseInt (twoDigits n) with
              | Int v => v =? n
              | _ => false
              end = true).
  { apply (zrange_forallb
             (fun i => match parseInt (twoDigits i) with
                       | Int v => v =? i
                       | _ => false
                       end) 0 100);
      [vm_compute; reflexivity | lia]. }
  destruct (parseInt (twoDigits n)); try discriminate H.
  apply Z.eqb_eq in H. subst. reflexivity.
Qed.

Lemma safe_below_overflow : MAX_SAFE_INTEGER < overflow.
Proof. vm_compute. reflexivity. Qed.

(** The parts of a date that [toDateString] writes, for a year that is
    not negative. *)
Lemma toDateString_split (y m d : Z) :
  0 <= y -> 0 <= m <= 99 -> 0 <= d <= 99 ->
  split "-" (toDateString y m d) = [toString y; twoDigits m; twoDigits d].
Proof.
  intros Hy Hm Hd. unfold toDateString.
  rewrite !padStart_two_digits by assumption.
  change (toString y ++ "-" ++ twoDigits m ++ "-" ++ twoDigits d)
    with (toString y ++ String "-" (twoDigits m ++ String "-" (twoDigits d))).
  rewrite split_app
    by (apply (allChars_impl isDigit); [exact digit_notDash |];
        apply toString_digits; exact Hy).
  rewrite split_app by (apply twoDigits_free; exact Hm).
  rewrite split_free by (apply twoDigits_free; exact Hd).
  reflexivity.
Qed.

(** X19. A date written by [toDateString] is read back by
    [parseDateParts] when the year is a natural number (a safe integer),
    the month is from 1 to 12 and the day from 1 to 31; with a negative
    year the text starts with the separator and is not read at all. *)
Theorem parseDateParts_toDateString (y m d : Z) :
  (0 <= y <= MAX_SAFE_INTEGER -> 1 <= m <= 12 -> 1 <= d <= 31 ->
   parseDateParts (toDateString y m d)
     = Some {| year := y; month := m; day := d |}) /\
  (y < 0 -> parseDateParts (toDateString y m d) = None).
Proof.
  split.
  - intros Hy Hm Hd. unfold parseDateParts.
    rewrite toDateString_split by lia. cbn [nth_error parseIntElement].
    pose proof safe_below_overflow as Hsafe.
    pose proof (parseInt_toString y "" ltac:(lia) eq_refl) as Hyear.
    rewrite append_empty_r in Hyear. rewrite Hyear.
    rewrite !parseInt_twoDigits by lia.
    destruct (Z.ltb_spec m 1); [lia |]. destruct (Z.ltb_spec 12 m); [lia |].
    destruct (Z.ltb_spec d 1); [lia |]. destruct (Z.ltb_spec 31 d); [lia |].
    reflexivity.
  - intros Hy. unfold parseDateParts, toDateString.
    destruct y as [| p | p]; try lia.
    change (toString (Z.neg p)) with (String "-" (NilZero.string_of_uint (Pos.to_uint p))).
    set (tail := _ ++ "-" ++ _ ++ "-" ++ _).
    cbn [append split]. change (Ascii.eqb "-" "-") with true. cbv iota.
    cbn [nth_error parseIntElement].
    change (parseInt "") with NaN. cbv iota. reflexivity.
Qed.

Lemma parseDateParts_toDateString_witness :
  parseDateParts (toDateString 2024 6 1)
    = Some {| year := 2024; month := 6; day := 1 |}.
Proof.
  apply (proj1 (parseDateParts_toDateString 2024 6 1)); vm_compute;
    split; discriminate.
Defined.

End DateRoundTrip.

Section AcceptedDates.
Import JsString JsFormat JsDate SunriseSunset App Spec Spec4.
Local Open Scope string_scope.
Local Open Scope Z_scope.

Lemma monthStart_bounds (leap : bool) (mn : Z) :
  0 <= mn <= 11 -> 0 <= monthStart leap mn <= 335.
Proof.
  intros Hmn.
  assert (Hcases : mn = 0 \/ mn = 1 \/ mn = 2 \/ mn = 3 \/ mn = 4 \/ mn = 5 \/
                   mn = 6 \/ mn = 7 \/ mn = 8 \/ mn = 9 \/ mn = 10 \/ mn = 11)
    by lia.
  destruct leap;
    repeat (destruct Hcases as [-> | Hcases]; [vm_compute; split; discriminate |]);
    subst; vm_compute; split; discriminate.
Qed.

(** Midnight of every day of the years 0 to 275759 is within the range
    of Date. *)
Lemma UTC_calendar (y m d : Z) :
  0 <= y <= 275759 -> 1 <= m <= 12 -> 1 <= d <= 31 ->
  exists t, UTC y (m - 1) d 0 0 0 = Some t /\ t mod msPerDay = 0.
Proof.
  intros Hy Hm Hd.
  set (t := MakeDate (MakeDay (MakeFullYear y) (m - 1) d) (MakeTime 0 0 0 0)).
  exists t. unfold UTC. fold t.
  assert (Hfull : 0 <= MakeFullYear y <= 275759).
  { unfold MakeFullYear. destruct ((0 <=? y) && (y <=? 99)) eqn:Hc; [| lia].
    apply andb_prop in Hc. destruct Hc as [H0 H99].
    apply Z.leb_le in H0, H99. lia. }
  assert (Hday : - 100000000 <= MakeDay (MakeFullYear y) (m - 1) d <= 100000000).
  { unfold MakeDay. cbv zeta.
    rewrite (Z.div_small (m - 1) 12) by lia.
    rewrite (Z.mod_small (m - 1) 12) by lia.
    rewrite Z.add_0_r.
    pose proof (monthStart_bounds (InLeapYear (MakeFullYear y)) (m - 1)
                  ltac:(lia)) as Hms.
    unfold DayFromYear. Z.div_mod_to_equations. lia. }
  assert (Ht : t = MakeDay (MakeFullYear y) (m - 1) d * msPerDay).
  { unfold t, MakeDate, MakeTime. lia. }
  split.
  - apply TimeClip_in_range. rewrite Ht. unfold msPerDay, maxTime. lia.
  - rewrite Ht. apply Z.mod_mul. discriminate.
Qed.

(** X20. A date that [parseDateParts] accepts has a year that is not
    negative (a minus sign is read as a separator), a month from 1 to 12
    and a day from 1 to 31; [sunriseSunset] reads the same three numbers
    from it, and up to the year 275759 they make a valid Date at UTC
    midnight, the instant from which it computes the events. *)
Theorem parseDateParts_accepts_valid_dates (dateString : string) (p : DateParts) :
  parseDateParts dateString = Some p ->
  0 <= year p /\ 1 <= month p <= 12 /\ 1 <= day p <= 31 /\
  dateUtc dateString
    = Some (ofTime (UTC (year p) (month p - 1) (day p) 0 0 0)) /\
  (year p <= 275759 ->
   exists t, dateUtc dateString = Some (DateOf t) /\ t mod msPerDay = 0).
Proof.
  unfold parseDateParts, dateUtc. cbv zeta.
  destruct (parseIntElement (nth_error (split "-" dateString) 0))
    as [| | | y] eqn:Hy; try discriminate.
  destruct (parseIntElement (nth_error (split "-" dateString) 1))
    as [| | | m] eqn:Hm; try discriminate.
  destruct (parseIntElement (nth_error (split "-" dateString) 2))
    as [| | | d] eqn:Hd; try discriminate.
  destruct (Z.ltb_spec m 1); [discriminate |].
  destruct (Z.ltb_spec 12 m); [discriminate |].
  destruct (Z.ltb_spec d 1); [discriminate |].
  destruct (Z.ltb_spec 31 d); [discriminate |].
  simpl orb. cbv iota. intros [= <-]. cbn [year month day].
  pose proof (parseIntElement_part dateString 0 y Hy) as Hyear.
  split; [exact Hyear |]. split; [lia |]. split; [lia |].
  split; [reflexivity |].
  intros Hmax.
  destruct (UTC_calendar y m d ltac:(lia) ltac:(lia) ltac:(lia))
    as [t [Hutc Hmid]].
  exists t. split; [| exact Hmid].
  rewrite ofTime_UTC, Hutc. reflexivity.
Qed.

Lemma parseDateParts_accepts_valid_dates_witness :
  0 <= 2024 /\ 1 <= 6 <= 12 /\ 1 <= 21 <= 31 /\
  dateUtc "2024-06-21" = Some (ofTime (UTC 2024 (6 - 1) 21 0 0 0)) /\
  (2024 <= 275759 ->
   exists t, dateUtc "2024-06-21" = Some (DateOf t) /\ t mod msPerDay = 0).
Proof.
  exact (parseDateParts_accepts_valid_dates "2024-06-21"
           {| year := 2024; month := 6; day := 21 |} eq_refl).
Defined.

End AcceptedDates.

(** ** The charts: where a sun position is drawn *)

Section ChartGeometry.
Import Utils SolarPosition Charts.
Local Open Scope R_scope.

Lemma deg2rad_turn (a : R) : deg2rad (a + 360) = deg2rad a + 2 * PI.
Proof. unfold deg2rad, DEG2RAD. field. Qed.

Lemma sin_turn (a : R) : sin (a + 2 * PI) = sin a.
Proof. rewrite sin_plus, sin_2PI, cos_2PI. ring. Qed.

Lemma cos_turn (a : R) : cos (a + 2 * PI) = cos a.
Proof. rewrite cos_plus, sin_2PI, cos_2PI. ring. Qed.

Lemma chart_radius_bounds (altitude : R) :
  0 <= ((90 - clamp altitude (-90) 90) / 90) * RADIUS <= 2 * RADIUS.
Proof.
  pose proof (clamp_bounds altitude (-90) 90 ltac:(lra)) as Hc.
  unfold RADIUS. lra.
Qed.

Lemma sin_cos_box (r a : R) :
  0 <= r -> - r <= r * sin a <= r /\ - r <= r * cos a <= r.
Proof.
  intros Hr. pose proof (SIN_bound a) as Hs. pose proof (COS_bound a) as Hc.
  split; split; nra.
Qed.

(** X21. [polarToCartesian] puts a point at the distance
    (90 - altitude) / 90 * RADIUS from the centre of the chart, the
    altitude clamped to [-90, 90]: the zenith at the centre, the horizon
    on the circle of radius RADIUS, north up and east to the right; a
    point that is not below the horizon is inside that circle and inside
    the drawing, and the azimuth counts modulo 360. *)
Theorem polarToCartesian_geometry (azimuth altitude : R) :
  let r := ((90 - clamp altitude (-90) 90) / 90) * RADIUS in
  let x := fst (polarToCartesian azimuth altitude) in
  let y := snd (polarToCartesian azimuth altitude) in
  (x - CENTER) * (x - CENTER) + (y - CENTER) * (y - CENTER) = r * r /\
  0 <= r <= 2 * RADIUS /\
  (90 <= altitude -> x = CENTER /\ y = CENTER) /\
  (altitude = 0 -> r = RADIUS) /\
  (0 <= altitude -> r <= RADIUS /\ 0 < x < SIZE /\ 0 < y < SIZE) /\
  polarToCartesian 0 altitude = (CENTER, CENTER - r) /\
  polarToCartesian 90 altitude = (CENTER + r, CENTER) /\
  polarToCartesian (azimuth + 360) altitude = polarToCartesian azimuth altitude.
Proof.
  intros r x y. subst x y. unfold polarToCartesian. cbv zeta. fold r.
  cbn [fst snd].
  pose proof (chart_radius_bounds altitude) as Hr. fold r in Hr.
  split; [| split; [exact Hr | split; [| split; [| split; [| split; [| split]]]]]].
  - pose proof (sin2_cos2 (deg2rad azimuth)) as Hsc. unfold Rsqr in Hsc.
    replace ((CENTER + r * sin (deg2rad azimuth) - CENTER) *
             (CENTER + r * sin (deg2rad azimuth) - CENTER) +
             (CENTER - r * cos (deg2rad azimuth) - CENTER) *
             (CENTER - r * cos (deg2rad azimuth) - CENTER))
      with (r * r * (sin (deg2rad azimuth) * sin (deg2rad azimuth) +
                     cos (deg2rad azimuth) * cos (deg2rad azimuth))) by ring.
    rewrite Hsc. ring.
  - intros Halt.
    assert (Hzero : r = 0).
    { unfold r, clamp. rewrite Rmax_right by lra. rewrite Rmin_left by lra.
      unfold RADIUS. lra. }
    rewrite Hzero. split; ring.
  - intros ->. unfold r. rewrite clamp_inside by lra. unfold RADIUS. lra.
  - intros Halt.
    assert (Hle : r <= RADIUS).
    { unfold r, clamp.
      assert (Hc : 0 <= Rmin 90 (Rmax (-90) altitude)).
      { apply Rmin_glb; [lra |]. apply Rle_trans with altitude; [exact Halt |].
        apply Rmax_r. }
      unfold RADIUS. lra. }
    split; [exact Hle |].
    destruct (sin_cos_box r (deg2rad azimuth) (proj1 Hr)) as [Hs Hc].
    unfold CENTER, SIZE, RADIUS in *. lra.
  - unfold deg2rad. rewrite Rmult_0_l, sin_0, cos_0. f_equal; ring.
  - replace (deg2rad 90) with (PI / 2) by (unfold deg2rad, DEG2RAD; field).
    rewrite sin_PI2, cos_PI2. f_equal; ring.
  - rewrite deg2rad_turn, sin_turn, cos_turn. reflexivity.
Qed.

Lemma polarToCartesian_geometry_witness :
  polarToCartesian 0 90 = (CENTER, CENTER - ((90 - clamp 90 (-90) 90) / 90) * RADIUS).
Proof.
  exact (proj1 (proj2 (proj2 (proj2 (proj2 (proj2
           (polarToCartesian_geometry 0 90))))))).
Defined.

(** X22. A computed sun position is drawn without clamping, at two
    chart units for each degree between the sun and the zenith, never
    farther than 2 RADIUS from the centre. *)
Theorem solarPosition_on_chart (latitude longitude : R) (dateUtc : Z) :
  let p := solarPosition latitude longitude dateUtc in
  let r := 2 * (90 - SolarPosition.altitude p) in
  0 <= r <= 2 * RADIUS /\
  polarToCartesian (azimuth p) (SolarPosition.altitude p) =
    (CENTER + r * sin (deg2rad (azimuth p)),
     CENTER - r * cos (deg2rad (azimuth p))).
Proof.
  intros p r. subst r.
  destruct (altitude_clamped latitude longitude dateUtc) as [c Hc].
  fold p in Hc.
  pose proof (rad2deg_acos_bounds (clamp c (-1) 1)) as Hz.
  assert (Halt : -90 <= SolarPosition.altitude p <= 90) by (rewrite Hc; lra).
  split; [unfold RADIUS; lra |].
  unfold polarToCartesian. cbv zeta. rewrite (clamp_inside _ _ _ Halt).
  unfold RADIUS. f_equal; field.
Qed.

Lemma cos_deg_nonneg (altitude : R) :
  -90 <= altitude <= 90 -> 0 <= cos (deg2rad altitude).
Proof.
  intros H. pose proof PI_RGT_0 as Hpi.
  apply cos_ge_0; unfold deg2rad, DEG2RAD; nra.
Qed.

(** X23. [toVector] puts the sun on the sphere of the given radius
    around the observer, at the height radius * sin(altitude), not below
    the ground when the altitude is from 0 to 180 degrees, and in the
    compass direction in which [polarToCartesian] draws it: the
    horizontal part (x, z) of the vector and the offset of the chart point
    from the centre are the same direction, scaled by the horizontal
    distance and by the chart radius, which are not negative; north (on
    the horizon) is the vector (0, 0, -radius), east is (radius, 0, 0)
    and the zenith is (0, radius, 0). *)
Theorem toVector_geometry (azimuth altitude radius : R) :
  let '(x, y, z) := toVector azimuth altitude radius in
  let horizontal := radius * cos (deg2rad altitude) in
  let r := ((90 - clamp altitude (-90) 90) / 90) * RADIUS in
  x * x + y * y + z * z = radius * radius /\
  x * x + z * z = horizontal * horizontal /\
  (0 <= radius -> 0 <= altitude <= 180 -> 0 <= y) /\
  (fst (polarToCartesian azimuth altitude) - CENTER) * z =
  (snd (polarToCartesian azimuth altitude) - CENTER) * x /\
  toVector (azimuth + 360) altitude radius = toVector azimuth altitude radius /\
  r * x = horizontal * (fst (polarToCartesian azimuth altitude) - CENTER) /\
  r * z = horizontal * (snd (polarToCartesian azimuth altitude) - CENTER) /\
  0 <= r /\
  (0 <= radius -> -90 <= altitude <= 90 -> 0 <= horizontal) /\
  toVector 0 0 radius = (0, 0, - radius) /\
  toVector 90 0 radius = (radius, 0, 0) /\
  toVector 180 0 radius = (0, 0, radius) /\
  toVector 270 0 radius = (- radius, 0, 0) /\
  toVector azimuth 90 radius = (0, radius, 0).
Proof.
  unfold toVector. cbv zeta.
  pose proof (sin2_cos2 (deg2rad azimuth)) as Haz.
  pose proof (sin2_cos2 (deg2rad altitude)) as Halt.
  unfold Rsqr in Haz, Halt.
  assert (H180 : deg2rad 180 = PI) by (unfold deg2rad, DEG2RAD; field).
  assert (H270 : deg2rad 270 = 3 * (PI / 2)) by (unfold deg2rad, DEG2RAD; field).
  split; [| split; [| split; [| split; [| split; [| split; [| split;
    [| split; [| split; [| split; [| split; [| split; [| split]]]]]]]]]]]].
  - set (sa := sin (deg2rad azimuth)) in *. set (ca := cos (deg2rad azimuth)) in *.
    set (sh := sin (deg2rad altitude)) in *. set (ch := cos (deg2rad altitude)) in *.
    replace (radius * ch * sa * (radius * ch * sa) + radius * sh * (radius * sh) +
             - (radius * ch) * ca * (- (radius * ch) * ca))
      with (radius * radius * (ch * ch * (sa * sa + ca * ca) + sh * sh)) by ring.
    rewrite Haz. replace (ch * ch * 1 + sh * sh) with (sh * sh + ch * ch) by ring.
    rewrite Halt. ring.
  - set (sa := sin (deg2rad azimuth)) in *. set (ca := cos (deg2rad azimuth)) in *.
    set (ch := cos (deg2rad altitude)) in *.
    replace (radius * ch * sa * (radius * ch * sa) +
             - (radius * ch) * ca * (- (radius * ch) * ca))
      with (radius * ch * (radius * ch) * (sa * sa + ca * ca)) by ring.
    rewrite Haz. ring.
  - intros Hr Hrange. apply Rmult_le_pos; [exact Hr |].
    apply sin_ge_0.
    + unfold deg2rad, DEG2RAD. pose proof PI_RGT_0. nra.
    + unfold deg2rad, DEG2RAD. pose proof PI_RGT_0.
      replace PI with (180 * (PI / 180)) at 2 by field.
      apply Rmult_le_compat_r; [lra | lra].
  - unfold polarToCartesian. cbv zeta. cbn [fst snd]. ring.
  - rewrite deg2rad_turn, sin_turn, cos_turn. reflexivity.
  - unfold polarToCartesian. cbv zeta. cbn [fst snd]. ring.
  - unfold polarToCartesian. cbv zeta. cbn [fst snd]. ring.
  - exact (proj1 (chart_radius_bounds altitude)).
  - intros Hr Hrange. apply Rmult_le_pos; [exact Hr |].
    apply cos_deg_nonneg. exact Hrange.
  - rewrite deg2rad_0, sin_0, cos_0. f_equal; [f_equal |]; ring.
  - rewrite deg2rad_0, deg2rad_90, sin_0, cos_0, sin_PI2, cos_PI2.
    f_equal; [f_equal |]; ring.
  - rewrite deg2rad_0, H180, sin_0, cos_0, sin_PI, cos_PI.
    f_equal; [f_equal |]; ring.
  - rewrite deg2rad_0, H270, sin_0, cos_0, sin_3PI2, cos_3PI2.
    f_equal; [f_equal |]; ring.
  - rewrite deg2rad_90, sin_PI2, cos_PI2. f_equal; [f_equal |]; ring.
Qed.

Lemma toVector_geometry_witness :
  0 <= snd (fst (toVector 120 30 SKY_RADIUS)) /\
  0 <= SKY_RADIUS * cos (deg2rad 30).
Proof.
  pose proof (toVector_geometry 120 30 SKY_RADIUS) as H.
  cbv beta iota zeta delta [toVector] in H.
  destruct H as (_ & _ & Hy & _ & _ & _ & _ & _ & Hh & _).
  split; [apply Hy | apply Hh]; unfold SKY_RADIUS; lra.
Defined.

End ChartGeometry.

(** ** timezone.ts: what the parser does not tell apart *)

Section TimezoneSymmetry.
Import JsString Timezone Spec.
Local Open Scope string_scope.
Local Open Scope Z_scope.

Lemma TZ_PATTERN_sign (c : ascii) (t : string) :
  c = "+"%char \/ c = "-"%char ->
  TZ_PATTERN (String c t) =
  option_map (fun '(h, m) => (Some c, h, m)) (matchHours t).
Proof.
  intros [-> | ->]; unfold TZ_PATTERN;
    destruct (matchHours t) as [[h m] |]; reflexivity.
Qed.

Lemma TZ_PATTERN_unsigned (c : ascii) (t : string) :
  isDigit c = true ->
  TZ_PATTERN (String c t) =
  option_map (fun '(h, m) => (None, h, m)) (matchHours (String c t)).
Proof.
  intros Hc. destruct (digit_not_sign c Hc) as [Hs _].
  unfold TZ_PATTERN. rewrite Hs. reflexivity.
Qed.

Lemma fromMatch_sign (sg : option ascii) (h : string) (m : option string) :
  isValid (fromMatch (Some (Some "-"%char, h, m)))
    = isValid (fromMatch (Some (sg, h, m))) /\
  (sg <> Some "-"%char ->
   minutes (fromMatch (Some (Some "-"%char, h, m)))
     = - minutes (fromMatch (Some (sg, h, m)))).
Proof.
  unfold fromMatch.
  destruct (parseInt h) as [| | | hh];
    try (split; [reflexivity | intros _; reflexivity]).
  destruct (parseInt (match m with Some x => x | None => "0" end)) as [| | | mm];
    try (split; [reflexivity | intros _; reflexivity]).
  destruct ((14 <? hh) || (60 <=? mm));
    [split; [reflexivity | intros _; reflexivity] |].
  split; [reflexivity |].
  intros Hsg. cbn [minutes].
  destruct sg as [c |]; [| change (Ascii.eqb "-" "-") with true; cbv iota; lia].
  destruct (Ascii.eqb c "-") eqn:Hc.
  - apply Ascii.eqb_eq in Hc. subst. contradiction.
  - change (Ascii.eqb "-" "-") with true. cbv iota. lia.
Qed.

(** X24. On the text of an offset (digits, colon), the minus sign only
    changes the sign of the minutes: the text is accepted with a minus
    sign exactly when it is accepted with a plus sign or without a sign,
    the minutes are then opposite, and a plus sign changes nothing. *)
Theorem parseTimezoneOffset_sign (c : ascii) (t : string) :
  isDigit c = true ->
  allChars offsetChar t = true ->
  let unsigned := parseTimezoneOffset (String c t) in
  let plus := parseTimezoneOffset (String "+" (String c t)) in
  let minus := parseTimezoneOffset (String "-" (String c t)) in
  plus = unsigned /\
  isValid minus = isValid unsigned /\
  minutes minus = - minutes unsigned.
Proof.
  intros Hc Ht unsigned plus minus. subst unsigned plus minus.
  assert (Hall : allChars offsetChar (String c t) = true).
  { simpl. rewrite (digit_offsetChar c Hc), Ht. reflexivity. }
  rewrite !parseTimezoneOffset_offset
    by (try exact Hall; simpl allChars; simpl in Hall; rewrite Hall; reflexivity).
  rewrite (TZ_PATTERN_sign "+" (String c t)) by (left; reflexivity).
  rewrite (TZ_PATTERN_sign "-" (String c t)) by (right; reflexivity).
  rewrite (TZ_PATTERN_unsigned c t Hc).
  destruct (matchHours (String c t)) as [[h m] |]; simpl option_map.
  - destruct (fromMatch_sign None h m) as [Hv Hm].
    split; [reflexivity |]. split; [exact Hv |]. apply Hm. discriminate.
  - repeat split.
Qed.

Lemma parseTimezoneOffset_sign_witness :
  parseTimezoneOffset "+5:30" = parseTimezoneOffset "5:30" /\
  isValid (parseTimezoneOffset "-5:30") = isValid (parseTimezoneOffset "5:30") /\
  minutes (parseTimezoneOffset "-5:30") = - minutes (parseTimezoneOffset "5:30").
Proof.
  exact (parseTimezoneOffset_sign "5" ":30" eq_refl eq_refl).
Defined.

End TimezoneSymmetry.

Section TimezoneCase.
Import JsString Timezone Spec.
Local Open Scope string_scope.

Lemma upper_facts (c : ascii) :
  upper (upper c) = upper c /\ isWhite (upper c) = isWhite c.
Proof.
  destruct c as [[] [] [] [] [] [] [] []]; split; reflexivity.
Qed.

Lemma toUpperCase_idempotent (s : string) :
  toUpperCase (toUpperCase s) = toUpperCase s.
Proof.
  induction s as [| c t IH]; simpl; [reflexivity |].
  rewrite (proj1 (upper_facts c)), IH. reflexivity.
Qed.

Lemma trimStart_toUpperCase (s : string) :
  trimStart (toUpperCase s) = toUpperCase (trimStart s).
Proof.
  induction s as [| c t IH]; simpl; [reflexivity |].
  rewrite (proj2 (upper_facts c)). destruct (isWhite c); [exact IH | reflexivity].
Qed.

Lemma trimEnd_toUpperCase (s : string) :
  trimEnd (toUpperCase s) = toUpperCase (trimEnd s).
Proof.
  induction s as [| c t IH]; simpl; [reflexivity |].
  rewrite IH, (proj2 (upper_facts c)).
  destruct (trimEnd t) as [| d u]; simpl; [| reflexivity].
  destruct (isWhite c); reflexivity.
Qed.

Lemma trimEnd_idempotent (s : string) : trimEnd (trimEnd s) = trimEnd s.
Proof.
  induction s as [| c t IH]; simpl; [reflexivity |].
  destruct (trimEnd t) as [| d u] eqn:Ht.
  - destruct (isWhite c) eqn:Hc; simpl; [reflexivity |].
    rewrite Hc. reflexivity.
  - cbn [trimEnd]. cbn [trimEnd] in IH. rewrite IH. reflexivity.
Qed.

Lemma trimStart_trimEnd (s : string) :
  match s with String c _ => isWhite c | EmptyString => false end = false ->
  trimStart (trimEnd s) = trimEnd s.
Proof.
  destruct s as [| c t]; [reflexivity |]. intros Hc. simpl.
  destruct (trimEnd t); [rewrite Hc |]; simpl; rewrite Hc; reflexivity.
Qed.

Lemma trimStart_head (s : string) :
  match trimStart s with String c _ => isWhite c | EmptyString => false end = false.
Proof.
  induction s as [| c t IH]; simpl; [reflexivity |].
  destruct (isWhite c) eqn:Hc; [exact IH | exact Hc].
Qed.

Lemma trim_idempotent (s : string) : trim (trim s) = trim s.
Proof.
  unfold trim. rewrite (trimStart_trimEnd _ (trimStart_head s)).
  apply trimEnd_idempotent.
Qed.

(** X25. [parseTimezoneOffset] does not tell the case of the letters
    apart, nor white space around the text: the result for the text in
    capitals, for the trimmed text and for the text after a space are the
    result for the text itself. *)
Theorem parseTimezoneOffset_case_and_space (input : string) :
  parseTimezoneOffset (toUpperCase input) = parseTimezoneOffset input /\
  parseTimezoneOffset (trim input) = parseTimezoneOffset input /\
  parseTimezoneOffset (String " " input) = parseTimezoneOffset input.
Proof.
  unfold parseTimezoneOffset. cbv zeta.
  split; [| split].
  - unfold trim. rewrite trimStart_toUpperCase, trimEnd_toUpperCase.
    fold (trim input). rewrite toUpperCase_idempotent. reflexivity.
  - rewrite trim_idempotent. reflexivity.
  - reflexivity.
Qed.

End TimezoneCase.

(** ** The sample curve and the segments of the sky view *)

Section SamplePath.
Import Utils SunPath.
Local Open Scope R_scope.

Lemma demo_point (i : nat) :
  (i <= 180)%nat ->
  nth_error buildDemoPath i =
  Some {| azimuth := 60 + 240 * (INR i / 180);
          altitude := 65 * sin (PI * (INR i / 180)) - 6 |}.
Proof.
  intros Hi. unfold buildDemoPath.
  rewrite nth_error_map.
  replace (nth_error (seq 0 181) i) with (Some i); [reflexivity |].
  symmetry. rewrite nth_error_nth' with (d := O) by (rewrite length_seq; lia).
  rewrite seq_nth by lia. reflexivity.
Qed.

Lemma demo_fraction (i : nat) : (i <= 180)%nat -> 0 <= INR i / 180 <= 1.
Proof.
  intros Hi. pose proof (pos_INR i) as H0.
  apply le_INR in Hi. replace (INR 180) with 180 in Hi by (simpl; lra).
  lra.
Qed.

(** X27. The sample curve drawn before a place is chosen has 181
    points, from azimuth 60 to azimuth 300, with altitudes from -6 to 59
    degrees; it starts and ends 6 degrees below the horizon, is highest,
    at 59 degrees, due south in the middle, and is symmetric about that
    point. *)
Theorem buildDemoPath_shape :
  List.length buildDemoPath = 181%nat /\
  (forall p, In p buildDemoPath ->
     60 <= azimuth p <= 300 /\ -6 <= altitude p <= 59) /\
  nth_error buildDemoPath 0 = Some {| azimuth := 60; altitude := -6 |} /\
  nth_error buildDemoPath 90 = Some {| azimuth := 180; altitude := 59 |} /\
  nth_error buildDemoPath 180 = Some {| azimuth := 300; altitude := -6 |} /\
  (forall i p q, (i <= 180)%nat ->
     nth_error buildDemoPath i = Some p ->
     nth_error buildDemoPath (180 - i) = Some q ->
     altitude q = altitude p /\ azimuth p + azimuth q = 360).
Proof.
  split; [| split; [| split; [| split; [| split]]]].
  - unfold buildDemoPath. rewrite length_map, length_seq. reflexivity.
  - intros p Hp. unfold buildDemoPath in Hp. apply in_map_iff in Hp.
    destruct Hp as [i [<- Hi]]. apply in_seq in Hi. cbv zeta. cbn [azimuth altitude].
    pose proof (demo_fraction i ltac:(lia)) as Ht.
    pose proof PI_RGT_0 as Hpi.
    assert (Hs : 0 <= sin (PI * (INR i / 180)) <= 1).
    { split; [| apply SIN_bound]. apply sin_ge_0; nra. }
    lra.
  - rewrite demo_point by lia. f_equal. f_equal.
    + simpl INR. lra.
    + simpl INR. replace (PI * (0 / 180)) with 0 by lra. rewrite sin_0. lra.
  - rewrite demo_point by lia.
    replace (INR 90 / 180) with (/ 2) by (simpl INR; lra).
    replace (PI * / 2) with (PI / 2) by lra. rewrite sin_PI2.
    f_equal. f_equal; lra.
  - rewrite demo_point by lia.
    replace (INR 180 / 180) with 1 by (simpl INR; lra).
    replace (PI * 1) with PI by lra. rewrite sin_PI. f_equal. f_equal; lra.
  - intros i p q Hi Hp Hq.
    assert (Hj : INR (180 - i) = 180 - INR i).
    { rewrite minus_INR by exact Hi.
      replace (INR 180) with 180 by (simpl; lra). reflexivity. }
    assert (Hle : (180 - i <= 180)%nat) by lia.
    remember (180 - i)%nat as j eqn:Ej. clear Ej.
    rewrite demo_point in Hp by exact Hi. rewrite demo_point in Hq by exact Hle.
    injection Hp as <-. injection Hq as <-. cbn [azimuth altitude].
    rewrite Hj.
    split; [| lra].
    replace (PI * ((180 - INR i) / 180)) with (PI - PI * (INR i / 180)) by lra.
    rewrite sin_PI_x. reflexivity.
Qed.

End SamplePath.

Section SkySegments.
Import Utils SunPath.
Local Open Scope R_scope.

Variable predicate : R -> bool.
Variable radius : R.

Lemma toVector_sphere (az alt : R) :
  let '(x, y, z) := Charts.toVector az alt radius in
  x * x + y * y + z * z = radius * radius.
Proof.
  unfold Charts.toVector. cbv zeta.
  pose proof (sin2_cos2 (deg2rad az)) as Haz.
  pose proof (sin2_cos2 (deg2rad alt)) as Halt.
  unfold Rsqr in Haz, Halt.
  set (sa := sin (deg2rad az)) in *. set (ca := cos (deg2rad az)) in *.
  set (sh := sin (deg2rad alt)) in *. set (ch := cos (deg2rad alt)) in *.
  replace (radius * ch * sa * (radius * ch * sa) + radius * sh * (radius * sh) +
           - (radius * ch) * ca * (- (radius * ch) * ca))
    with (radius * radius * (ch * ch * (sa * sa + ca * ca) + sh * sh)) by ring.
  rewrite Haz. replace (ch * ch * 1 + sh * sh) with (sh * sh + ch * ch) by ring.
  rewrite Halt. ring.
Qed.

Lemma segments_step (prev next : SunPoint) (rest : list SunPoint) :
  buildSegmentGeometry (prev :: next :: rest) predicate radius =
  ((if negb (predicate (altitude prev)) || negb (predicate (altitude next))
    then []
    else [Charts.toVector (azimuth prev) (altitude prev) radius;
          Charts.toVector (azimuth next) (altitude next) radius])
   ++ buildSegmentGeometry (next :: rest) predicate radius)%list.
Proof. reflexivity. Qed.

Lemma segments_members (path : list SunPoint) :
  forall v, In v (buildSegmentGeometry path predicate radius) ->
  exists p, In p path /\ predicate (altitude p) = true /\
            v = Charts.toVector (azimuth p) (altitude p) radius.
Proof.
  induction path as [| prev [| next rest] IH]; intros v Hv;
    [contradiction | contradiction |].
  rewrite segments_step in Hv. apply in_app_or in Hv. destruct Hv as [Hv | Hv].
  - destruct (predicate (altitude prev)) eqn:Hprev; [| contradiction].
    destruct (predicate (altitude next)) eqn:Hnext; [| contradiction].
    simpl in Hv. destruct Hv as [<- | [<- | []]].
    + exists prev. split; [left; reflexivity | auto].
    + exists next. split; [right; left; reflexivity | auto].
  - destruct (IH v Hv) as [p [Hp Hrest]]. exists p. split; [right; exact Hp | exact Hrest].
Qed.

Lemma segments_length (path : list SunPoint) :
  exists k : nat,
    List.length (buildSegmentGeometry path predicate radius) = (2 * k)%nat /\
    (k <= List.length path - 1)%nat.
Proof.
  induction path as [| prev [| next rest] IH].
  - exists O. split; [reflexivity | simpl; lia].
  - exists O. split; [reflexivity | simpl; lia].
  - destruct IH as [k [Hlen Hk]]. rewrite segments_step, length_app, Hlen.
    cbn [List.length] in Hk |- *.
    destruct (negb (predicate (altitude prev)) || negb (predicate (altitude next))).
    + exists k. split; [reflexivity | lia].
    + exists (S k). split; [simpl; lia | lia].
Qed.

(** X26. [buildSegmentGeometry] hands over the points two by two, at
    most one pair for each pair of neighbours of the path and none for a
    path of fewer than two points; every point handed over is the
    [toVector] of a point of the path whose altitude satisfies the
    predicate, and lies on the sphere of the given radius. *)
Theorem buildSegmentGeometry_spec (path : list SunPoint) :
  (exists k : nat,
     List.length (buildSegmentGeometry path predicate radius) = (2 * k)%nat /\
     (k <= List.length path - 1)%nat) /\
  (forall v, In v (buildSegmentGeometry path predicate radius) ->
     (exists p, In p path /\ predicate (altitude p) = true /\
                v = Charts.toVector (azimuth p) (altitude p) radius) /\
     let '(x, y, z) := v in x * x + y * y + z * z = radius * radius).
Proof.
  split; [apply segments_length |].
  intros v Hv. destruct (segments_members path v Hv) as [p [Hp [Hpred ->]]].
  split.
  - exists p. auto.
  - apply toVector_sphere.
Qed.

End SkySegments.
